(** * Schemata editor: the repository store and its archive codec

    A shallow embedding of [src/store/schema-store.ts] together with the data
    model of [src/types/schema.ts], and the properties of the store that the
    specification states.

    Conventions of the embedding.
    - An interface of [schema.ts] is a record; an optional member [m?: T] is
      a member of type [option T], where [None] stands for both "absent" and
      [undefined] (JSON does not tell them apart either: [JSON.stringify]
      omits a member whose value is [undefined]).
    - A JS object used as a dictionary ([Record<string, T>]) and the
      [Map<string, ContextManifest>] of the store are ordered dictionaries
      ([Dict]): association lists in insertion order, because the store
      enumerates them ([Object.keys(...)[0]], [Object.entries], [forEach]).
      The schema cache [Map<string, SchemaDefinition>] is accessed by key in
      the operations below, so it is a [gmap]; where it is enumerated
      ([exportAll]), the order of the enumeration is a parameter.
    - The store ([zustand]) is a record of state; an action is a function
      from state to state.  Asynchronous actions run to completion; what they
      read from the network is a parameter (the document store [fetch]), and
      the current time is a parameter too. *)

From stdpp Require Import gmap strings list fin_maps.
From Stdlib Require Import Ascii ZArith Permutation.

Local Open Scope string_scope.
Local Open Scope list_scope.

#[local] Set Warnings "-register-all".

(** ** JS values used by the store *)

(** Truthiness of a string: the empty string is falsy. *)
Definition truthy (s : string) : bool :=
  match s with
  | EmptyString => false
  | String _ _ => true
  end.

(** Truthiness of [string | undefined]. *)
Definition truthy_opt (o : option string) : bool :=
  match o with
  | Some s => truthy s
  | None => false
  end.

(** [a || b] for [a : string | undefined] and [b : string]. *)
Definition or_else (a : option string) (b : string) : string :=
  match a with
  | Some s => if truthy s then s else b
  | None => b
  end.

(** [String(x)] for [x : string | undefined], as a template literal or a
    property access coerces it. *)
Definition to_key (o : option string) : string :=
  match o with
  | Some s => s
  | None => "undefined"
  end.

(** ** Ordered dictionaries

    Keys are enumerated in insertion order; assigning to a key that is
    present keeps its position.  (For a plain JS object this is the order of
    all keys that are not canonical array indices; context names and version
    strings such as ["1.8.0"] are none.  A key is also taken not to be the
    name of a member that a plain object inherits from [Object.prototype],
    such as ["constructor"].) *)

Module Dict.

Abbreviation t V := (list (string * V)) (only parsing).

Section Ops.
Context {V : Type}.

Fixpoint get (k : string) (d : t V) : option V :=
  match d with
  | [] => None
  | (k', v) :: d' => if decide (k' = k) then Some v else get k d'
  end.

Definition has (k : string) (d : t V) : bool :=
  match get k d with
  | Some _ => true
  | None => false
  end.

(** [d[k] = v], [map.set(k, v)], [{...d, [k]: v}] *)
Fixpoint set (k : string) (v : V) (d : t V) : t V :=
  match d with
  | [] => [(k, v)]
  | (k', v') :: d' =>
      if decide (k' = k) then (k, v) :: d' else (k', v') :: set k v d'
  end.

(** [delete d[k]], [map.delete(k)], [const {[k]: _, ...rest} = d] *)
Definition remove (k : string) (d : t V) : t V :=
  filter (fun kv => kv.1 ≠ k) d.

Definition keys (d : t V) : list string := d.*1.

(** Two dictionaries with the same entries, whatever their order. *)
Definition equiv (d1 d2 : t V) : Prop :=
  ∀ k, get k d1 = get k d2.

End Ops.

End Dict.

(** ** Data model ([src/types/schema.ts]) *)

Record LocalizedString := mkLocalizedString {
  ls_de : string;
  ls_en : string
}.

(** [LocalizedString | string] *)
Inductive Text :=
| Localized (l : LocalizedString)
| Plain (s : string).

(** [LocalizedString | string[]] *)
Inductive AltLabels :=
| AltLocalized (l : LocalizedString)
| AltList (l : list string).

Record VocabularyConcept := mkVocabularyConcept {
  concept_label : Text;
  concept_uri : option string;
  concept_value : option string;
  concept_description : option Text;
  concept_altLabels : option AltLabels;
  concept_icon : option string;
  concept_schema_file : option string;
  concept_broader : option string;
  concept_narrower : option (list string)
}.

Inductive VocabularyType := skos | closed | open.

Record Vocabulary := mkVocabulary {
  vocabulary_type : VocabularyType;
  vocabulary_scheme : option string;
  vocabulary_hierarchical : option bool;
  vocabulary_concepts : list VocabularyConcept;
  vocabulary_skohubUrl : option string
}.

Record IndexConfig := mkIndexConfig {
  index_fulltext : option bool;
  index_keyword : option bool
}.

Inductive CaseTransform := lower | upper | title.

Record NormalizationConfig := mkNormalizationConfig {
  normalization_trim : option bool;
  normalization_collapseWhitespace : option bool;
  normalization_deduplicate : option bool;
  normalization_map_labels_to_uris : option bool;
  normalization_case : option CaseTransform
}.

(** The store only carries numbers around; none of its operations computes
    with them. *)
Record ValidationConfig := mkValidationConfig {
  validation_pattern : option string;
  validation_minLength : option Z;
  validation_maxLength : option Z;
  validation_min : option Z;
  validation_max : option Z;
  validation_integer : option bool
}.

Inductive Datatype :=
| dt_string | dt_array | dt_uri | dt_number | dt_date | dt_boolean | dt_object.

Record PromptInstructions := mkPromptInstructions {
  prompt_labelExactMatch : option bool;
  prompt_extractionHints : option string
}.

(** [string | string[]] *)
Inductive Example_ :=
| ExampleOne (s : string)
| ExampleMany (l : list string).

Record Examples := mkExamples {
  examples_de : option (list Example_);
  examples_en : option (list Example_)
}.

(** A field holds its system configuration, whose items may hold variants,
    which hold fields again. *)
Inductive SchemaField := mkSchemaField {
  field_id : string;
  field_group : option string;
  field_label : Text;
  field_description : option Text;
  field_examples : option Examples;
  field_prompt : option LocalizedString;
  field_promptInstructions : option PromptInstructions;
  field_system : SystemConfig
}
with SystemConfig := mkSystemConfig {
  system_path : string;
  system_uri : string;
  system_datatype : Datatype;
  system_multiple : bool;
  system_required : bool;
  system_ask_user : bool;
  system_ai_fillable : bool;
  system_repo_field : option bool;
  system_index : option IndexConfig;
  system_vocabulary : option Vocabulary;
  system_normalization : option NormalizationConfig;
  system_validation : option ValidationConfig;
  system_items : option FieldItems
}
with FieldItems := mkFieldItems {
  items_datatype : string;
  items_discriminator : option string;
  items_variants : option (list FieldVariant)
}
with FieldVariant := mkFieldVariant {
  variant_type : string;
  variant_label : Text;
  variant_description : option Text;
  variant_fields : list SchemaField
}.

Record SchemaGroup := mkSchemaGroup {
  group_id : string;
  group_label : Text;
  group_description : option Text;
  group_order : option Z
}.

(** [unknown], as far as JSON can carry it. *)
Inductive Json :=
| JNull
| JBool (b : bool)
| JNumber (n : Z)
| JString (s : string)
| JArray (l : list Json)
| JObject (o : list (string * Json)).

Record SchemaDefinition := mkSchemaDefinition {
  schema_profileId : string;
  schema_version : string;
  schema_context : option (Dict.t string);
  schema_groups : list SchemaGroup;
  schema_fields : list SchemaField;
  schema_output_template : option (Dict.t Json)
}.

Inductive ChangeType := added | changed | removed | fixed.

Record ChangelogEntry := mkChangelogEntry {
  changelog_date : string;
  changelog_type : ChangeType;
  changelog_description : string;
  changelog_fieldId : option string;
  changelog_author : option string
}.

Record VersionEntry := mkVersionEntry {
  version_releaseDate : string;
  version_isDefault : option bool;
  version_schemas : list string;
  version_changelog : option (list ChangelogEntry)
}.

Record ContextManifest := mkContextManifest {
  manifest_contextName : string;
  manifest_name : string;
  manifest_basedOn : option string;
  manifest_versions : Dict.t VersionEntry
}.

Record ContextEntry := mkContextEntry {
  entry_name : string;
  entry_description : option string;
  entry_defaultVersion : string;
  entry_path : string;
  entry_basedOn : option string
}.

Record ContextRegistry := mkContextRegistry {
  registry_contexts : Dict.t ContextEntry;
  registry_defaultContext : string
}.

(** The label of a content type is declared [LocalizedString]; the store
    fills it with [c.label as { de: string; en: string }], a cast that
    converts nothing, so it is a [Text]. *)
Record ContentType := mkContentType {
  ct_label : Text;
  ct_icon : string;
  ct_schema_file : string
}.

(** ** The store state ([SchemaStoreState]) *)

Record SchemaStoreState := mkState {
  contextRegistry : option ContextRegistry;
  contextManifests : Dict.t ContextManifest;
  schemas : gmap string SchemaDefinition;
  activeContext : string;
  activeVersion : string;
  activeSchemaFile : option string;
  activeFieldId : option string;
  hasUnsavedChanges : bool;
  isLoading : bool;
  error : option string;
  sidebarCollapsed : bool
}.

Definition initialState : SchemaStoreState := {|
  contextRegistry := None;
  contextManifests := [];
  schemas := ∅;
  activeContext := "default";
  activeVersion := "1.8.0";
  activeSchemaFile := None;
  activeFieldId := None;
  hasUnsavedChanges := false;
  isLoading := false;
  error := None;
  sidebarCollapsed := false
|}.

(** [set({ ... })] of the store merges the given members into the state; one
    setter per member. *)
Definition set_contextRegistry (r : option ContextRegistry) (s : SchemaStoreState) :=
  mkState r (contextManifests s) (schemas s) (activeContext s) (activeVersion s)
    (activeSchemaFile s) (activeFieldId s) (hasUnsavedChanges s) (isLoading s)
    (error s) (sidebarCollapsed s).
Definition set_contextManifests (m : Dict.t ContextManifest) (s : SchemaStoreState) :=
  mkState (contextRegistry s) m (schemas s) (activeContext s) (activeVersion s)
    (activeSchemaFile s) (activeFieldId s) (hasUnsavedChanges s) (isLoading s)
    (error s) (sidebarCollapsed s).
Definition set_schemas (m : gmap string SchemaDefinition) (s : SchemaStoreState) :=
  mkState (contextRegistry s) (contextManifests s) m (activeContext s) (activeVersion s)
    (activeSchemaFile s) (activeFieldId s) (hasUnsavedChanges s) (isLoading s)
    (error s) (sidebarCollapsed s).
Definition set_activeContext (c : string) (s : SchemaStoreState) :=
  mkState (contextRegistry s) (contextManifests s) (schemas s) c (activeVersion s)
    (activeSchemaFile s) (activeFieldId s) (hasUnsavedChanges s) (isLoading s)
    (error s) (sidebarCollapsed s).
Definition set_activeVersion (v : string) (s : SchemaStoreState) :=
  mkState (contextRegistry s) (contextManifests s) (schemas s) (activeContext s) v
    (activeSchemaFile s) (activeFieldId s) (hasUnsavedChanges s) (isLoading s)
    (error s) (sidebarCollapsed s).
Definition set_activeSchemaFile (f : option string) (s : SchemaStoreState) :=
  mkState (contextRegistry s) (contextManifests s) (schemas s) (activeContext s)
    (activeVersion s) f (activeFieldId s) (hasUnsavedChanges s) (isLoading s)
    (error s) (sidebarCollapsed s).
Definition set_activeFieldId (f : option string) (s : SchemaStoreState) :=
  mkState (contextRegistry s) (contextManifests s) (schemas s) (activeContext s)
    (activeVersion s) (activeSchemaFile s) f (hasUnsavedChanges s) (isLoading s)
    (error s) (sidebarCollapsed s).
Definition set_hasUnsavedChanges (b : bool) (s : SchemaStoreState) :=
  mkState (contextRegistry s) (contextManifests s) (schemas s) (activeContext s)
    (activeVersion s) (activeSchemaFile s) (activeFieldId s) b (isLoading s)
    (error s) (sidebarCollapsed s).
Definition set_isLoading (b : bool) (s : SchemaStoreState) :=
  mkState (contextRegistry s) (contextManifests s) (schemas s) (activeContext s)
    (activeVersion s) (activeSchemaFile s) (activeFieldId s) (hasUnsavedChanges s) b
    (error s) (sidebarCollapsed s).
Definition set_error (e : option string) (s : SchemaStoreState) :=
  mkState (contextRegistry s) (contextManifests s) (schemas s) (activeContext s)
    (activeVersion s) (activeSchemaFile s) (activeFieldId s) (hasUnsavedChanges s)
    (isLoading s) e (sidebarCollapsed s).
Definition set_sidebarCollapsed (b : bool) (s : SchemaStoreState) :=
  mkState (contextRegistry s) (contextManifests s) (schemas s) (activeContext s)
    (activeVersion s) (activeSchemaFile s) (activeFieldId s) (hasUnsavedChanges s)
    (isLoading s) (error s) b.

(** [`${contextName}@${version}/${schemaFile}`] *)
Definition cacheKey (contextName version schemaFile : string) : string :=
  contextName +:+ "@" +:+ version +:+ "/" +:+ schemaFile.

(** The key of a document of the active context and version. *)
Definition activeKey (s : SchemaStoreState) (schemaFile : string) : string :=
  cacheKey (activeContext s) (activeVersion s) schemaFile.

(** ** The document store behind [fetch]

    What a request for a path yields: a response that is [ok] and whose
    body parses ([Fetched]), a response that is not [ok] ([NotOk]), or a
    rejected request or unparseable body, with the message of the exception
    ([Threw]). *)
Inductive FetchResult (A : Type) :=
| Fetched (doc : A)
| NotOk
| Threw (message : string).
Arguments Fetched {A} doc.
Arguments NotOk {A}.
Arguments Threw {A} message.

Record DocumentStore := mkDocumentStore {
  fetch_registry : string → FetchResult ContextRegistry;
  fetch_manifest : string → FetchResult ContextManifest;
  fetch_schema : string → FetchResult SchemaDefinition
}.

(** A document store that serves nothing. *)
Definition offline : DocumentStore :=
  mkDocumentStore (λ _, NotOk) (λ _, NotOk) (λ _, NotOk).

(** [iso.split('T')[0]]: the part of a timestamp before its first ['T']. *)
Fixpoint iso_date (iso : string) : string :=
  match iso with
  | EmptyString => EmptyString
  | String c rest => if decide (c = "T"%char) then EmptyString else String c (iso_date rest)
  end.

(** ** UI actions *)

Definition toggleSidebar (s : SchemaStoreState) : SchemaStoreState :=
  set_sidebarCollapsed (negb (sidebarCollapsed s)) s.

Definition setError (e : option string) (s : SchemaStoreState) : SchemaStoreState :=
  set_error e s.

Definition markUnsaved (s : SchemaStoreState) : SchemaStoreState :=
  set_hasUnsavedChanges true s.

Definition markSaved (s : SchemaStoreState) : SchemaStoreState :=
  set_hasUnsavedChanges false s.

Definition saveAll (s : SchemaStoreState) : SchemaStoreState := markSaved s.

(** ** Loading actions *)

Definition loadContextManifest (ds : DocumentStore) (contextName : string)
    (s : SchemaStoreState) : SchemaStoreState :=
  match contextRegistry s with
  | None => s
  | Some registry =>
      match Dict.get contextName (registry_contexts registry) with
      | None => s
      | Some contextEntry =>
          match fetch_manifest ds ("/schemata/" +:+ entry_path contextEntry +:+ "/manifest.json") with
          | Fetched manifest =>
              set_contextManifests (Dict.set contextName manifest (contextManifests s)) s
          | NotOk | Threw _ => s
          end
      end
  end.

Definition loadContextRegistry (ds : DocumentStore) (s : SchemaStoreState)
    : SchemaStoreState :=
  let s1 := set_error None (set_isLoading true s) in
  match fetch_registry ds "/schemata/context-registry.json" with
  | Fetched registry =>
      let s2 := set_isLoading false (set_contextRegistry (Some registry) s1) in
      fold_left (λ st contextName, loadContextManifest ds contextName st)
        (Dict.keys (registry_contexts registry)) s2
  | NotOk => set_isLoading false (set_error (Some "Failed to load context registry") s1)
  | Threw message => set_isLoading false (set_error (Some message) s1)
  end.

Definition loadSchema (ds : DocumentStore) (contextName version schemaFile : string)
    (s : SchemaStoreState) : SchemaStoreState :=
  let s1 := set_error None (set_isLoading true s) in
  let fail message := set_isLoading false (set_error (Some message) s1) in
  match contextRegistry s1 with
  | None => fail "Context registry not loaded"
  | Some registry =>
      match Dict.get contextName (registry_contexts registry) with
      | None => fail ("Context " +:+ contextName +:+ " not found")
      | Some contextEntry =>
          let path := "/schemata/" +:+ entry_path contextEntry +:+ "/v" +:+ version
                      +:+ "/" +:+ schemaFile in
          match fetch_schema ds path with
          | Fetched schema =>
              set_isLoading false
                (set_schemas (<[cacheKey contextName version schemaFile := schema]> (schemas s1)) s1)
          | NotOk => fail ("Failed to load schema " +:+ schemaFile)
          | Threw message => fail message
          end
      end
  end.

(** ** Navigation actions *)

Definition setActiveContext (contextName : string) (s : SchemaStoreState)
    : SchemaStoreState :=
  match contextRegistry s with
  | None => s
  | Some registry =>
      match Dict.get contextName (registry_contexts registry) with
      | None => s
      | Some contextEntry =>
          set_activeFieldId None
            (set_activeSchemaFile None
               (set_activeVersion (entry_defaultVersion contextEntry)
                  (set_activeContext contextName s)))
      end
  end.

Definition setActiveVersion (version : string) (s : SchemaStoreState)
    : SchemaStoreState :=
  set_activeFieldId None (set_activeSchemaFile None (set_activeVersion version s)).

Definition setActiveSchema (ds : DocumentStore) (schemaFile : option string)
    (s : SchemaStoreState) : SchemaStoreState :=
  let s1 := set_activeFieldId None (set_activeSchemaFile schemaFile s) in
  match schemaFile with
  | Some f =>
      if truthy f then loadSchema ds (activeContext s1) (activeVersion s1) f s1 else s1
  | None => s1
  end.

Definition setActiveField (fieldId : option string) (s : SchemaStoreState)
    : SchemaStoreState :=
  set_activeFieldId fieldId s.

(** ** Context management *)

(** [now] is [new Date().toISOString()] at the time of the call. *)
Definition createContext (now : string) (contextName displayName : string)
    (basedOn : option string) (selectedSchemas : option (list string))
    (s : SchemaStoreState) : SchemaStoreState :=
  match contextRegistry s with
  | None => s
  | Some registry =>
      let newRegistry :=
        mkContextRegistry
          (Dict.set contextName
             {| entry_name := displayName;
                entry_description :=
                  Some (match basedOn with
                        | Some b => if truthy b then "Based on " +:+ b else ""
                        | None => ""
                        end);
                entry_defaultVersion := "1.0.0";
                entry_path := contextName;
                entry_basedOn := basedOn |}
             (registry_contexts registry))
          (registry_defaultContext registry) in
      let manifest :=
        {| manifest_contextName := contextName;
           manifest_name := displayName;
           manifest_basedOn := basedOn;
           manifest_versions :=
             [("1.0.0",
               {| version_releaseDate := iso_date now;
                  version_isDefault := Some true;
                  version_schemas := default ["core.json"] selectedSchemas;
                  version_changelog := None |})] |} in
      let manifests := Dict.set contextName manifest (contextManifests s) in
      markUnsaved (set_contextManifests manifests (set_contextRegistry (Some newRegistry) s))
  end.

Definition deleteContext (contextName : string) (s : SchemaStoreState)
    : SchemaStoreState :=
  if decide (contextName = "default") then
    set_error (Some "Cannot delete default context") s
  else
    match contextRegistry s with
    | None => s
    | Some registry =>
        let remainingContexts := Dict.remove contextName (registry_contexts registry) in
        let newRegistry :=
          mkContextRegistry remainingContexts (registry_defaultContext registry) in
        let manifests := Dict.remove contextName (contextManifests s) in
        markUnsaved
          (set_activeContext "default"
             (set_contextManifests manifests (set_contextRegistry (Some newRegistry) s)))
    end.

(** ** Version management *)

(** [JSON.parse(JSON.stringify(x))] builds a new document, member by member.
    Every member of a document is JSON data, so the copy has the same
    members; the functions below rebuild the document as the parser does. *)
Definition clone_list {A : Type} (clone : A → A) : list A → list A :=
  fix go (l : list A) : list A :=
    match l with
    | [] => []
    | x :: l' => clone x :: go l'
    end.

Definition clone_option {A : Type} (clone : A → A) (o : option A) : option A :=
  match o with
  | Some x => Some (clone x)
  | None => None
  end.

Definition clone_text (t : Text) : Text :=
  match t with
  | Localized l => Localized (mkLocalizedString (ls_de l) (ls_en l))
  | Plain s => Plain s
  end.

Definition clone_concept (c : VocabularyConcept) : VocabularyConcept :=
  {| concept_label := clone_text (concept_label c);
     concept_uri := concept_uri c;
     concept_value := concept_value c;
     concept_description := clone_option clone_text (concept_description c);
     concept_altLabels :=
       clone_option
         (λ a, match a with
               | AltLocalized l => AltLocalized (mkLocalizedString (ls_de l) (ls_en l))
               | AltList l => AltList (clone_list id l)
               end)
         (concept_altLabels c);
     concept_icon := concept_icon c;
     concept_schema_file := concept_schema_file c;
     concept_broader := concept_broader c;
     concept_narrower := clone_option (clone_list id) (concept_narrower c) |}.

Definition clone_vocabulary (v : Vocabulary) : Vocabulary :=
  {| vocabulary_type := vocabulary_type v;
     vocabulary_scheme := vocabulary_scheme v;
     vocabulary_hierarchical := vocabulary_hierarchical v;
     vocabulary_concepts := clone_list clone_concept (vocabulary_concepts v);
     vocabulary_skohubUrl := vocabulary_skohubUrl v |}.

Definition clone_examples (e : Examples) : Examples :=
  let clone_example x :=
    match x with
    | ExampleOne s => ExampleOne s
    | ExampleMany l => ExampleMany (clone_list id l)
    end in
  {| examples_de := clone_option (clone_list clone_example) (examples_de e);
     examples_en := clone_option (clone_list clone_example) (examples_en e) |}.

Fixpoint clone_field (f : SchemaField) : SchemaField :=
  {| field_id := field_id f;
     field_group := field_group f;
     field_label := clone_text (field_label f);
     field_description := clone_option clone_text (field_description f);
     field_examples := clone_option clone_examples (field_examples f);
     field_prompt :=
       clone_option (λ l, mkLocalizedString (ls_de l) (ls_en l)) (field_prompt f);
     field_promptInstructions :=
       clone_option
         (λ p, mkPromptInstructions (prompt_labelExactMatch p) (prompt_extractionHints p))
         (field_promptInstructions f);
     field_system := clone_system (field_system f) |}
with clone_system (c : SystemConfig) : SystemConfig :=
  {| system_path := system_path c;
     system_uri := system_uri c;
     system_datatype := system_datatype c;
     system_multiple := system_multiple c;
     system_required := system_required c;
     system_ask_user := system_ask_user c;
     system_ai_fillable := system_ai_fillable c;
     system_repo_field := system_repo_field c;
     system_index :=
       clone_option (λ i, mkIndexConfig (index_fulltext i) (index_keyword i))
         (system_index c);
     system_vocabulary := clone_option clone_vocabulary (system_vocabulary c);
     system_normalization :=
       clone_option
         (λ n, mkNormalizationConfig (normalization_trim n)
                 (normalization_collapseWhitespace n) (normalization_deduplicate n)
                 (normalization_map_labels_to_uris n) (normalization_case n))
         (system_normalization c);
     system_validation :=
       clone_option
         (λ v, mkValidationConfig (validation_pattern v) (validation_minLength v)
                 (validation_maxLength v) (validation_min v) (validation_max v)
                 (validation_integer v))
         (system_validation c);
     system_items :=
       match system_items c with
       | Some i => Some (clone_items i)
       | None => None
       end |}
with clone_items (i : FieldItems) : FieldItems :=
  {| items_datatype := items_datatype i;
     items_discriminator := items_discriminator i;
     items_variants :=
       match items_variants i with
       | Some vs =>
           Some ((fix go (l : list FieldVariant) : list FieldVariant :=
                    match l with
                    | [] => []
                    | v :: l' => clone_variant v :: go l'
                    end) vs)
       | None => None
       end |}
with clone_variant (v : FieldVariant) : FieldVariant :=
  {| variant_type := variant_type v;
     variant_label := clone_text (variant_label v);
     variant_description := clone_option clone_text (variant_description v);
     variant_fields :=
       (fix go (l : list SchemaField) : list SchemaField :=
          match l with
          | [] => []
          | f :: l' => clone_field f :: go l'
          end) (variant_fields v) |}.

Definition clone_group (g : SchemaGroup) : SchemaGroup :=
  {| group_id := group_id g;
     group_label := clone_text (group_label g);
     group_description := clone_option clone_text (group_description g);
     group_order := group_order g |}.

Fixpoint clone_json (j : Json) : Json :=
  match j with
  | JNull => JNull
  | JBool b => JBool b
  | JNumber n => JNumber n
  | JString s => JString s
  | JArray l => JArray (clone_list clone_json l)
  | JObject o =>
      JObject ((fix go (l : list (string * Json)) : list (string * Json) :=
                  match l with
                  | [] => []
                  | (k, v) :: l' => (k, clone_json v) :: go l'
                  end) o)
  end.

Definition clone_schema (d : SchemaDefinition) : SchemaDefinition :=
  {| schema_profileId := schema_profileId d;
     schema_version := schema_version d;
     schema_context := clone_option (clone_list (λ kv, (kv.1, kv.2))) (schema_context d);
     schema_groups := clone_list clone_group (schema_groups d);
     schema_fields := clone_list clone_field (schema_fields d);
     schema_output_template :=
       clone_option (clone_list (λ kv, (kv.1, clone_json kv.2))) (schema_output_template d) |}.

(** [newSchema.version = version] *)
Definition set_version (version : string) (d : SchemaDefinition) : SchemaDefinition :=
  mkSchemaDefinition (schema_profileId d) version (schema_context d) (schema_groups d)
    (schema_fields d) (schema_output_template d).

(** [basedOnVersion || Object.keys(manifest.versions)[0]]; [None] is
    [undefined], the first key of a manifest without versions. *)
Definition baseVersionOf (manifest : ContextManifest) (basedOnVersion : option string)
    : option string :=
  if truthy_opt basedOnVersion then basedOnVersion
  else head (Dict.keys (manifest_versions manifest)).

(** [manifest.versions[baseVersion]?.schemas || ['core.json']] *)
Definition baseSchemasOf (manifest : ContextManifest) (baseVersion : option string)
    : list string :=
  match Dict.get (to_key baseVersion) (manifest_versions manifest) with
  | Some versionEntry => version_schemas versionEntry
  | None => ["core.json"]
  end.

(** The body of [baseSchemas.forEach(schemaFile => ...)] in [createVersion]. *)
Definition copySchema (contextName baseVersion version : string)
    (cache : gmap string SchemaDefinition) (schemaFile : string)
    : gmap string SchemaDefinition :=
  let baseCacheKey := cacheKey contextName baseVersion schemaFile in
  let newCacheKey := cacheKey contextName version schemaFile in
  match cache !! baseCacheKey with
  | Some baseSchema => <[newCacheKey := set_version version (clone_schema baseSchema)]> cache
  | None => cache
  end.

Definition createVersion (now : string) (contextName version : string)
    (basedOnVersion : option string) (s : SchemaStoreState) : SchemaStoreState :=
  let manifests := contextManifests s in
  match Dict.get contextName manifests with
  | None => s
  | Some manifest =>
      let baseVersion := baseVersionOf manifest basedOnVersion in
      let baseSchemas := baseSchemasOf manifest baseVersion in
      let cache :=
        fold_left (copySchema contextName (to_key baseVersion) version) baseSchemas
          (schemas s) in
      let updatedManifest :=
        mkContextManifest (manifest_contextName manifest) (manifest_name manifest)
          (manifest_basedOn manifest)
          (Dict.set version
             {| version_releaseDate := iso_date now;
                version_isDefault := Some false;
                version_schemas := baseSchemas;
                version_changelog :=
                  Some [ {| changelog_date := now;
                            changelog_type := added;
                            changelog_description :=
                              "Version " +:+ version +:+ " erstellt basierend auf "
                              +:+ to_key baseVersion;
                            changelog_fieldId := None;
                            changelog_author := None |} ] |}
             (manifest_versions manifest)) in
      let newManifests := Dict.set contextName updatedManifest manifests in
      markUnsaved (set_schemas cache (set_contextManifests newManifests s))
  end.

Definition deleteVersion (contextName version : string) (s : SchemaStoreState)
    : SchemaStoreState :=
  let manifests := contextManifests s in
  match Dict.get contextName manifests with
  | None => s
  | Some manifest =>
      let remainingVersions := Dict.remove version (manifest_versions manifest) in
      if decide (length (Dict.keys remainingVersions) = 0) then
        set_error (Some "Kann letzte Version nicht löschen") s
      else
        let updatedManifest :=
          mkContextManifest (manifest_contextName manifest) (manifest_name manifest)
            (manifest_basedOn manifest) remainingVersions in
        let newManifests := Dict.set contextName updatedManifest manifests in
        markUnsaved (set_contextManifests newManifests s)
  end.

(** ** Schema management *)

(** Replaces the [schemas] member of a version entry ([versionEntry.schemas = ...],
    [versionEntry.schemas.push(...)]).  The store changes the entry in place;
    the entry belongs to one manifest of the state only, so the state changes
    as if the manifest were rebuilt around it. *)
Definition set_version_schemas (files : list string) (e : VersionEntry) : VersionEntry :=
  mkVersionEntry (version_releaseDate e) (version_isDefault e) files (version_changelog e).

Definition set_version_changelog (log : option (list ChangelogEntry)) (e : VersionEntry)
    : VersionEntry :=
  mkVersionEntry (version_releaseDate e) (version_isDefault e) (version_schemas e) log.

Definition set_manifest_versions (vs : Dict.t VersionEntry) (m : ContextManifest)
    : ContextManifest :=
  mkContextManifest (manifest_contextName m) (manifest_name m) (manifest_basedOn m) vs.

(** [list.includes(x)] *)
Definition includes (x : string) (l : list string) : bool :=
  bool_decide (x ∈ l).

Definition createSchema (schemaFile profileId displayName : string)
    (s : SchemaStoreState) : SchemaStoreState :=
  let activeContext := activeContext s in
  let activeVersion := activeVersion s in
  let newSchema :=
    {| schema_profileId := profileId;
       schema_version := activeVersion;
       schema_context := Some [("schema", "https://schema.org/")];
       schema_groups :=
         [ {| group_id := "general";
              group_label := Localized (mkLocalizedString "Allgemein" "General");
              group_description := None;
              group_order := None |} ];
       schema_fields := [];
       schema_output_template := None |} in
  let cache := <[cacheKey activeContext activeVersion schemaFile := newSchema]> (schemas s) in
  let manifests := contextManifests s in
  let s1 :=
    match Dict.get activeContext manifests with
    | Some manifest =>
        match Dict.get activeVersion (manifest_versions manifest) with
        | Some versionEntry =>
            if includes schemaFile (version_schemas versionEntry) then s
            else
              let versionEntry' :=
                set_version_schemas (version_schemas versionEntry ++ [schemaFile])
                  versionEntry in
              let manifest' :=
                set_manifest_versions
                  (Dict.set activeVersion versionEntry' (manifest_versions manifest))
                  manifest in
              set_contextManifests (Dict.set activeContext manifest' manifests) s
        | None => s
        end
    | None => s
    end in
  markUnsaved (set_activeSchemaFile (Some schemaFile) (set_schemas cache s1)).

Definition deleteSchema (schemaFile : string) (s : SchemaStoreState) : SchemaStoreState :=
  let activeContext := activeContext s in
  let activeVersion := activeVersion s in
  let cache := delete (cacheKey activeContext activeVersion schemaFile) (schemas s) in
  let manifests := contextManifests s in
  let s1 :=
    match Dict.get activeContext manifests with
    | Some manifest =>
        match Dict.get activeVersion (manifest_versions manifest) with
        | Some versionEntry =>
            let versionEntry' :=
              set_version_schemas
                (filter (λ f, f ≠ schemaFile) (version_schemas versionEntry))
                versionEntry in
            let manifest' :=
              set_manifest_versions
                (Dict.set activeVersion versionEntry' (manifest_versions manifest))
                manifest in
            set_contextManifests (Dict.set activeContext manifest' manifests) s
        | None => s
        end
    | None => s
    end in
  markUnsaved (set_activeFieldId None (set_activeSchemaFile None (set_schemas cache s1))).

(** [Partial<SchemaDefinition>]: a member is absent ([None]) or given; an
    optional member can be given as [undefined] ([Some None]). *)
Record PartialSchemaDefinition := mkPartialSchemaDefinition {
  upd_profileId : option string;
  upd_version : option string;
  upd_context : option (option (Dict.t string));
  upd_groups : option (list SchemaGroup);
  upd_fields : option (list SchemaField);
  upd_output_template : option (option (Dict.t Json))
}.

(** [{ ...schema, ...updates }] *)
Definition merge_schema (d : SchemaDefinition) (u : PartialSchemaDefinition)
    : SchemaDefinition :=
  {| schema_profileId := default (schema_profileId d) (upd_profileId u);
     schema_version := default (schema_version d) (upd_version u);
     schema_context := default (schema_context d) (upd_context u);
     schema_groups := default (schema_groups d) (upd_groups u);
     schema_fields := default (schema_fields d) (upd_fields u);
     schema_output_template := default (schema_output_template d) (upd_output_template u) |}.

(** The pattern shared by the actions on a cached document of the active
    context and version: look the document up, return when it is not cached,
    store the updated document under the same key. *)
Definition set_fields (fields : list SchemaField) (d : SchemaDefinition) : SchemaDefinition :=
  mkSchemaDefinition (schema_profileId d) (schema_version d) (schema_context d)
    (schema_groups d) fields (schema_output_template d).

Definition set_groups (groups : list SchemaGroup) (d : SchemaDefinition) : SchemaDefinition :=
  mkSchemaDefinition (schema_profileId d) (schema_version d) (schema_context d)
    groups (schema_fields d) (schema_output_template d).

Definition updateSchema (schemaFile : string) (updates : PartialSchemaDefinition)
    (s : SchemaStoreState) : SchemaStoreState :=
  let cacheKey := activeKey s schemaFile in
  match schemas s !! cacheKey with
  | None => s
  | Some schema =>
      let updatedSchema := merge_schema schema updates in
      markUnsaved (set_schemas (<[cacheKey := updatedSchema]> (schemas s)) s)
  end.

(** ** Field management *)

Definition addField (schemaFile : string) (field : SchemaField) (s : SchemaStoreState)
    : SchemaStoreState :=
  let cacheKey := activeKey s schemaFile in
  match schemas s !! cacheKey with
  | None => s
  | Some schema =>
      let updatedSchema := set_fields (schema_fields schema ++ [field]) schema in
      markUnsaved
        (set_activeFieldId (Some (field_id field))
           (set_schemas (<[cacheKey := updatedSchema]> (schemas s)) s))
  end.

(** [Partial<SchemaField>] *)
Record PartialSchemaField := mkPartialSchemaField {
  upd_field_id : option string;
  upd_field_group : option (option string);
  upd_field_label : option Text;
  upd_field_description : option (option Text);
  upd_field_examples : option (option Examples);
  upd_field_prompt : option (option LocalizedString);
  upd_field_promptInstructions : option (option PromptInstructions);
  upd_field_system : option SystemConfig
}.

(** [{ ...f, ...updates }] *)
Definition merge_field (f : SchemaField) (u : PartialSchemaField) : SchemaField :=
  {| field_id := default (field_id f) (upd_field_id u);
     field_group := default (field_group f) (upd_field_group u);
     field_label := default (field_label f) (upd_field_label u);
     field_description := default (field_description f) (upd_field_description u);
     field_examples := default (field_examples f) (upd_field_examples u);
     field_prompt := default (field_prompt f) (upd_field_prompt u);
     field_promptInstructions :=
       default (field_promptInstructions f) (upd_field_promptInstructions u);
     field_system := default (field_system f) (upd_field_system u) |}.

Definition updateField (schemaFile fieldId : string) (updates : PartialSchemaField)
    (s : SchemaStoreState) : SchemaStoreState :=
  let cacheKey := activeKey s schemaFile in
  match schemas s !! cacheKey with
  | None => s
  | Some schema =>
      let updatedFields :=
        map (λ f, if decide (field_id f = fieldId) then merge_field f updates else f)
          (schema_fields schema) in
      let updatedSchema := set_fields updatedFields schema in
      markUnsaved (set_schemas (<[cacheKey := updatedSchema]> (schemas s)) s)
  end.

Definition deleteField (schemaFile fieldId : string) (s : SchemaStoreState)
    : SchemaStoreState :=
  let cacheKey := activeKey s schemaFile in
  match schemas s !! cacheKey with
  | None => s
  | Some schema =>
      let updatedSchema :=
        set_fields (filter (λ f, field_id f ≠ fieldId) (schema_fields schema)) schema in
      markUnsaved
        (set_activeFieldId None (set_schemas (<[cacheKey := updatedSchema]> (schemas s)) s))
  end.

(** The start position of [array.splice(start, ...)] on an array of [len]
    elements: a negative [start] counts from the end and stops at [0], a
    [start] past the end is the end. *)
Definition splice_start (len : nat) (start : Z) : nat :=
  if decide (start < 0)%Z then Z.to_nat (Z.max (Z.of_nat len + start) 0)
  else Z.to_nat (Z.min start (Z.of_nat len)).

(** [l.splice(i, 1)] for an index [i] of [l]: the array without its element
    [i] (the removed element is [l !! i]). *)
Definition splice_remove {A : Type} (i : nat) (l : list A) : list A :=
  take i l ++ drop (S i) l.

(** [l.splice(start, 0, x)] *)
Definition splice_insert {A : Type} (start : Z) (x : A) (l : list A) : list A :=
  let i := splice_start (length l) start in
  take i l ++ x :: drop i l.

(** [fields.findIndex(f => f.id === fieldId)]; [None] is [-1]. *)
Definition findFieldIndex (fieldId : string) (fields : list SchemaField) : option nat :=
  fst <$> list_find (λ f, field_id f = fieldId) fields.

Definition moveField (schemaFile fieldId : string) (newIndex : Z)
    (s : SchemaStoreState) : SchemaStoreState :=
  let cacheKey := activeKey s schemaFile in
  match schemas s !! cacheKey with
  | None => s
  | Some schema =>
      let fields := schema_fields schema in
      match list_find (λ f, field_id f = fieldId) fields with
      | None => s
      | Some (currentIndex, field) =>
          let fields1 := splice_remove currentIndex fields in
          let fields2 := splice_insert newIndex field fields1 in
          let updatedSchema := set_fields fields2 schema in
          markUnsaved (set_schemas (<[cacheKey := updatedSchema]> (schemas s)) s)
      end
  end.

(** ** Group management *)

Definition addGroup (schemaFile : string) (group : SchemaGroup) (s : SchemaStoreState)
    : SchemaStoreState :=
  let cacheKey := activeKey s schemaFile in
  match schemas s !! cacheKey with
  | None => s
  | Some schema =>
      let updatedSchema := set_groups (schema_groups schema ++ [group]) schema in
      markUnsaved (set_schemas (<[cacheKey := updatedSchema]> (schemas s)) s)
  end.

(** [Partial<SchemaGroup>] *)
Record PartialSchemaGroup := mkPartialSchemaGroup {
  upd_group_id : option string;
  upd_group_label : option Text;
  upd_group_description : option (option Text);
  upd_group_order : option (option Z)
}.

Definition merge_group (g : SchemaGroup) (u : PartialSchemaGroup) : SchemaGroup :=
  {| group_id := default (group_id g) (upd_group_id u);
     group_label := default (group_label g) (upd_group_label u);
     group_description := default (group_description g) (upd_group_description u);
     group_order := default (group_order g) (upd_group_order u) |}.

Definition updateGroup (schemaFile groupId : string) (updates : PartialSchemaGroup)
    (s : SchemaStoreState) : SchemaStoreState :=
  let cacheKey := activeKey s schemaFile in
  match schemas s !! cacheKey with
  | None => s
  | Some schema =>
      let updatedGroups :=
        map (λ g, if decide (group_id g = groupId) then merge_group g updates else g)
          (schema_groups schema) in
      let updatedSchema := set_groups updatedGroups schema in
      markUnsaved (set_schemas (<[cacheKey := updatedSchema]> (schemas s)) s)
  end.

(** [{ ...f, group: g }] *)
Definition set_field_group (g : option string) (f : SchemaField) : SchemaField :=
  mkSchemaField (field_id f) g (field_label f) (field_description f) (field_examples f)
    (field_prompt f) (field_promptInstructions f) (field_system f).

Definition deleteGroup (schemaFile groupId : string) (s : SchemaStoreState)
    : SchemaStoreState :=
  let cacheKey := activeKey s schemaFile in
  match schemas s !! cacheKey with
  | None => s
  | Some schema =>
      let updatedGroups := filter (λ g, group_id g ≠ groupId) (schema_groups schema) in
      let updatedFields :=
        map (λ f, if decide (field_group f = Some groupId) then set_field_group None f else f)
          (schema_fields schema) in
      let updatedSchema := set_fields updatedFields (set_groups updatedGroups schema) in
      markUnsaved (set_schemas (<[cacheKey := updatedSchema]> (schemas s)) s)
  end.

(** ** Content types *)

(** The vocabulary of the field [ccm:oeh_flex_lrt] of [core.json] lists the
    content types. *)
Definition contentTypeFieldId : string := "ccm:oeh_flex_lrt".

Definition getContentTypes (s : SchemaStoreState) : list ContentType :=
  match schemas s !! activeKey s "core.json" with
  | None => []
  | Some schema =>
      match list_find (λ f, field_id f = contentTypeFieldId) (schema_fields schema) with
      | None => []
      | Some (_, field) =>
          match system_vocabulary (field_system field) with
          | None => []
          | Some vocabulary =>
              map (λ c, {| ct_label := concept_label c;
                           ct_icon := or_else (concept_icon c) "article";
                           ct_schema_file := to_key (concept_schema_file c) |})
                (filter (λ c, truthy_opt (concept_schema_file c) = true)
                   (vocabulary_concepts vocabulary))
          end
      end
  end.

Definition set_concepts (cs : list VocabularyConcept) (v : Vocabulary) : Vocabulary :=
  mkVocabulary (vocabulary_type v) (vocabulary_scheme v) (vocabulary_hierarchical v) cs
    (vocabulary_skohubUrl v).

Definition set_system_vocabulary (v : option Vocabulary) (c : SystemConfig) : SystemConfig :=
  mkSystemConfig (system_path c) (system_uri c) (system_datatype c) (system_multiple c)
    (system_required c) (system_ask_user c) (system_ai_fillable c) (system_repo_field c)
    (system_index c) v (system_normalization c) (system_validation c) (system_items c).

Definition set_field_system (c : SystemConfig) (f : SchemaField) : SchemaField :=
  mkSchemaField (field_id f) (field_group f) (field_label f) (field_description f)
    (field_examples f) (field_prompt f) (field_promptInstructions f) c.

(** What [addContentType] and [removeContentType] share: they rewrite the
    concepts of the content-type vocabulary of the active [core.json]. *)
Definition updateContentTypes (change : list VocabularyConcept → list VocabularyConcept)
    (s : SchemaStoreState) : SchemaStoreState :=
  let cacheKey := activeKey s "core.json" in
  match schemas s !! cacheKey with
  | None => s
  | Some schema =>
      match list_find (λ f, field_id f = contentTypeFieldId) (schema_fields schema) with
      | None => s
      | Some (fieldIndex, field) =>
          match system_vocabulary (field_system field) with
          | None => s
          | Some vocabulary =>
              let updatedField :=
                set_field_system
                  (set_system_vocabulary
                     (Some (set_concepts (change (vocabulary_concepts vocabulary)) vocabulary))
                     (field_system field))
                  field in
              let updatedFields := <[fieldIndex := updatedField]> (schema_fields schema) in
              let updatedSchema := set_fields updatedFields schema in
              markUnsaved (set_schemas (<[cacheKey := updatedSchema]> (schemas s)) s)
          end
      end
  end.

Definition addContentType (contentType : ContentType) (s : SchemaStoreState)
    : SchemaStoreState :=
  let newConcept :=
    {| concept_label := ct_label contentType;
       concept_uri := None;
       concept_value := None;
       concept_description := None;
       concept_altLabels := None;
       concept_icon := Some (ct_icon contentType);
       concept_schema_file := Some (ct_schema_file contentType);
       concept_broader := None;
       concept_narrower := None |} in
  updateContentTypes (λ concepts, concepts ++ [newConcept]) s.

Definition removeContentType (schemaFile : string) (s : SchemaStoreState)
    : SchemaStoreState :=
  updateContentTypes (filter (λ c, concept_schema_file c ≠ Some schemaFile)) s.

(** ** Changelog *)

Definition addChangelogEntry (contextName version : string) (entry : ChangelogEntry)
    (s : SchemaStoreState) : SchemaStoreState :=
  let manifests := contextManifests s in
  match Dict.get contextName manifests with
  | None => s
  | Some manifest =>
      match Dict.get version (manifest_versions manifest) with
      | None => s
      | Some versionEntry =>
          let changelog := default [] (version_changelog versionEntry) in
          let versionEntry' := set_version_changelog (Some (entry :: changelog)) versionEntry in
          let manifest' :=
            set_manifest_versions (Dict.set version versionEntry' (manifest_versions manifest))
              manifest in
          set_contextManifests (Dict.set contextName manifest' manifests) s
      end
  end.

(** ** Loading every listed document *)

(** [registry.contexts[contextName]?.path || contextName] *)
Definition contextPathOf (registry : ContextRegistry) (contextName : string) : string :=
  or_else (entry_path <$> Dict.get contextName (registry_contexts registry)) contextName.

(** The body of the innermost loop of [loadAllSchemas]. *)
Definition loadListedSchema (ds : DocumentStore) (registry : ContextRegistry)
    (contextName version : string) (s : SchemaStoreState) (schemaFile : string)
    : SchemaStoreState :=
  let cacheKey := cacheKey contextName version schemaFile in
  match schemas s !! cacheKey with
  | Some _ => s
  | None =>
      let contextPath := contextPathOf registry contextName in
      let path := "/schemata/" +:+ contextPath +:+ "/v" +:+ version +:+ "/" +:+ schemaFile in
      match fetch_schema ds path with
      | Fetched schema => set_schemas (<[cacheKey := schema]> (schemas s)) s
      | NotOk | Threw _ => s
      end
  end.

Definition loadListedVersion (ds : DocumentStore) (registry : ContextRegistry)
    (contextName : string) (s : SchemaStoreState) (v : string * VersionEntry)
    : SchemaStoreState :=
  fold_left (loadListedSchema ds registry contextName v.1) (version_schemas v.2) s.

Definition loadListedContext (ds : DocumentStore) (registry : ContextRegistry)
    (s : SchemaStoreState) (c : string * ContextManifest) : SchemaStoreState :=
  fold_left (loadListedVersion ds registry c.1) (manifest_versions c.2) s.

Definition loadAllSchemas (ds : DocumentStore) (s : SchemaStoreState) : SchemaStoreState :=
  let manifests := contextManifests s in
  match contextRegistry s with
  | None => s
  | Some registry => fold_left (loadListedContext ds registry) manifests s
  end.

(** ** The archive

    An archive maps the path of a file entry to its text.  The text is
    represented by the document that [JSON.parse] makes of it; [Malformed] is
    text that is not the JSON of any document.  ([JSON.stringify] followed by
    [JSON.parse] gives back a document with the same members: that is how an
    exported entry is read again.)  Folder entries carry no text and
    [zip.file(path)] does not return them; they are left out, and
    [zip.folder(p).file(n)] names the entry [p/n]. *)
Inductive ArchiveEntry :=
| RegistryJson (registry : ContextRegistry)
| ManifestJson (manifest : ContextManifest)
| SchemaJson (schema : SchemaDefinition)
| Malformed.

Abbreviation Archive := (gmap string ArchiveEntry).

(** The [File] handed to [importFromZip]: [JSZip.loadAsync] throws on a file
    that is not a ZIP archive. *)
Inductive File :=
| NotAZip
| Zip (zip : Archive).

(** Reading an entry at the type the import expects; [None] stands for the
    exception ([JSON.parse] of malformed text, or the [TypeError] of walking
    a document of another shape, as in [Object.entries(registry.contexts)]
    on a value without [contexts]).  A registry or manifest read as a schema
    would be stored by the JS code as an object that is no
    [SchemaDefinition]; the embedding has no such value and counts it as a
    failure too. *)
Definition parse_registry (e : ArchiveEntry) : option ContextRegistry :=
  match e with
  | RegistryJson r => Some r
  | _ => None
  end.

Definition parse_manifest (e : ArchiveEntry) : option ContextManifest :=
  match e with
  | ManifestJson m => Some m
  | _ => None
  end.

Definition parse_schema (e : ArchiveEntry) : option SchemaDefinition :=
  match e with
  | SchemaJson d => Some d
  | _ => None
  end.

(** A loop whose body may throw: the first exception ends it. *)
Fixpoint foldM {A S : Type} (body : S → A → option S) (l : list A) (acc : S) : option S :=
  match l with
  | [] => Some acc
  | x :: l' =>
      match body acc x with
      | Some acc' => foldM body l' acc'
      | None => None
      end
  end.

(** *** Export *)

Definition manifestPath (contextPath : string) : string :=
  contextPath +:+ "/manifest.json".

Definition schemaPath (contextPath version schemaFile : string) : string :=
  contextPath +:+ "/v" +:+ version +:+ "/" +:+ schemaFile.

Definition exportSchema (cache : gmap string SchemaDefinition)
    (contextName contextPath version : string) (zip : Archive) (schemaFile : string)
    : Archive :=
  match cache !! cacheKey contextName version schemaFile with
  | Some schema => <[schemaPath contextPath version schemaFile := SchemaJson schema]> zip
  | None => zip
  end.

Definition exportVersion (cache : gmap string SchemaDefinition)
    (contextName contextPath : string) (zip : Archive) (v : string * VersionEntry)
    : Archive :=
  fold_left (exportSchema cache contextName contextPath v.1) (version_schemas v.2) zip.

Definition exportManifest (registry : ContextRegistry)
    (cache : gmap string SchemaDefinition) (zip : Archive) (c : string * ContextManifest)
    : Archive :=
  let contextPath := contextPathOf registry c.1 in
  let zip1 := <[manifestPath contextPath := ManifestJson c.2]> zip in
  fold_left (exportVersion cache c.1 contextPath) (manifest_versions c.2) zip1.

(** [exportAsZip]: the state after its [loadAllSchemas], and the archive it
    hands to the browser for download ([None] when it returns early). *)
Definition exportAsZip (ds : DocumentStore) (s : SchemaStoreState)
    : SchemaStoreState * option Archive :=
  let s1 := loadAllSchemas ds s in
  match contextRegistry s1 with
  | None => (s1, None)
  | Some registry =>
      let zip0 : Archive := {["context-registry.json" := RegistryJson registry]} in
      (s1, Some (fold_left (exportManifest registry (schemas s1)) (contextManifests s1) zip0))
  end.

(** *** Import *)

Definition importSchema (zip : Archive) (contextName contextPath version : string)
    (newSchemas : gmap string SchemaDefinition) (schemaFile : string)
    : option (gmap string SchemaDefinition) :=
  match zip !! schemaPath contextPath version schemaFile with
  | Some schemaZipFile =>
      match parse_schema schemaZipFile with
      | Some schema => Some (<[cacheKey contextName version schemaFile := schema]> newSchemas)
      | None => None
      end
  | None => Some newSchemas
  end.

Definition importVersion (zip : Archive) (contextName contextPath : string)
    (newSchemas : gmap string SchemaDefinition) (v : string * VersionEntry)
    : option (gmap string SchemaDefinition) :=
  foldM (importSchema zip contextName contextPath v.1) (version_schemas v.2) newSchemas.

Definition importContext (zip : Archive)
    (acc : Dict.t ContextManifest * gmap string SchemaDefinition)
    (c : string * ContextEntry)
    : option (Dict.t ContextManifest * gmap string SchemaDefinition) :=
  let contextPath := or_else (Some (entry_path c.2)) c.1 in
  match zip !! manifestPath contextPath with
  | Some manifestFile =>
      match parse_manifest manifestFile with
      | Some manifest =>
          let newManifests := Dict.set c.1 manifest acc.1 in
          match foldM (importVersion zip c.1 contextPath) (manifest_versions manifest) acc.2 with
          | Some newSchemas => Some (newManifests, newSchemas)
          | None => None
          end
      | None => None
      end
  | None => Some acc
  end.

(** The body of the [try] block of [importFromZip] up to its [set]: what the
    archive holds, or [None] when something threw or the registry is missing. *)
Definition readArchive (file : File)
    : option (ContextRegistry * Dict.t ContextManifest * gmap string SchemaDefinition) :=
  match file with
  | NotAZip => None
  | Zip zip =>
      match zip !! "context-registry.json" with
      | None => None
      | Some registryFile =>
          match parse_registry registryFile with
          | None => None
          | Some registry =>
              match foldM (importContext zip) (registry_contexts registry) ([], ∅) with
              | Some (newManifests, newSchemas) => Some (registry, newManifests, newSchemas)
              | None => None
              end
          end
      end
  end.

Definition importFromZip (file : File) (s : SchemaStoreState) : bool * SchemaStoreState :=
  match readArchive file with
  | Some (registry, newManifests, newSchemas) =>
      (true,
       markUnsaved
         (set_schemas newSchemas
            (set_contextManifests newManifests (set_contextRegistry (Some registry) s))))
  | None => (false, s)
  end.

(** *** The JSON document of [exportAll] and [importData] *)

Record ContextData := mkContextData {
  data_manifest : option ContextManifest;
  data_versions : option (Dict.t (Dict.t SchemaDefinition))
}.

Record ImportDocument := mkImportDocument {
  import_registry : option ContextRegistry;
  import_contexts : option (Dict.t ContextData)
}.

Definition importContextData
    (acc : Dict.t ContextManifest * gmap string SchemaDefinition)
    (c : string * ContextData) : Dict.t ContextManifest * gmap string SchemaDefinition :=
  let newManifests :=
    match data_manifest c.2 with
    | Some manifest => Dict.set c.1 manifest acc.1
    | None => acc.1
    end in
  let newSchemas :=
    match data_versions c.2 with
    | Some versions =>
        fold_left
          (λ cache v,
             fold_left (λ cache f, <[cacheKey c.1 v.1 f.1 := f.2]> cache) v.2 cache)
          versions acc.2
    | None => acc.2
    end in
  (newManifests, newSchemas).

(** [jsonData] is given by what [JSON.parse] makes of it: [None] when it
    throws. *)
Definition importData (jsonData : option ImportDocument) (s : SchemaStoreState)
    : bool * SchemaStoreState :=
  match jsonData with
  | None => (false, s)
  | Some data =>
      match import_registry data, import_contexts data with
      | None, None => (false, s)
      | _, _ =>
          let s1 :=
            match import_registry data with
            | Some registry => set_contextRegistry (Some registry) s
            | None => s
            end in
          let s2 :=
            match import_contexts data with
            | Some contexts =>
                let r := fold_left importContextData contexts
                           (contextManifests s1, schemas s1) in
                set_schemas r.2 (set_contextManifests r.1 s1)
            | None => s1
            end in
          (true, markUnsaved s2)
      end
  end.

(** ** The store as a transition system

    One constructor per action of [SchemaStoreActions] that changes the
    state.  ([getContentTypes] only reads; [exportContext] and [exportAll]
    build JSON text, and [exportAll] changes the state as [loadAllSchemas]
    does.) *)
Inductive Action :=
| LoadContextRegistry
| LoadContextManifest (contextName : string)
| LoadSchema (contextName version schemaFile : string)
| SetActiveContext (contextName : string)
| SetActiveVersion (version : string)
| SetActiveSchema (schemaFile : option string)
| SetActiveField (fieldId : option string)
| CreateContext (now contextName displayName : string) (basedOn : option string)
    (selectedSchemas : option (list string))
| DeleteContext (contextName : string)
| CreateVersion (now contextName version : string) (basedOnVersion : option string)
| DeleteVersion (contextName version : string)
| CreateSchema (schemaFile profileId displayName : string)
| DeleteSchema (schemaFile : string)
| UpdateSchema (schemaFile : string) (updates : PartialSchemaDefinition)
| AddField (schemaFile : string) (field : SchemaField)
| UpdateField (schemaFile fieldId : string) (updates : PartialSchemaField)
| DeleteField (schemaFile fieldId : string)
| MoveField (schemaFile fieldId : string) (newIndex : Z)
| AddGroup (schemaFile : string) (group : SchemaGroup)
| UpdateGroup (schemaFile groupId : string) (updates : PartialSchemaGroup)
| DeleteGroup (schemaFile groupId : string)
| AddContentType (contentType : ContentType)
| RemoveContentType (schemaFile : string)
| AddChangelogEntry (contextName version : string) (entry : ChangelogEntry)
| SaveAll
| LoadAllSchemas
| ExportAsZip
| ImportFromZip (file : File)
| ImportData (jsonData : option ImportDocument)
| ToggleSidebar
| SetError (e : option string)
| MarkUnsaved
| MarkSaved.

Definition step (ds : DocumentStore) (a : Action) (s : SchemaStoreState)
    : SchemaStoreState :=
  match a with
  | LoadContextRegistry => loadContextRegistry ds s
  | LoadContextManifest c => loadContextManifest ds c s
  | LoadSchema c v f => loadSchema ds c v f s
  | SetActiveContext c => setActiveContext c s
  | SetActiveVersion v => setActiveVersion v s
  | SetActiveSchema f => setActiveSchema ds f s
  | SetActiveField f => setActiveField f s
  | CreateContext now c d b sel => createContext now c d b sel s
  | DeleteContext c => deleteContext c s
  | CreateVersion now c v b => createVersion now c v b s
  | DeleteVersion c v => deleteVersion c v s
  | CreateSchema f p d => createSchema f p d s
  | DeleteSchema f => deleteSchema f s
  | UpdateSchema f u => updateSchema f u s
  | AddField f x => addField f x s
  | UpdateField f i u => updateField f i u s
  | DeleteField f i => deleteField f i s
  | MoveField f i n => moveField f i n s
  | AddGroup f g => addGroup f g s
  | UpdateGroup f g u => updateGroup f g u s
  | DeleteGroup f g => deleteGroup f g s
  | AddContentType c => addContentType c s
  | RemoveContentType f => removeContentType f s
  | AddChangelogEntry c v e => addChangelogEntry c v e s
  | SaveAll => saveAll s
  | LoadAllSchemas => loadAllSchemas ds s
  | ExportAsZip => (exportAsZip ds s).1
  | ImportFromZip file => (importFromZip file s).2
  | ImportData d => (importData d s).2
  | ToggleSidebar => toggleSidebar s
  | SetError e => setError e s
  | MarkUnsaved => markUnsaved s
  | MarkSaved => markSaved s
  end.

(** The mutation operations of the repository: contexts, versions, schemas,
    fields, groups, content types and changelogs. *)
Definition is_mutation (a : Action) : bool :=
  match a with
  | CreateContext _ _ _ _ _ | DeleteContext _
  | CreateVersion _ _ _ _ | DeleteVersion _ _
  | CreateSchema _ _ _ | DeleteSchema _ | UpdateSchema _ _
  | AddField _ _ | UpdateField _ _ _ | DeleteField _ _ | MoveField _ _ _
  | AddGroup _ _ | UpdateGroup _ _ _ | DeleteGroup _ _
  | AddContentType _ | RemoveContentType _
  | AddChangelogEntry _ _ _ => true
  | _ => false
  end.

(** The state after a sequence of actions, first action first. *)
Definition run (ds : DocumentStore) (actions : list Action) (s : SchemaStoreState)
    : SchemaStoreState :=
  fold_left (λ st a, step ds a st) actions s.

(** States the store can be in: it starts in [initialState] and changes by
    actions only. *)
Inductive reachable (ds : DocumentStore) : SchemaStoreState → Prop :=
| reachable_initial : reachable ds initialState
| reachable_step a s : reachable ds s → reachable ds (step ds a s).

(** States reached from a loaded repository by mutation operations only. *)
Inductive mutated_from (ds : DocumentStore) (s0 : SchemaStoreState)
    : SchemaStoreState → Prop :=
| mutated_none : mutated_from ds s0 s0
| mutated_step a s :
    is_mutation a = true → mutated_from ds s0 s → mutated_from ds s0 (step ds a s).

(** ** Cursor coherence

    The four cursors denote a path of the repository: the active context is
    registered, the active version is a version of its manifest, an active
    schema file is listed in that version, and an active field id is the id
    of a field of that (cached) schema. *)
Definition coherent (s : SchemaStoreState) : bool :=
  match contextRegistry s with
  | None => false
  | Some registry =>
      Dict.has (activeContext s) (registry_contexts registry)
      && match Dict.get (activeContext s) (contextManifests s) with
         | None => false
         | Some manifest =>
             match Dict.get (activeVersion s) (manifest_versions manifest) with
             | None => false
             | Some versionEntry =>
                 match activeSchemaFile s, activeFieldId s with
                 | None, None => true
                 | None, Some _ => false
                 | Some f, None => includes f (version_schemas versionEntry)
                 | Some f, Some i =>
                     includes f (version_schemas versionEntry)
                     && match schemas s !! activeKey s f with
                        | Some schema =>
                            bool_decide (i ∈ field_id <$> schema_fields schema)
                        | None => false
                        end
                 end
             end
         end
  end.

(** The relation between the concepts of the content-type vocabulary and the
    list of content types, as the specification words it: one entry
    [{label, icon, schema_file}] per concept that has a non-empty
    [schema_file], with a missing icon replaced by ["article"]; other
    concepts give no entry. *)
Definition icon_or_article (icon : option string) : string :=
  match icon with
  | Some (String a rest) => String a rest
  | Some EmptyString | None => "article"
  end.

Inductive projects : list VocabularyConcept → list ContentType → Prop :=
| projects_nil : projects [] []
| projects_entry c cs file r :
    concept_schema_file c = Some file →
    file ≠ "" →
    projects cs r →
    projects (c :: cs)
      ({| ct_label := concept_label c;
          ct_icon := icon_or_article (concept_icon c);
          ct_schema_file := file |} :: r)
| projects_skip c cs r :
    concept_schema_file c = None ∨ concept_schema_file c = Some "" →
    projects cs r →
    projects (c :: cs) r.

(** Two documents that differ in their fields at most. *)
Definition same_but_fields (d d' : SchemaDefinition) : Prop :=
  schema_profileId d' = schema_profileId d
  ∧ schema_version d' = schema_version d
  ∧ schema_context d' = schema_context d
  ∧ schema_groups d' = schema_groups d
  ∧ schema_output_template d' = schema_output_template d.

(** Two fields that differ in their group at most. *)
Definition same_but_group (f f' : SchemaField) : Prop :=
  field_id f' = field_id f
  ∧ field_label f' = field_label f
  ∧ field_description f' = field_description f
  ∧ field_examples f' = field_examples f
  ∧ field_prompt f' = field_prompt f
  ∧ field_promptInstructions f' = field_promptInstructions f
  ∧ field_system f' = field_system f.

(** A name without ['/']: it cannot be mistaken for several segments of a
    cache key or of an archive path. *)
Fixpoint no_slash (s : string) : bool :=
  match s with
  | EmptyString => true
  | String c rest => if decide (c = "/"%char) then false else no_slash rest
  end.

(** The actions that edit, create or delete a document of the active
    context and version. *)
Definition edits_active_document (a : Action) : bool :=
  match a with
  | CreateSchema _ _ _ | DeleteSchema _ | UpdateSchema _ _
  | AddField _ _ | UpdateField _ _ _ | DeleteField _ _ | MoveField _ _ _
  | AddGroup _ _ | UpdateGroup _ _ _ | DeleteGroup _ _
  | AddContentType _ | RemoveContentType _ => true
  | _ => false
  end.

(** ** What an export writes

    The documents a manifest lists: the cache keys [ctx@version/file] for the
    files of the versions of the manifests of the state. *)
Definition listed (manifests : Dict.t ContextManifest) (key : string) : Prop :=
  ∃ contextName manifest version versionEntry schemaFile,
    (contextName, manifest) ∈ manifests
    ∧ (version, versionEntry) ∈ manifest_versions manifest
    ∧ schemaFile ∈ version_schemas versionEntry
    ∧ key = cacheKey contextName version schemaFile.

(** The documents listed by the manifests of the given registry entries. *)
Definition listed_by (manifests : Dict.t ContextManifest) (cs : Dict.t ContextEntry)
    (key : string) : Prop :=
  ∃ c e m v ve f,
    (c, e) ∈ cs ∧ Dict.get c manifests = Some m
    ∧ (v, ve) ∈ manifest_versions m ∧ f ∈ version_schemas ve
    ∧ key = cacheKey c v f.

(** The names of a repository are well formed when its dictionaries have no
    duplicate key, every manifest belongs to a registered context, the
    folders of the registered contexts are distinct and have no ['/'], and
    no version string has a ['/'].  Then the paths of an archive determine
    the context, version and file they stand for. *)
Definition well_named (registry : ContextRegistry) (manifests : Dict.t ContextManifest)
    : bool :=
  bool_decide (NoDup (Dict.keys (registry_contexts registry)))
  && bool_decide (NoDup (Dict.keys manifests))
  && forallb (λ c, Dict.has c (registry_contexts registry)) (Dict.keys manifests)
  && forallb (λ c, no_slash (contextPathOf registry c)) (Dict.keys (registry_contexts registry))
  && bool_decide (NoDup (contextPathOf registry <$> Dict.keys (registry_contexts registry)))
  && forallb (λ cm, bool_decide (NoDup (Dict.keys (manifest_versions cm.2)))
                    && forallb (λ v, no_slash v.1) (manifest_versions cm.2))
       manifests.

(** The same, fact by fact. *)
Record names_ok (registry : ContextRegistry) (manifests : Dict.t ContextManifest) : Prop := {
  contexts_nodup : NoDup (Dict.keys (registry_contexts registry));
  manifests_nodup : NoDup (Dict.keys manifests);
  manifests_registered :
    ∀ c m, (c, m) ∈ manifests → c ∈ Dict.keys (registry_contexts registry);
  paths_no_slash :
    ∀ c, c ∈ Dict.keys (registry_contexts registry) →
         no_slash (contextPathOf registry c) = true;
  paths_distinct :
    ∀ c1 c2, c1 ∈ Dict.keys (registry_contexts registry) →
             c2 ∈ Dict.keys (registry_contexts registry) →
             contextPathOf registry c1 = contextPathOf registry c2 → c1 = c2;
  versions_nodup :
    ∀ c m, (c, m) ∈ manifests → NoDup (Dict.keys (manifest_versions m));
  versions_no_slash :
    ∀ c m v ve, (c, m) ∈ manifests → (v, ve) ∈ manifest_versions m → no_slash v = true
}.

(** The entries [exportAsZip] writes after the registry, in the order it
    writes them. *)
Definition schema_writes (cache : gmap string SchemaDefinition)
    (contextName contextPath version : string) (files : list string)
    : list (string * ArchiveEntry) :=
  omap (λ f, (λ d, (schemaPath contextPath version f, SchemaJson d))
               <$> cache !! cacheKey contextName version f) files.

Definition manifest_writes (registry : ContextRegistry)
    (cache : gmap string SchemaDefinition) (c : string * ContextManifest)
    : list (string * ArchiveEntry) :=
  (manifestPath (contextPathOf registry c.1), ManifestJson c.2)
  :: (manifest_versions c.2 ≫=
        λ v, schema_writes cache c.1 (contextPathOf registry c.1) v.1 (version_schemas v.2)).

Definition export_writes (registry : ContextRegistry)
    (cache : gmap string SchemaDefinition) (manifests : Dict.t ContextManifest)
    : list (string * ArchiveEntry) :=
  manifests ≫= manifest_writes registry cache.

Definition write_all (writes : list (string * ArchiveEntry)) (zip : Archive) : Archive :=
  fold_left (λ z w, <[w.1 := w.2]> z) writes zip.

(** The four cursors of a state. *)
Definition cursors (s : SchemaStoreState)
    : string * string * option string * option string :=
  (activeContext s, activeVersion s, activeSchemaFile s, activeFieldId s).

(** The version entry the context and version cursors point at, if any. *)
Definition activeVersionEntry (s : SchemaStoreState) : option VersionEntry :=
  match Dict.get (activeContext s) (contextManifests s) with
  | Some manifest => Dict.get (activeVersion s) (manifest_versions manifest)
  | None => None
  end.

(** ** Failures of an import

    The ways the [try] block of [importFromZip] ends before its [set]: the
    file is not a ZIP archive, the archive has no [context-registry.json],
    that entry does not parse, the manifest of a registered context is
    present and does not parse, or a schema file listed by such a manifest
    is present and does not parse. *)
Inductive import_fails : File → Prop :=
| fails_not_a_zip :
    import_fails NotAZip
| fails_no_registry zip :
    zip !! "context-registry.json" = None →
    import_fails (Zip zip)
| fails_registry zip registryFile :
    zip !! "context-registry.json" = Some registryFile →
    parse_registry registryFile = None →
    import_fails (Zip zip)
| fails_manifest zip registryFile registry contextName contextEntry manifestFile :
    zip !! "context-registry.json" = Some registryFile →
    parse_registry registryFile = Some registry →
    (contextName, contextEntry) ∈ registry_contexts registry →
    zip !! manifestPath (or_else (Some (entry_path contextEntry)) contextName)
      = Some manifestFile →
    parse_manifest manifestFile = None →
    import_fails (Zip zip)
| fails_schema zip registryFile registry contextName contextEntry manifestFile manifest
    version versionEntry schemaFile schemaZipFile :
    zip !! "context-registry.json" = Some registryFile →
    parse_registry registryFile = Some registry →
    (contextName, contextEntry) ∈ registry_contexts registry →
    zip !! manifestPath (or_else (Some (entry_path contextEntry)) contextName)
      = Some manifestFile →
    parse_manifest manifestFile = Some manifest →
    (version, versionEntry) ∈ manifest_versions manifest →
    schemaFile ∈ version_schemas versionEntry →
    zip !! schemaPath (or_else (Some (entry_path contextEntry)) contextName) version schemaFile
      = Some schemaZipFile →
    parse_schema schemaZipFile = None →
    import_fails (Zip zip).

(** [importFromZip(exportAsZip(S))]: the export of a state, read back into
    the state the export left; [None] when the export writes no archive. *)
Definition roundtrip (ds : DocumentStore) (s : SchemaStoreState)
    : option (bool * SchemaStoreState) :=
  match exportAsZip ds s with
  | (s1, Some zip) => Some (importFromZip (Zip zip) s1)
  | (_, None) => None
  end.

(** ** Sample states

    Concrete documents, states and inputs on which the properties below are
    evaluated. *)

Definition sample_system : SystemConfig :=
  mkSystemConfig "p" "u" dt_string false false true true None None None None None None.

Definition sample_field (id : string) (group : option string) : SchemaField :=
  mkSchemaField id group (Plain id) None None None None sample_system.

Definition sample_group (id : string) : SchemaGroup :=
  mkSchemaGroup id (Plain id) None None.

Definition sample_schema : SchemaDefinition :=
  mkSchemaDefinition "core:descriptive" "1.8.0" None
    [sample_group "general"; sample_group "extra"]
    [sample_field "cclom:title" (Some "general");
     sample_field "cclom:keyword" (Some "extra");
     sample_field "cclom:note" None]
    None.

(** A repository with one context, ["default"], with one version. *)
Definition sample_registry : ContextRegistry :=
  mkContextRegistry
    [("default", mkContextEntry "Default" None "1.8.0" "default" None)] "default".

Definition sample_manifest : ContextManifest :=
  mkContextManifest "default" "Default" None
    [("1.8.0", mkVersionEntry "2024-01-01" (Some true) ["core.json"] None)].

(** The initial state with the manifest of ["default"]. *)
Definition one_version_state : SchemaStoreState :=
  set_contextManifests [("default", sample_manifest)] initialState.

(** A state whose cache holds [sample_schema] as the active [core.json]. *)
Definition sample_state : SchemaStoreState :=
  set_schemas {["default@1.8.0/core.json" := sample_schema]} one_version_state.

(** A [core.json] like that of the specification's content-type example:
    concepts with a schema file, and one without. *)
Definition sample_concept (label : LocalizedString) (icon schema_file : option string)
    : VocabularyConcept :=
  mkVocabularyConcept (Localized label) None None None None icon schema_file None None.

Definition content_type_field (concepts : list VocabularyConcept) : SchemaField :=
  mkSchemaField "ccm:oeh_flex_lrt" None (Plain "Content type") None None None None
    (set_system_vocabulary (Some (mkVocabulary closed None None concepts None)) sample_system).

Definition content_types_state (concepts : list VocabularyConcept) : SchemaStoreState :=
  set_schemas
    {["default@1.8.0/core.json" :=
        set_fields [sample_field "cclom:title" None; content_type_field concepts]
          sample_schema]}
    one_version_state.

Definition content_type_state : SchemaStoreState :=
  content_types_state
    [sample_concept (mkLocalizedString "Ereignis" "Event") (Some "event") (Some "event.json");
     sample_concept (mkLocalizedString "x" "x") None None;
     sample_concept (mkLocalizedString "Kurs" "Course") None (Some "course.json")].

(** An [importData] document that has a [contexts] member and lacks the
    ["context-registry.json"] member. *)
Definition contexts_only_document : ImportDocument :=
  mkImportDocument None
    (Some [("draft",
            mkContextData
              (Some (mkContextManifest "draft" "Draft" None
                       [("1.0.0", mkVersionEntry "2024-01-01" (Some true) ["core.json"] None)]))
              (Some [("1.0.0", [("core.json", sample_schema)])]))]).

(** A document store that serves the sample repository and its
    [core.json]. *)
Definition sample_store : DocumentStore :=
  mkDocumentStore
    (λ path, if decide (path = "/schemata/context-registry.json")
             then Fetched sample_registry else NotOk)
    (λ path, if decide (path = "/schemata/default/manifest.json")
             then Fetched sample_manifest else NotOk)
    (λ path, if decide (path = "/schemata/default/v1.8.0/core.json")
             then Fetched sample_schema else NotOk).

(** The state after the application has loaded the registry and opened
    [core.json]. *)
Definition loaded_state : SchemaStoreState :=
  run sample_store [LoadContextRegistry; SetActiveSchema (Some "core.json")] initialState.

(** An archive whose registry names a context whose manifest is not JSON. *)
Definition broken_archive : Archive :=
  <["default/manifest.json" := Malformed]>
    {["context-registry.json" := RegistryJson sample_registry]}.

(** The loaded repository after a version was created from ["1.8.0"] and
    deleted again. *)
Definition version_deleted_state : SchemaStoreState :=
  run sample_store
    [CreateVersion "2024-05-01T10:00:00.000Z" "default" "2.0.0" (Some "1.8.0");
     DeleteVersion "default" "2.0.0"]
    loaded_state.

(** ** Selector hooks

    [useActiveSchema], [useActiveField] and [useAvailableSchemas] read the
    state; as functions of the state they are what the components render. *)

Definition useActiveSchema (s : SchemaStoreState) : option SchemaDefinition :=
  match activeSchemaFile s with
  | Some activeSchemaFile =>
      if truthy activeSchemaFile then schemas s !! activeKey s activeSchemaFile else None
  | None => None
  end.

Definition useActiveField (s : SchemaStoreState) : option SchemaField :=
  match useActiveSchema s, activeFieldId s with
  | Some schema, Some activeFieldId =>
      if truthy activeFieldId
      then snd <$> list_find (λ f, field_id f = activeFieldId) (schema_fields schema)
      else None
  | _, _ => None
  end.

Definition useAvailableSchemas (s : SchemaStoreState) : list string :=
  match Dict.get (activeContext s) (contextManifests s) with
  | None => []
  | Some manifest =>
      match Dict.get (activeVersion s) (manifest_versions manifest) with
      | Some versionEntry => version_schemas versionEntry
      | None => []
      end
  end.

(** The loaded repository with a second context, ["draft"]. *)
Definition two_context_state : SchemaStoreState :=
  createContext "2024-05-01T10:00:00.000Z" "draft" "Draft" (Some "default") None loaded_state.

(** ** The schema editor ([SchemaEditor] in [components/FieldEditor.tsx])

    The editor sorts the fields of the active schema into one bucket per
    group id ([fieldsByGroup]) and a bucket of fields without group
    ([ungroupedFields]); it renders one section per group of the schema with
    the bucket of its id, and then the ungrouped fields. *)
Definition groupField (acc : Dict.t (list SchemaField) * list SchemaField)
    (field : SchemaField) : Dict.t (list SchemaField) * list SchemaField :=
  if truthy_opt (field_group field) then
    let group := to_key (field_group field) in
    let groupFields := default [] (Dict.get group acc.1) in
    (Dict.set group (groupFields ++ [field]) acc.1, acc.2)
  else (acc.1, acc.2 ++ [field]).

Definition groupFields (fields : list SchemaField)
    : Dict.t (list SchemaField) * list SchemaField :=
  fold_left groupField fields ([], []).

(** The field rows the editor renders, section by section. *)
Definition renderedFields (schema : SchemaDefinition) : list SchemaField :=
  let buckets := groupFields (schema_fields schema) in
  (schema_groups schema ≫= λ group, default [] (Dict.get (group_id group) buckets.1))
  ++ buckets.2.

(** ** The schema dialog ([CreateSchemaDialog.handleCreate])

    [s.endsWith(suffix)]: some tail of [s] is [suffix]. *)
Fixpoint endsWith (s suffix : string) : bool :=
  if decide (s = suffix) then true
  else match s with
       | EmptyString => false
       | String _ rest => endsWith rest suffix
       end.

(** The file name the dialog creates: the name typed in, with [.json]
    appended unless it ends with it. *)
Definition schemaFileName (schemaFile : string) : string :=
  if endsWith schemaFile ".json" then schemaFile else schemaFile +:+ ".json".

(** The handler of the dialog's create button, on the values of its inputs;
    the alert and the closing of the dialog leave the store alone. *)
Definition CreateSchemaDialog_handleCreate
    (schemaFile profileId displayNameDe displayNameEn icon : string)
    (addAsContentType : bool) (s : SchemaStoreState) : SchemaStoreState :=
  if negb (truthy schemaFile) || negb (truthy displayNameDe) then s
  else
    let fileName := schemaFileName schemaFile in
    let s1 := createSchema fileName profileId displayNameDe s in
    if addAsContentType then
      addContentType
        {| ct_label :=
             Localized (mkLocalizedString displayNameDe
                          (or_else (Some displayNameEn) displayNameDe));
           ct_icon := icon;
           ct_schema_file := fileName |}
        s1
    else s1.

(** ** Reading the document store *)

(** The path [loadSchema] and [loadAllSchemas] request for a document. *)
Definition schemaUrl (contextPath version schemaFile : string) : string :=
  "/schemata/" +:+ contextPath +:+ "/v" +:+ version +:+ "/" +:+ schemaFile.

(** The document a request yields, if it yields one. *)
Definition fetched {A : Type} (r : FetchResult A) : option A :=
  match r with
  | Fetched doc => Some doc
  | NotOk | Threw _ => None
  end.

(** A listed document is settled in a state when it is cached or the
    document store does not serve it: [loadAllSchemas] has nothing to do
    for it. *)
Definition settled (ds : DocumentStore) (registry : ContextRegistry)
    (contextName version schemaFile : string) (s : SchemaStoreState) : Prop :=
  is_Some (schemas s !! cacheKey contextName version schemaFile)
  ∨ fetched (fetch_schema ds (schemaUrl (contextPathOf registry contextName) version schemaFile))
    = None.

(** [s'] comes from [s] by caching fetched documents with keys in
    [listed_here], and nothing else. *)
Definition loaded_from (ds : DocumentStore) (listed_here : string → Prop)
    (s s' : SchemaStoreState) : Prop :=
  schemas s ⊆ schemas s'
  ∧ s' = set_schemas (schemas s') s
  ∧ ∀ key d, schemas s' !! key = Some d →
      schemas s !! key = Some d
      ∨ listed_here key ∧ ∃ path, fetch_schema ds path = Fetched d.

(** The manifest the document store serves for a context of a registry. *)
Definition servedManifest (ds : DocumentStore) (registry : ContextRegistry)
    (contextName : string) : option ContextManifest :=
  Dict.get contextName (registry_contexts registry)
  ≫= λ contextEntry,
       fetched (fetch_manifest ds ("/schemata/" +:+ entry_path contextEntry +:+ "/manifest.json")).

(** ** The version dialog ([VersionDialog.tsx])

    The dialog reads [activeContext], [activeVersion] and the manifests from
    the store.  [trim] stands for [String.prototype.trim], [now] for the
    clock read by [createVersion], [sort] for the sort of the versions by
    [localeCompare], and [confirmed] for the answer to the [confirm]
    prompt. *)

Definition VersionDialog_handleCreate (trim : string → string)
    (now newVersion basedOnVersion : string) (s : SchemaStoreState) : SchemaStoreState :=
  if negb (truthy (trim newVersion)) then s
  else
    setActiveVersion (trim newVersion)
      (createVersion now (activeContext s) (trim newVersion) (Some basedOnVersion) s).

Definition VersionDialog_versions
    (sort : list (string * VersionEntry) → list (string * VersionEntry))
    (s : SchemaStoreState) : list (string * VersionEntry) :=
  match Dict.get (activeContext s) (contextManifests s) with
  | Some manifest => sort (manifest_versions manifest)
  | None => []
  end.

Definition VersionDialog_handleDelete
    (sort : list (string * VersionEntry) → list (string * VersionEntry))
    (confirmed : bool) (version : string) (s : SchemaStoreState) : SchemaStoreState :=
  let versions := VersionDialog_versions sort s in
  if bool_decide (length versions ≤ 1)%nat then s
  else if confirmed then
    let s1 := deleteVersion (activeContext s) version s in
    if decide (activeVersion s = version) then
      match list_find (λ v, v.1 ≠ version) versions with
      | Some (_, otherVersion) => setActiveVersion otherVersion.1 s1
      | None => s1
      end
    else s1
  else s.

(** The loaded repository with a second version, ["1.9.0"], which is the
    active one. *)
Definition two_version_state : SchemaStoreState :=
  VersionDialog_handleCreate (λ v, v) "2024-05-01T10:00:00.000Z" "1.9.0" "1.8.0" loaded_state.

(** The cache slots for which an import document has a schema document. *)
Definition imports (contexts : Dict.t ContextData) (key : string) : Prop :=
  ∃ contextName contextData versions version files schemaFile schema,
    (contextName, contextData) ∈ contexts
    ∧ data_versions contextData = Some versions
    ∧ (version, files) ∈ versions
    ∧ (schemaFile, schema) ∈ files
    ∧ key = cacheKey contextName version schemaFile.

(** ** Localized text in the editors ([FieldEditor.tsx], [VocabularyEditor.tsx]) *)

Inductive Lang := de | en.

(** [value[lang]] *)
Definition ls_get (l : LocalizedString) (lang : Lang) : string :=
  match lang with
  | de => ls_de l
  | en => ls_en l
  end.

(** [{ ...base, [lang]: newValue }] *)
Definition ls_set (base : LocalizedString) (lang : Lang) (newValue : string)
    : LocalizedString :=
  match lang with
  | de => mkLocalizedString newValue (ls_en base)
  | en => mkLocalizedString (ls_de base) newValue
  end.

Definition getLocalizedValue (value : option Text) (lang : Lang) : string :=
  match value with
  | None => ""
  | Some (Plain s) => s
  | Some (Localized l) => if truthy (ls_get l lang) then ls_get l lang else ""
  end.

Definition setLocalizedValue (current : option Text) (lang : Lang) (newValue : string)
    : LocalizedString :=
  let base :=
    match current with
    | Some (Plain s) => mkLocalizedString s s
    | Some (Localized l) => mkLocalizedString (ls_de l) (ls_en l)
    | None => mkLocalizedString "" ""
    end in
  ls_set base lang newValue.

(** ** The JSON export ([exportAll])

    [exportAll] enumerates the cache with [schemas.forEach].  The cache is
    kept as a [gmap], which records no insertion order, so the order of that
    enumeration is a parameter, [enumerate].  Strings are read as UTF-8. *)

(** The text before the first [sep] of a string, and the text after it. *)
Fixpoint split_first (sep : ascii) (s : string) : option (string * string) :=
  match s with
  | EmptyString => None
  | String a rest =>
      if decide (a = sep) then Some (EmptyString, rest)
      else
        match split_first sep rest with
        | Some (before, after) => Some (String a before, after)
        | None => None
        end
  end.

(** The line terminators of a regular expression: LF, CR, U+2028, U+2029. *)
Definition starts_with_line_terminator (s : string) : bool :=
  String.prefix (String (ascii_of_nat 10) EmptyString) s
  || String.prefix (String (ascii_of_nat 13) EmptyString) s
  || String.prefix
       (String (ascii_of_nat 226) (String (ascii_of_nat 128)
          (String (ascii_of_nat 168) EmptyString))) s
  || String.prefix
       (String (ascii_of_nat 226) (String (ascii_of_nat 128)
          (String (ascii_of_nat 169) EmptyString))) s.

(** [/^.*$/]: no line terminator anywhere. *)
Fixpoint one_line (s : string) : bool :=
  match s with
  | EmptyString => true
  | String _ rest => negb (starts_with_line_terminator s) && one_line rest
  end.

(** [key.match(/^([^@]+)@([^/]+)\/(.+)$/)]: the three groups of the match.
    The first group is the text before the first ['@'], the second the text
    between that ['@'] and the first ['/'] after it; neither may be empty,
    and what follows must be a non-empty single line. *)
Definition matchCacheKey (key : string) : option (string * string * string) :=
  match split_first "@" key with
  | Some (contextName, rest) =>
      match split_first "/" rest with
      | Some (version, schemaFile) =>
          if truthy contextName && truthy version && truthy schemaFile && one_line schemaFile
          then Some (contextName, version, schemaFile)
          else None
      | None => None
      end
  | None => None
  end.

(** The body of [schemas.forEach((schema, key) => ...)] in [exportAll]. *)
Definition groupByVersion (contextName : string)
    (versions : Dict.t (Dict.t SchemaDefinition)) (entry : string * SchemaDefinition)
    : Dict.t (Dict.t SchemaDefinition) :=
  match matchCacheKey entry.1 with
  | Some (name, version, schemaFile) =>
      if decide (name = contextName) then
        let files := default [] (Dict.get version versions) in
        Dict.set version (Dict.set schemaFile entry.2 files) versions
      else versions
  | None => versions
  end.

(** The body of [manifests.forEach((manifest, contextName) => ...)]. *)
Definition exportContextData (cache : list (string * SchemaDefinition))
    (contexts : Dict.t ContextData) (c : string * ContextManifest) : Dict.t ContextData :=
  let contextData :=
    {| data_manifest := Some c.2;
       data_versions := Some (fold_left (groupByVersion c.1) cache []) |} in
  Dict.set c.1 contextData contexts.

(** [exportAll]: the state after its [loadAllSchemas], and the document its
    JSON text stands for. *)
Definition exportAll (ds : DocumentStore)
    (enumerate : gmap string SchemaDefinition → list (string * SchemaDefinition))
    (s : SchemaStoreState) : SchemaStoreState * ImportDocument :=
  let s1 := loadAllSchemas ds s in
  (s1,
   {| import_registry := contextRegistry s1;
      import_contexts :=
        Some (fold_left (exportContextData (enumerate (schemas s1)))
                (contextManifests s1) []) |}).

(** A string without ['@']. *)
Fixpoint no_at (s : string) : bool :=
  match s with
  | EmptyString => true
  | String c rest => if decide (c = "@"%char) then false else no_at rest
  end.

(** * Properties *)

(** ** Ordered dictionaries *)

Section DictFacts.
Context {V : Type}.
Implicit Types (d : Dict.t V) (k : string) (v : V).

Lemma dict_get_set_eq k v d : Dict.get k (Dict.set k v d) = Some v.
Proof.
  induction d as [|[k' v'] d IH]; simpl.
  - by rewrite decide_True.
  - destruct (decide (k' = k)) as [->|Hne]; simpl.
    + by rewrite decide_True.
    + by rewrite decide_False.
Qed.

Lemma dict_get_set_ne k k' v d : k ≠ k' → Dict.get k' (Dict.set k v d) = Dict.get k' d.
Proof.
  intros Hne. induction d as [|[k0 v0] d IH]; simpl.
  - by rewrite decide_False.
  - destruct (decide (k0 = k)) as [->|Hne0]; simpl.
    + by rewrite !decide_False.
    + destruct (decide (k0 = k')); [done | apply IH].
Qed.

Lemma dict_get_remove_eq k d : Dict.get k (Dict.remove k d) = None.
Proof.
  unfold Dict.remove. induction d as [|[k' v'] d IH]; [done|].
  rewrite filter_cons. simpl. destruct (decide (k' ≠ k)) as [Hne|Heq]; simpl.
  - by rewrite decide_False.
  - apply IH.
Qed.

Lemma dict_get_remove_ne k k' d : k ≠ k' → Dict.get k' (Dict.remove k d) = Dict.get k' d.
Proof.
  intros Hne. unfold Dict.remove. induction d as [|[k0 v0] d IH]; [done|].
  rewrite filter_cons. simpl. destruct (decide (k0 ≠ k)) as [Hne0|Heq]; simpl.
  - by rewrite IH.
  - apply dec_stable in Heq. subst k0. by rewrite decide_False.
Qed.

Lemma dict_get_Some_elem k v d : Dict.get k d = Some v → (k, v) ∈ d.
Proof.
  induction d as [|[k' v'] d IH]; simpl; [done|].
  destruct (decide (k' = k)) as [->|Hne].
  - intros [= ->]. apply list_elem_of_here.
  - intros H. apply list_elem_of_further, IH, H.
Qed.

Lemma dict_get_None k d : Dict.get k d = None ↔ k ∉ Dict.keys d.
Proof.
  unfold Dict.keys. induction d as [|[k' v'] d IH]; simpl.
  - split; [intros _; apply not_elem_of_nil | done].
  - rewrite not_elem_of_cons. destruct (decide (k' = k)) as [->|Hne].
    + split; [done | intros [? _]; done].
    + rewrite IH. split; [intros ?; split; [congruence | done] | intros [_ ?]; done].
Qed.

Lemma dict_get_elem k v d : NoDup (Dict.keys d) → (k, v) ∈ d → Dict.get k d = Some v.
Proof.
  unfold Dict.keys. induction d as [|[k' v'] d IH]; simpl.
  - intros _ H. by apply elem_of_nil in H.
  - intros Hnd H. apply NoDup_cons in Hnd as [Hk' Hnd].
    apply elem_of_cons in H as [[= -> ->]|H].
    + by rewrite decide_True.
    + rewrite decide_False; [by apply IH|].
      intros ->. apply Hk'. apply list_elem_of_fmap. by exists (k, v).
Qed.

Lemma dict_keys_set k v d :
  Dict.keys (Dict.set k v d)
  = if Dict.has k d then Dict.keys d else Dict.keys d ++ [k].
Proof.
  unfold Dict.keys, Dict.has. induction d as [|[k' v'] d IH]; csimpl; [done|].
  destruct (decide (k' = k)) as [->|Hne]; csimpl; [done|].
  rewrite IH. by destruct (Dict.get k d).
Qed.

Lemma dict_NoDup_set k v d : NoDup (Dict.keys d) → NoDup (Dict.keys (Dict.set k v d)).
Proof.
  intros Hnd. rewrite dict_keys_set. unfold Dict.has.
  destruct (Dict.get k d) eqn:Hget; [done|].
  apply NoDup_app. split_and!; [done | | apply NoDup_singleton].
  intros x Hx Hx'. apply list_elem_of_singleton in Hx' as ->.
  by apply dict_get_None in Hget.
Qed.

End DictFacts.

(** ** Default-context protection *)

(** C4. For every prior state, [deleteContext("default")] only sets the
    error message: the registry (so its ["default"] entry) and the manifest
    map are unchanged, and the call returns a state (it does not throw).
    Moreover no call of [deleteContext], whatever its argument, changes the
    ["default"] entry of the registry. *)
Theorem deleteContext_default_protected (s : SchemaStoreState) :
  deleteContext "default" s = set_error (Some "Cannot delete default context") s
  ∧ contextRegistry (deleteContext "default" s) = contextRegistry s
  ∧ contextManifests (deleteContext "default" s) = contextManifests s
  ∧ error (deleteContext "default" s) = Some "Cannot delete default context"
  ∧ ∀ contextName,
      (λ r, Dict.get "default" (registry_contexts r)) <$> contextRegistry (deleteContext contextName s)
      = (λ r, Dict.get "default" (registry_contexts r)) <$> contextRegistry s.
Proof.
  split_and!; try reflexivity.
  intros contextName. unfold deleteContext.
  destruct (decide (contextName = "default")) as [->|Hne]; [done|].
  destruct (contextRegistry s) as [registry|] eqn:Hreg; simpl; [|by rewrite Hreg].
  by rewrite dict_get_remove_ne.
Qed.

(** ** Last-version protection *)

Lemma dict_remove_only {V : Type} (k : string) (d : Dict.t V) :
  Dict.keys d = [k] → Dict.remove k d = [].
Proof.
  destruct d as [|[k' v'] [|? ?]]; try done.
  intros [= ->]. unfold Dict.remove. rewrite filter_cons. simpl.
  by rewrite decide_False; [|intros H; apply H].
Qed.

Lemma dict_remove_other {V : Type} (k k' : string) (d : Dict.t V) :
  Dict.keys d = [k] → k' ≠ k → Dict.remove k' d = d.
Proof.
  destruct d as [|[k0 v0] [|? ?]]; try done.
  intros [= ->] Hne. unfold Dict.remove. rewrite filter_cons. simpl.
  by rewrite decide_True.
Qed.

(** C5. When the manifest of a context has exactly one version [V],
    [deleteVersion(ctx, V)] only sets the error message: the manifest map,
    and with it the versions of that manifest, is unchanged.  The call
    returns a state (it does not throw), and no call of [deleteVersion] on
    that context leaves its manifest without a version. *)
Theorem deleteVersion_last_version_protected
    (s : SchemaStoreState) (ctx V : string) (manifest : ContextManifest)
    (Hmanifest : Dict.get ctx (contextManifests s) = Some manifest)
    (Hone : Dict.keys (manifest_versions manifest) = [V]) :
  deleteVersion ctx V s = set_error (Some "Kann letzte Version nicht löschen") s
  ∧ contextManifests (deleteVersion ctx V s) = contextManifests s
  ∧ error (deleteVersion ctx V s) = Some "Kann letzte Version nicht löschen"
  ∧ ∀ version, ∃ manifest',
      Dict.get ctx (contextManifests (deleteVersion ctx version s)) = Some manifest'
      ∧ manifest_versions manifest' = manifest_versions manifest.
Proof.
  assert (Hlast : deleteVersion ctx V s
                  = set_error (Some "Kann letzte Version nicht löschen") s).
  { unfold deleteVersion. rewrite Hmanifest.
    by rewrite (dict_remove_only _ _ Hone). }
  split_and!; [done | by rewrite Hlast | by rewrite Hlast |].
  intros version. destruct (decide (version = V)) as [->|Hne].
  - exists manifest. by rewrite Hlast.
  - unfold deleteVersion. rewrite Hmanifest.
    rewrite (dict_remove_other _ _ _ Hone Hne).
    rewrite Hone. simpl. eexists. split; [apply dict_get_set_eq | done].
Qed.

Lemma deleteVersion_last_version_protected_witness :
  contextManifests (deleteVersion "default" "1.8.0" one_version_state)
  = contextManifests one_version_state.
Proof.
  eapply (deleteVersion_last_version_protected one_version_state "default" "1.8.0");
    reflexivity.
Defined.

(** ** Moving a field *)

Lemma splice_remove_Permutation {A : Type} (i : nat) (x : A) (l : list A) :
  l !! i = Some x → l ≡ₚ x :: splice_remove i l.
Proof.
  intros Hi. unfold splice_remove.
  rewrite <- (take_drop_middle l i x Hi) at 1.
  symmetry. apply Permutation_middle.
Qed.

Lemma splice_insert_Permutation {A : Type} (start : Z) (x : A) (l : list A) :
  splice_insert start x l ≡ₚ x :: l.
Proof.
  unfold splice_insert. generalize (splice_start (length l) start). intros i.
  rewrite <- (take_drop i l) at 3.
  symmetry. apply Permutation_middle.
Qed.

Lemma splice_start_bound (len : nat) (start : Z) : (splice_start len start ≤ len)%nat.
Proof. unfold splice_start. case_decide; lia. Qed.

(** C10. For a cached schema document, every field id and every integer
    [newIndex] (negative, or at or past the end, included), the fields of
    the document after [moveField] are a permutation of its fields before,
    its groups and other properties are unchanged, and so are the other
    cached documents.  When the schema is not cached, or no field has the
    id, [moveField] changes nothing. *)
Theorem moveField_permutation
    (s : SchemaStoreState) (schemaFile fieldId : string) (newIndex : Z) :
  (schemas s !! activeKey s schemaFile = None → moveField schemaFile fieldId newIndex s = s)
  ∧ ∀ d, schemas s !! activeKey s schemaFile = Some d →
      (fieldId ∉ field_id <$> schema_fields d → moveField schemaFile fieldId newIndex s = s)
      ∧ (∃ d', schemas (moveField schemaFile fieldId newIndex s) !! activeKey s schemaFile = Some d'
               ∧ schema_fields d' ≡ₚ schema_fields d
               ∧ same_but_fields d d')
      ∧ ∀ key, key ≠ activeKey s schemaFile →
          schemas (moveField schemaFile fieldId newIndex s) !! key = schemas s !! key.
Proof.
  unfold moveField. split.
  { by intros ->. }
  intros d Hd. rewrite Hd.
  destruct (list_find (λ f, field_id f = fieldId) (schema_fields d))
    as [[currentIndex field]|] eqn:Hfind.
  - apply list_find_Some in Hfind as (Hlookup & Hid & _). split_and!.
    + intros Hnot. exfalso. apply Hnot. apply list_elem_of_fmap.
      exists field. split; [done|]. by eapply list_elem_of_lookup_2.
    + eexists. simpl. rewrite lookup_insert_eq. split_and!; [done | | done].
      simpl. rewrite splice_insert_Permutation.
      symmetry. by apply splice_remove_Permutation.
    + intros key Hkey. simpl. by rewrite lookup_insert_ne.
  - split_and!; [done | | done].
    exists d. by split_and!.
Qed.

Lemma moveField_permutation_witness :
  ∃ d', schemas (moveField "core.json" "cclom:title" (-1) sample_state)
          !! "default@1.8.0/core.json" = Some d'
        ∧ schema_fields d' ≡ₚ schema_fields sample_schema
        ∧ same_but_fields sample_schema d'.
Proof.
  destruct (moveField_permutation sample_state "core.json" "cclom:title" (-1))
    as [_ H].
  destruct (H sample_schema) as (_ & H' & _); [reflexivity|].
  exact H'.
Defined.

(** On the sample document: the first field moved to [-1] lands before the
    last one, moved far past the end it lands last. *)
Example moveField_negative_index :
  field_id <$> splice_insert (-1) (sample_field "a" None)
                 [sample_field "b" None; sample_field "c" None]
  = ["b"; "a"; "c"].
Proof. reflexivity. Qed.

Example moveField_past_the_end :
  field_id <$> splice_insert 7 (sample_field "a" None)
                 [sample_field "b" None; sample_field "c" None]
  = ["b"; "c"; "a"].
Proof. reflexivity. Qed.

(** ** Deleting a group *)

Lemma set_field_group_same_but_group (g : option string) (f : SchemaField) :
  same_but_group f (set_field_group g f).
Proof. by repeat split. Qed.

Lemma same_but_group_refl (f : SchemaField) : same_but_group f f.
Proof. by repeat split. Qed.

(** C6. For a cached schema document [d] and a group id [G], after
    [deleteGroup] the groups of the document are those of [d] whose id is
    not [G], no field of the document has group [G], and the fields are
    those of [d], position by position, each with all its attributes
    unchanged except that a group reference to [G] is cleared. *)
Theorem deleteGroup_cleans_references
    (s : SchemaStoreState) (schemaFile G : string) (d : SchemaDefinition)
    (Hcached : schemas s !! activeKey s schemaFile = Some d) :
  ∃ d', schemas (deleteGroup schemaFile G s) !! activeKey s schemaFile = Some d'
    ∧ schema_groups d' = filter (λ g, group_id g ≠ G) (schema_groups d)
    ∧ (∀ g, g ∈ schema_groups d' → group_id g ≠ G)
    ∧ (∀ f, f ∈ schema_fields d' → field_group f ≠ Some G)
    ∧ length (schema_fields d') = length (schema_fields d)
    ∧ ∀ i f, schema_fields d !! i = Some f →
        ∃ f', schema_fields d' !! i = Some f'
          ∧ same_but_group f f'
          ∧ (field_group f = Some G → field_group f' = None)
          ∧ (field_group f ≠ Some G → f' = f).
Proof.
  unfold deleteGroup. rewrite Hcached. eexists. simpl.
  rewrite lookup_insert_eq. split; [done|]. simpl. split_and!.
  - done.
  - intros g Hg. by apply list_elem_of_filter in Hg as [? _].
  - intros f Hf. apply list_elem_of_fmap in Hf as (f0 & -> & _).
    destruct (decide (field_group f0 = Some G)); [done | done].
  - by rewrite length_map.
  - intros i f Hi. rewrite list_lookup_fmap, Hi. simpl. eexists. split; [done|].
    destruct (decide (field_group f = Some G)) as [Heq|Hne].
    + split_and!; [apply set_field_group_same_but_group | done | done].
    + split_and!; [apply same_but_group_refl | done | done].
Qed.

Lemma deleteGroup_cleans_references_witness :
  ∃ d', schemas (deleteGroup "core.json" "general" sample_state)
          !! "default@1.8.0/core.json" = Some d'
        ∧ group_id <$> schema_groups d' = ["extra"]
        ∧ field_group <$> schema_fields d' = [None; Some "extra"; None].
Proof.
  destruct (deleteGroup_cleans_references sample_state "core.json" "general" sample_schema)
    as (d' & Hd' & _); [reflexivity|].
  exists d'. split; [exact Hd'|].
  vm_compute in Hd'. injection Hd' as <-. split; reflexivity.
Defined.

(** ** Content types *)

Lemma or_else_icon (icon : option string) : or_else icon "article" = icon_or_article icon.
Proof. by destruct icon as [[|? ?]|]. Qed.

Lemma projects_filter_map (concepts : list VocabularyConcept) :
  projects concepts
    (map (λ c, {| ct_label := concept_label c;
                  ct_icon := or_else (concept_icon c) "article";
                  ct_schema_file := to_key (concept_schema_file c) |})
       (filter (λ c, truthy_opt (concept_schema_file c) = true) concepts)).
Proof.
  induction concepts as [|c cs IH]; [constructor|].
  rewrite filter_cons.
  destruct (concept_schema_file c) as [[|a file]|] eqn:Hfile; simpl.
  - apply projects_skip; [by right | done].
  - rewrite Hfile, or_else_icon. simpl. by apply projects_entry.
  - apply projects_skip; [by left | done].
Qed.

(** The result of a projection is determined by the concepts. *)
Lemma projects_functional (concepts : list VocabularyConcept) (r1 r2 : list ContentType) :
  projects concepts r1 → projects concepts r2 → r1 = r2.
Proof.
  intros H1. revert r2. induction H1 as [|c cs file r Hfile Hne _ IH|c cs r Hnone _ IH];
    intros r2 H2;
    inversion H2 as [|? ? file2 ? Hfile2 Hne2 Hr2|? ? ? Hnone2 Hr2]; subst; try done.
  - f_equal; [|by apply IH]. congruence.
  - destruct Hnone2; congruence.
  - destruct Hnone; congruence.
  - by apply IH.
Qed.

(** C8. [getContentTypes] returns [[]] when the active [core.json] is not
    cached, when none of its fields has the id ["ccm:oeh_flex_lrt"], or when
    the (first) field with that id has no vocabulary; otherwise it returns
    the projection of the concepts of that vocabulary: one entry
    [{label, icon, schema_file}] per concept with a non-empty [schema_file],
    in order, a missing icon being ["article"].  It is a total function: it
    never errors. *)
Theorem getContentTypes_projection (s : SchemaStoreState) :
  (schemas s !! activeKey s "core.json" = None → getContentTypes s = [])
  ∧ ∀ core, schemas s !! activeKey s "core.json" = Some core →
      ("ccm:oeh_flex_lrt" ∉ field_id <$> schema_fields core → getContentTypes s = [])
      ∧ ∀ i field,
          schema_fields core !! i = Some field →
          field_id field = "ccm:oeh_flex_lrt" →
          (∀ j f, (j < i)%nat → schema_fields core !! j = Some f → field_id f ≠ "ccm:oeh_flex_lrt") →
          (system_vocabulary (field_system field) = None → getContentTypes s = [])
          ∧ ∀ vocabulary, system_vocabulary (field_system field) = Some vocabulary →
              projects (vocabulary_concepts vocabulary) (getContentTypes s)
              ∧ ∀ r, projects (vocabulary_concepts vocabulary) r → getContentTypes s = r.
Proof.
  unfold getContentTypes. split; [by intros ->|]. intros core ->. split.
  - intros Hnone.
    destruct (list_find _ _) as [[i field]|] eqn:Hfind; [|done].
    apply list_find_Some in Hfind as (Hi & Hid & _).
    exfalso. apply Hnone. apply list_elem_of_fmap. exists field.
    split; [done | by eapply list_elem_of_lookup_2].
  - intros i field Hi Hid Hfirst.
    assert (Hfind : list_find (λ f, field_id f = contentTypeFieldId) (schema_fields core)
                    = Some (i, field)).
    { apply list_find_Some. split_and!; [done | done |].
      intros j f Hj Hlt. by eapply Hfirst. }
    rewrite Hfind. split; [by intros ->|].
    intros vocabulary ->. split; [apply projects_filter_map|].
    intros r Hr. eapply projects_functional; [apply projects_filter_map | done].
Qed.

Lemma getContentTypes_projection_witness :
  getContentTypes content_type_state
  = [ mkContentType (Localized (mkLocalizedString "Ereignis" "Event")) "event" "event.json";
      mkContentType (Localized (mkLocalizedString "Kurs" "Course")) "article" "course.json" ].
Proof.
  destruct (getContentTypes_projection content_type_state) as [_ H].
  destruct (H _ eq_refl) as [_ H1].
  destruct (H1 1%nat _ eq_refl eq_refl) as [_ H2].
  { intros [|j] f Hj Hf; [|lia]. injection Hf as <-. discriminate. }
  destruct (H2 _ eq_refl) as [_ H3].
  apply H3. repeat first
    [ apply projects_nil
    | eapply projects_entry; [reflexivity | discriminate |]
    | eapply projects_skip; [left; reflexivity |] ].
Defined.

(** The content-type example of the specification: of a concept with schema
    file ["event.json"] and icon ["event"] and a concept without schema
    file, only the first gives an entry. *)
Example getContentTypes_event :
  getContentTypes
    (content_types_state
       [sample_concept (mkLocalizedString "Ereignis" "Event") (Some "event")
          (Some "event.json");
        sample_concept (mkLocalizedString "x" "x") None None])
  = [mkContentType (Localized (mkLocalizedString "Ereignis" "Event")) "event" "event.json"].
Proof. reflexivity. Qed.

(** ** Importing a JSON document *)




(** ** Importing an archive *)

Lemma foldM_fails {A S : Type} (body : S → A → option S) (l : list A) (x : A) (acc : S) :
  x ∈ l → (∀ acc', body acc' x = None) → foldM body l acc = None.
Proof.
  intros Hx Hbody. revert acc. induction l as [|y l IH]; intros acc.
  - by apply elem_of_nil in Hx.
  - simpl. apply elem_of_cons in Hx as [<-|Hx].
    + by rewrite Hbody.
    + destruct (body acc y); [by apply IH | done].
Qed.

Lemma foldM_None {A S : Type} (body : S → A → option S) (l : list A) (acc : S) :
  foldM body l acc = None → ∃ x acc', x ∈ l ∧ body acc' x = None.
Proof.
  revert acc. induction l as [|y l IH]; intros acc; simpl; [done|].
  destruct (body acc y) as [acc1|] eqn:Hbody.
  - intros H. destruct (IH _ H) as (x & acc' & Hx & Hnone).
    exists x, acc'. split; [by apply list_elem_of_further | done].
  - intros _. exists y, acc. split; [apply list_elem_of_here | done].
Qed.

Lemma import_fails_readArchive (file : File) :
  import_fails file ↔ readArchive file = None.
Proof.
  split.
  - intros H. destruct H as
      [ | zip Hreg | zip rf Hreg Hparse
        | zip rf registry c e mf Hreg Hparse Hc Hmf Hpm
        | zip rf registry c e mf manifest v ve f sf Hreg Hparse Hc Hmf Hpm Hv Hf Hsf Hps ];
      simpl; try done.
    + by rewrite Hreg.
    + by rewrite Hreg, Hparse.
    + rewrite Hreg, Hparse.
      rewrite (foldM_fails _ _ (c, e)); [done | done |].
      intros acc. unfold importContext. cbn [fst snd]. by rewrite Hmf, Hpm.
    + rewrite Hreg, Hparse.
      rewrite (foldM_fails _ _ (c, e)); [done | done |].
      intros acc. unfold importContext. cbn [fst snd]. rewrite Hmf, Hpm.
      rewrite (foldM_fails _ _ (v, ve)); [done | done |].
      intros acc'. unfold importVersion. cbn [fst snd].
      rewrite (foldM_fails _ _ f); [done | done |].
      intros acc''. unfold importSchema. by rewrite Hsf, Hps.
  - destruct file as [|zip]; simpl; [intros _; constructor|].
    destruct (zip !! "context-registry.json") as [rf|] eqn:Hreg;
      [|intros _; by apply fails_no_registry].
    destruct (parse_registry rf) as [registry|] eqn:Hparse;
      [|intros _; by eapply fails_registry].
    destruct (foldM _ _ _) as [[ms cache]|] eqn:Hfold; [done|]. intros _.
    apply foldM_None in Hfold as ([c e] & acc & Hc & Hbody).
    unfold importContext in Hbody. cbn [fst snd] in Hbody.
    destruct (zip !! manifestPath _) as [mf|] eqn:Hmf; [|done].
    destruct (parse_manifest mf) as [manifest|] eqn:Hpm;
      [|by eapply fails_manifest].
    destruct (foldM _ _ _) as [cache|] eqn:Hfold; [done|].
    apply foldM_None in Hfold as ([v ve] & acc1 & Hv & Hbody1).
    unfold importVersion in Hbody1. cbn [fst snd] in Hbody1.
    apply foldM_None in Hbody1 as (f & acc2 & Hf & Hbody2).
    unfold importSchema in Hbody2.
    destruct (zip !! schemaPath _ _ _) as [sf|] eqn:Hsf; [|done].
    destruct (parse_schema sf) eqn:Hps; [done|].
    by eapply fails_schema.
Qed.



(** ** The cursors *)

Lemma reachable_run (ds : DocumentStore) (actions : list Action) (s : SchemaStoreState) :
  reachable ds s → reachable ds (run ds actions s).
Proof.
  revert s. induction actions as [|a actions IH]; intros s Hs; [done|].
  apply IH. by constructor.
Qed.


Lemma loadSchema_cursors ds c v f s :
  cursors (loadSchema ds c v f s) = cursors s
  ∧ contextRegistry (loadSchema ds c v f s) = contextRegistry s
  ∧ contextManifests (loadSchema ds c v f s) = contextManifests s.
Proof.
  unfold loadSchema. simpl.
  destruct (contextRegistry s) as [registry|] eqn:Hreg; simpl; [|by rewrite ?Hreg].
  destruct (Dict.get c _) as [e|]; simpl; [|by rewrite ?Hreg].
  by destruct (fetch_schema ds _); simpl; rewrite ?Hreg.
Qed.

Lemma setActiveSchema_cursors ds f s :
  cursors (setActiveSchema ds f s) = (activeContext s, activeVersion s, f, None)
  ∧ contextRegistry (setActiveSchema ds f s) = contextRegistry s
  ∧ contextManifests (setActiveSchema ds f s) = contextManifests s.
Proof.
  unfold setActiveSchema. destruct f as [f|]; [|done].
  destruct (truthy f); [|done].
  destruct (loadSchema_cursors ds
              (activeContext (set_activeFieldId None (set_activeSchemaFile (Some f) s)))
              (activeVersion (set_activeFieldId None (set_activeSchemaFile (Some f) s)))
              f (set_activeFieldId None (set_activeSchemaFile (Some f) s)))
    as (-> & -> & ->).
  done.
Qed.

Lemma coherent_no_field s registry versionEntry :
  contextRegistry s = Some registry →
  Dict.has (activeContext s) (registry_contexts registry) = true →
  activeVersionEntry s = Some versionEntry →
  activeFieldId s = None →
  coherent s = match activeSchemaFile s with
               | Some f => includes f (version_schemas versionEntry)
               | None => true
               end.
Proof.
  unfold coherent, activeVersionEntry. intros -> -> Hentry ->.
  destruct (Dict.get (activeContext s) _) as [manifest|]; [|done].
  rewrite Hentry. simpl. by destruct (activeSchemaFile s).
Qed.



(** The cascading reset of the specification: from context ["default"],
    version ["1.8.0"], schema ["core.json"], field ["cclom:title"],
    [setActiveVersion("1.0.0")] clears the schema and field cursors and keeps
    the context. *)
Example setActiveVersion_cascade :
  cursors (set_activeFieldId (Some "cclom:title") loaded_state)
  = ("default", "1.8.0", Some "core.json", Some "cclom:title")
  ∧ cursors (setActiveVersion "1.0.0" (set_activeFieldId (Some "cclom:title") loaded_state))
    = ("default", "1.0.0", None, None).
Proof. split; reflexivity. Qed.

(** ** Creating a version *)

(** *** The JSON copy of a document has the same members *)

Lemma clone_list_id {A : Type} (clone : A → A) (l : list A) :
  (∀ x, x ∈ l → clone x = x) → clone_list clone l = l.
Proof.
  induction l as [|x l IH]; intros H; [done|]. simpl. f_equal.
  - apply H, list_elem_of_here.
  - apply IH. intros y Hy. by apply H, list_elem_of_further.
Qed.

Lemma clone_option_id {A : Type} (clone : A → A) (o : option A) :
  (∀ x, o = Some x → clone x = x) → clone_option clone o = o.
Proof. destruct o; intros H; [|done]. simpl. f_equal. by apply H. Qed.

Lemma clone_text_id (t : Text) : clone_text t = t.
Proof. by destruct t as [[? ?]|]. Qed.

Lemma clone_concept_id (c : VocabularyConcept) : clone_concept c = c.
Proof.
  destruct c as [l u v d a i f b n]. unfold clone_concept. simpl.
  rewrite clone_text_id.
  rewrite (clone_option_id clone_text) by (intros; apply clone_text_id).
  rewrite (clone_option_id (clone_list id)) by (intros; by apply clone_list_id).
  f_equal. destruct a as [[[? ?]|l']|]; [done | | done].
  simpl. by rewrite clone_list_id.
Qed.

Lemma clone_vocabulary_id (v : Vocabulary) : clone_vocabulary v = v.
Proof.
  destruct v. unfold clone_vocabulary. simpl.
  by rewrite clone_list_id by (intros; apply clone_concept_id).
Qed.

Lemma clone_examples_id (e : Examples) : clone_examples e = e.
Proof.
  destruct e as [de en]. unfold clone_examples. simpl.
  f_equal; apply clone_option_id; intros l _; apply clone_list_id;
    intros [x|x] _; [done | by rewrite clone_list_id | done | by rewrite clone_list_id].
Qed.

Lemma clone_field_id (f : SchemaField) : clone_field f = f
with clone_system_id (c : SystemConfig) : clone_system c = c
with clone_items_id (i : FieldItems) : clone_items i = i
with clone_variant_id (v : FieldVariant) : clone_variant v = v.
Proof.
  - destruct f as [id g l d e p pi sys]. simpl.
    rewrite clone_text_id, (clone_system_id sys).
    rewrite (clone_option_id clone_text) by (intros; apply clone_text_id).
    rewrite (clone_option_id clone_examples) by (intros; apply clone_examples_id).
    f_equal; [by destruct p as [[? ?]|] | by destruct pi as [[? ?]|]].
  - destruct c as [p u dt m r au ai rf ix voc nz vd it]. simpl.
    rewrite (clone_option_id clone_vocabulary) by (intros; apply clone_vocabulary_id).
    f_equal.
    + by destruct ix as [[? ?]|].
    + by destruct nz as [[? ? ? ? ?]|].
    + by destruct vd as [[? ? ? ? ? ?]|].
    + destruct it as [i|]; [|done]. by rewrite (clone_items_id i).
  - destruct i as [dt disc vs]. simpl. f_equal.
    destruct vs as [vs|]; [|done]. f_equal.
    induction vs as [|v vs IH]; [done|].
    by rewrite (clone_variant_id v), IH.
  - destruct v as [t l d fs]. simpl.
    rewrite clone_text_id.
    rewrite (clone_option_id clone_text) by (intros; apply clone_text_id).
    f_equal.
    induction fs as [|f fs IH]; [done|].
    by rewrite (clone_field_id f), IH.
Qed.

Lemma clone_group_id (g : SchemaGroup) : clone_group g = g.
Proof.
  destruct g. unfold clone_group. simpl. rewrite clone_text_id.
  by rewrite (clone_option_id clone_text) by (intros; apply clone_text_id).
Qed.

Lemma clone_json_id (j : Json) : clone_json j = j.
Proof.
  revert j. fix IH 1. intros [| | | |l|o]; simpl; try done.
  - f_equal. induction l as [|x l IHl]; [done|]. simpl. by rewrite (IH x), IHl.
  - f_equal. induction o as [|[k x] o IHo]; [done|]. by rewrite (IH x), IHo.
Qed.

(** The JSON copy of a schema document is a document with the same
    members. *)
Lemma clone_schema_id (d : SchemaDefinition) : clone_schema d = d.
Proof.
  destruct d as [p v c gs fs t]. unfold clone_schema. simpl. f_equal.
  - apply clone_option_id. intros l _. apply clone_list_id. by intros [? ?] _.
  - apply clone_list_id. intros g _. apply clone_group_id.
  - apply clone_list_id. intros f _. apply clone_field_id.
  - apply clone_option_id. intros l _. apply clone_list_id. intros [k j] _. simpl.
    by rewrite clone_json_id.
Qed.

(** *** Cache keys *)

Lemma no_slash_split (v1 v2 r1 r2 : string) :
  no_slash v1 = true → no_slash v2 = true →
  v1 +:+ "/" +:+ r1 = v2 +:+ "/" +:+ r2 → v1 = v2 ∧ r1 = r2.
Proof.
  revert v2. induction v1 as [|a v1 IH]; intros [|b v2]; simpl.
  - intros _ _ Heq. by simplify_eq.
  - destruct (decide (b = "/"%char)); [done|]. intros _ _ Heq. by simplify_eq.
  - destruct (decide (a = "/"%char)); [done|]. intros _ _ Heq. by simplify_eq.
  - destruct (decide (a = "/"%char)); [done|].
    destruct (decide (b = "/"%char)); [done|].
    intros H1 H2 Heq. injection Heq as -> Heq.
    destruct (IH v2 H1 H2 Heq) as [-> ->]. done.
Qed.

(** Keys of one context are equal only for the same version and file, when
    the versions have no ['/']. *)
Lemma cacheKey_inj (c v1 v2 f1 f2 : string) :
  no_slash v1 = true → no_slash v2 = true →
  cacheKey c v1 f1 = cacheKey c v2 f2 → v1 = v2 ∧ f1 = f2.
Proof.
  unfold cacheKey. intros H1 H2 Heq.
  apply (inj (String.app c)) in Heq. apply (inj (String.app "@")) in Heq.
  by apply no_slash_split.
Qed.

Lemma cacheKey_file_inj (c v f1 f2 : string) :
  cacheKey c v f1 = cacheKey c v f2 → f1 = f2.
Proof.
  unfold cacheKey. intros Heq.
  apply (inj (String.app c)) in Heq. apply (inj (String.app "@")) in Heq.
  apply (inj (String.app v)) in Heq. by apply (inj (String.app "/")) in Heq.
Qed.

(** *** The copy loop of [createVersion] *)

Section CopyLoop.
Variables (contextName base version : string).

Local Abbreviation copy := (fold_left (copySchema contextName base version)).

(** A slot that is filled stays filled. *)
Lemma copy_is_Some (files : list string) (cache : gmap string SchemaDefinition) key :
  is_Some (cache !! key) → is_Some (copy files cache !! key).
Proof.
  revert cache. induction files as [|f files IH]; intros cache Hkey; [done|].
  apply IH. unfold copySchema.
  destruct (cache !! cacheKey contextName base f); [|done].
  destruct (decide (cacheKey contextName version f = key)) as [<-|Hne].
  - rewrite lookup_insert_eq. by eexists.
  - by rewrite lookup_insert_ne.
Qed.

(** A slot that holds a document stamped with the new version keeps
    holding one. *)
Lemma copy_stamped (files : list string) (cache : gmap string SchemaDefinition) key d :
  cache !! key = Some d → schema_version d = version →
  ∃ d', copy files cache !! key = Some d' ∧ schema_version d' = version.
Proof.
  revert cache d. induction files as [|f files IH]; intros cache d Hkey Hversion.
  - by exists d.
  - simpl. unfold copySchema at 2.
    destruct (cache !! cacheKey contextName base f) as [b|]; [|by eapply IH].
    destruct (decide (cacheKey contextName version f = key)) as [<-|Hne].
    + eapply IH; [apply lookup_insert_eq | done].
    + eapply IH; [by rewrite lookup_insert_ne | done].
Qed.

(** Every listed file whose base document is cached gets a slot under the
    new version, holding a document stamped with the new version. *)
Lemma copy_stamps (files : list string) (cache : gmap string SchemaDefinition) f :
  f ∈ files → is_Some (cache !! cacheKey contextName base f) →
  ∃ d', copy files cache !! cacheKey contextName version f = Some d'
        ∧ schema_version d' = version.
Proof.
  revert cache. induction files as [|g files IH]; intros cache Hf Hbase.
  - by apply elem_of_nil in Hf.
  - simpl. apply elem_of_cons in Hf as [<-|Hf].
    + unfold copySchema at 2. destruct Hbase as [b ->].
      eapply copy_stamped; [apply lookup_insert_eq | done].
    + apply IH; [done|]. apply (copy_is_Some [g]). done.
Qed.

(** A slot the loop changes is a slot of the new version for a listed file,
    and holds a document stamped with the new version. *)
Lemma copy_written (files : list string) (cache : gmap string SchemaDefinition) key :
  copy files cache !! key = cache !! key
  ∨ ∃ f d', f ∈ files ∧ key = cacheKey contextName version f
            ∧ copy files cache !! key = Some d' ∧ schema_version d' = version.
Proof.
  revert cache. induction files as [|f files IH]; intros cache; [by left|].
  simpl. destruct (IH (copySchema contextName base version cache f))
    as [Hsame|(g & d' & Hg & -> & Hd' & Hversion)].
  - rewrite Hsame. unfold copySchema.
    destruct (cache !! cacheKey contextName base f) as [b|]; [|by left].
    destruct (decide (cacheKey contextName version f = key)) as [<-|Hne];
      [|left; by rewrite lookup_insert_ne].
    right. exists f. eexists. rewrite lookup_insert_eq.
    split_and!; [apply list_elem_of_here | done | done | done].
  - right. exists g, d'. split_and!; [by apply list_elem_of_further | done | done | done].
Qed.

(** When no slot of the new version is a slot of the base version, the
    base documents are left alone and each copy is its base document with
    the new version. *)
Hypothesis Hdisjoint :
  ∀ f g, cacheKey contextName version g ≠ cacheKey contextName base f.

Lemma copy_base_unchanged (files : list string) (cache : gmap string SchemaDefinition) f :
  copy files cache !! cacheKey contextName base f = cache !! cacheKey contextName base f.
Proof.
  revert cache. induction files as [|g files IH]; intros cache; [done|].
  simpl. rewrite IH. unfold copySchema.
  destruct (cache !! cacheKey contextName base g); [|done].
  by rewrite lookup_insert_ne.
Qed.

Lemma copy_other_unchanged (files : list string) (cache : gmap string SchemaDefinition) key :
  (∀ f, f ∈ files → key ≠ cacheKey contextName version f) →
  copy files cache !! key = cache !! key.
Proof.
  revert cache. induction files as [|g files IH]; intros cache Hkey; [done|].
  simpl. rewrite IH by (intros f Hf; by apply Hkey, list_elem_of_further).
  unfold copySchema.
  destruct (cache !! cacheKey contextName base g); [|done].
  rewrite lookup_insert_ne; [done|]. intros Heq. by eapply Hkey; [apply list_elem_of_here|].
Qed.

Lemma copy_clones (files : list string) (cache : gmap string SchemaDefinition) f b :
  f ∈ files → cache !! cacheKey contextName base f = Some b →
  copy files cache !! cacheKey contextName version f = Some (set_version version b).
Proof.
  revert cache. induction files as [|g files IH]; intros cache Hf Hbase.
  - by apply elem_of_nil in Hf.
  - simpl. destruct (decide (f ∈ files)) as [Hin|Hnotin].
    + apply IH; [done|].
      rewrite <- Hbase. apply (copy_base_unchanged [g]).
    + apply elem_of_cons in Hf as [<-|Hf]; [|done].
      rewrite copy_other_unchanged.
      * unfold copySchema. rewrite Hbase, lookup_insert_eq. by rewrite clone_schema_id.
      * intros g Hg Heq. apply cacheKey_file_inj in Heq. by subst.
Qed.

End CopyLoop.

(** *** Editing the documents of the active version *)

Ltac edit_cached_document s file :=
  let Hcached := fresh "Hcached" in
  destruct (schemas s !! activeKey s file) eqn:Hcached; simpl;
  [rewrite ?lookup_insert_ne by done | rewrite ?Hcached]; try done.

(** An action that edits a document of the active context and version
    changes no cache slot of another version or context, and moves neither
    the context cursor nor the version cursor. *)
Lemma edit_touches_active_only (ds : DocumentStore) (a : Action) (s : SchemaStoreState)
    (key : string) :
  edits_active_document a = true →
  (∀ file, activeKey s file ≠ key) →
  schemas (step ds a s) !! key = schemas s !! key
  ∧ activeContext (step ds a s) = activeContext s
  ∧ activeVersion (step ds a s) = activeVersion s.
Proof.
  intros Hedit Hkey. destruct a; try discriminate Hedit; simpl.
  - (* createSchema *)
    unfold createSchema. simpl. rewrite lookup_insert_ne by apply Hkey.
    destruct (Dict.get (activeContext s) (contextManifests s)) as [m|]; [|done].
    destruct (Dict.get (activeVersion s) (manifest_versions m)) as [ve|]; [|done].
    by destruct (includes _ _).
  - (* deleteSchema *)
    unfold deleteSchema. simpl. rewrite lookup_delete_ne by apply Hkey.
    destruct (Dict.get (activeContext s) (contextManifests s)) as [m|]; [|done].
    by destruct (Dict.get (activeVersion s) (manifest_versions m)) as [ve|].
  - unfold updateSchema. edit_cached_document s schemaFile.
  - unfold addField. edit_cached_document s schemaFile.
  - unfold updateField. edit_cached_document s schemaFile.
  - unfold deleteField. edit_cached_document s schemaFile.
  - unfold moveField. destruct (schemas s !! activeKey s schemaFile) eqn:Hcached; [|done].
    destruct (list_find _ _) as [[i f]|]; [|done]. simpl.
    by rewrite lookup_insert_ne.
  - unfold addGroup. edit_cached_document s schemaFile.
  - unfold updateGroup. edit_cached_document s schemaFile.
  - unfold deleteGroup. edit_cached_document s schemaFile.
  - unfold addContentType, updateContentTypes.
    destruct (schemas s !! activeKey s "core.json") eqn:Hcached; [|done].
    destruct (list_find _ _) as [[i f]|]; [|done].
    destruct (system_vocabulary _); [|done]. simpl. by rewrite lookup_insert_ne.
  - unfold removeContentType, updateContentTypes.
    destruct (schemas s !! activeKey s "core.json") eqn:Hcached; [|done].
    destruct (list_find _ _) as [[i f]|]; [|done].
    destruct (system_vocabulary _); [|done]. simpl. by rewrite lookup_insert_ne.
Qed.

Lemma edits_touch_active_only (ds : DocumentStore) (actions : list Action)
    (s : SchemaStoreState) (key : string) :
  Forall (λ a, edits_active_document a = true) actions →
  (∀ file, activeKey s file ≠ key) →
  schemas (run ds actions s) !! key = schemas s !! key.
Proof.
  revert s. induction actions as [|a actions IH]; intros s Hedits Hkey; [done|].
  apply Forall_cons in Hedits as [Hedit Hedits]. simpl.
  destruct (edit_touches_active_only ds a s key Hedit Hkey) as (Hsame & Hc & Hv).
  rewrite <- Hsame. apply IH; [done|].
  intros file. unfold activeKey. rewrite Hc, Hv. apply Hkey.
Qed.



(** ** The archive round trip *)

(** *** Paths *)

Lemma no_slash_before_slash (p r : string) : no_slash (p +:+ "/" +:+ r) = false.
Proof.
  induction p as [|a p IH]; simpl; [done|].
  by destruct (decide (a = "/"%char)).
Qed.

Lemma manifestPath_not_registry (p : string) : manifestPath p ≠ "context-registry.json".
Proof.
  intros Heq. pose proof (no_slash_before_slash p "manifest.json") as H.
  change (p +:+ "/" +:+ "manifest.json") with (manifestPath p) in H.
  by rewrite Heq in H.
Qed.

Lemma schemaPath_split (p v f : string) :
  schemaPath p v f = p +:+ "/" +:+ ("v" +:+ v +:+ "/" +:+ f).
Proof. done. Qed.

Lemma schemaPath_not_registry (p v f : string) : schemaPath p v f ≠ "context-registry.json".
Proof.
  intros Heq. pose proof (no_slash_before_slash p ("v" +:+ v +:+ "/" +:+ f)) as H.
  rewrite <- schemaPath_split, Heq in H. done.
Qed.

Lemma manifestPath_inj (p p' : string) :
  no_slash p = true → no_slash p' = true → manifestPath p = manifestPath p' → p = p'.
Proof.
  intros Hp Hp' Heq.
  by destruct (no_slash_split p p' "manifest.json" "manifest.json" Hp Hp' Heq).
Qed.

Lemma manifestPath_not_schemaPath (p p' v f : string) :
  no_slash p = true → no_slash p' = true → manifestPath p ≠ schemaPath p' v f.
Proof.
  intros Hp Hp' Heq. rewrite schemaPath_split in Heq.
  by destruct (no_slash_split p p' "manifest.json" _ Hp Hp' Heq).
Qed.

Lemma schemaPath_inj (p p' v v' f f' : string) :
  no_slash p = true → no_slash p' = true → no_slash v = true → no_slash v' = true →
  schemaPath p v f = schemaPath p' v' f' → p = p' ∧ v = v' ∧ f = f'.
Proof.
  intros Hp Hp' Hv Hv' Heq. rewrite !schemaPath_split in Heq.
  destruct (no_slash_split p p' _ _ Hp Hp' Heq) as [-> Hrest].
  apply (inj (String.app "v")) in Hrest.
  by destruct (no_slash_split v v' f f' Hv Hv' Hrest) as [-> ->].
Qed.

(** *** Writing entries one after the other *)

Lemma write_all_app (ws1 ws2 : list (string * ArchiveEntry)) (zip : Archive) :
  write_all (ws1 ++ ws2) zip = write_all ws2 (write_all ws1 zip).
Proof. apply fold_left_app. Qed.

Lemma write_all_not_written (ws : list (string * ArchiveEntry)) (zip : Archive) (p : string) :
  p ∉ ws.*1 → write_all ws zip !! p = zip !! p.
Proof.
  revert zip. induction ws as [|[q e] ws IH]; intros zip Hp; [done|].
  apply not_elem_of_cons in Hp as [Hne Hp]. simpl.
  rewrite IH by done. by rewrite lookup_insert_ne.
Qed.

(** When all the entries written to a path are the same, that is what the
    archive holds there. *)
Lemma write_all_written (ws : list (string * ArchiveEntry)) (zip : Archive) (p : string)
    (e : ArchiveEntry) :
  (p, e) ∈ ws → (∀ e', (p, e') ∈ ws → e' = e) → write_all ws zip !! p = Some e.
Proof.
  revert zip. induction ws as [|[q e0] ws IH]; intros zip Hin Hsame.
  - by apply elem_of_nil in Hin.
  - simpl. destruct (decide (p ∈ ws.*1)) as [Hlater|Hlast].
    + apply list_elem_of_fmap in Hlater as ([p' e1] & Hp & Hlater). simpl in Hp. subst p'.
      assert (e1 = e) as -> by (apply Hsame; by apply list_elem_of_further).
      apply IH; [done|]. intros e' He'. apply Hsame. by apply list_elem_of_further.
    + rewrite write_all_not_written by done.
      apply elem_of_cons in Hin as [[= <- <-]|Hin].
      * apply lookup_insert_eq.
      * exfalso. apply Hlast. apply list_elem_of_fmap. by exists (p, e).
Qed.

(** *** The export loop writes [export_writes] *)

Lemma exportVersion_writes cache c p (v : string * VersionEntry) (zip : Archive) :
  exportVersion cache c p zip v
  = write_all (schema_writes cache c p v.1 (version_schemas v.2)) zip.
Proof.
  unfold exportVersion, schema_writes. generalize (version_schemas v.2). intros files.
  revert zip. induction files as [|f files IH]; intros zip; [done|].
  simpl. rewrite IH. unfold exportSchema.
  by destruct (cache !! cacheKey c v.1 f).
Qed.

Lemma exportManifest_writes registry cache (cm : string * ContextManifest) (zip : Archive) :
  exportManifest registry cache zip cm = write_all (manifest_writes registry cache cm) zip.
Proof.
  unfold exportManifest, manifest_writes. simpl.
  generalize (<[manifestPath (contextPathOf registry cm.1) := ManifestJson cm.2]> zip).
  generalize (manifest_versions cm.2). intros versions.
  induction versions as [|v versions IH]; intros z; [done|].
  simpl. rewrite IH, exportVersion_writes. by rewrite write_all_app.
Qed.

Lemma export_loop_writes registry cache manifests (zip : Archive) :
  fold_left (exportManifest registry cache) manifests zip
  = write_all (export_writes registry cache manifests) zip.
Proof.
  unfold export_writes. revert zip.
  induction manifests as [|cm manifests IH]; intros zip; [done|].
  simpl. rewrite IH, exportManifest_writes. by rewrite write_all_app.
Qed.

(** What is written, and where. *)
Lemma elem_of_schema_writes cache c p v files q e :
  (q, e) ∈ schema_writes cache c p v files
  ↔ ∃ f d, f ∈ files ∧ cache !! cacheKey c v f = Some d
           ∧ q = schemaPath p v f ∧ e = SchemaJson d.
Proof.
  unfold schema_writes. rewrite list_elem_of_omap. split.
  - intros (f & Hf & Hsome).
    destruct (cache !! cacheKey c v f) as [d|] eqn:Hd; [|done].
    injection Hsome as <- <-. by exists f, d.
  - intros (f & d & Hf & Hd & -> & ->). exists f. by rewrite Hd.
Qed.

Lemma elem_of_export_writes registry cache manifests q e :
  (q, e) ∈ export_writes registry cache manifests
  ↔ (∃ c m, (c, m) ∈ manifests
            ∧ q = manifestPath (contextPathOf registry c) ∧ e = ManifestJson m)
    ∨ (∃ c m v ve f d,
         (c, m) ∈ manifests ∧ (v, ve) ∈ manifest_versions m ∧ f ∈ version_schemas ve
         ∧ cache !! cacheKey c v f = Some d
         ∧ q = schemaPath (contextPathOf registry c) v f ∧ e = SchemaJson d).
Proof.
  unfold export_writes. rewrite list_elem_of_bind. split.
  - intros ([c m] & Hw & Hcm). unfold manifest_writes in Hw. simpl in Hw.
    apply elem_of_cons in Hw as [[= -> ->]|Hw]; [left; by exists c, m|].
    apply list_elem_of_bind in Hw as ([v ve] & Hw & Hv). simpl in Hw.
    apply elem_of_schema_writes in Hw as (f & d & Hf & Hd & -> & ->).
    right. by exists c, m, v, ve, f, d.
  - intros [(c & m & Hcm & -> & ->)|(c & m & v & ve & f & d & Hcm & Hv & Hf & Hd & -> & ->)].
    + exists (c, m). split; [apply list_elem_of_here | done].
    + exists (c, m). split; [|done]. apply list_elem_of_further.
      apply list_elem_of_bind. exists (v, ve). split; [|done].
      apply elem_of_schema_writes. by exists f, d.
Qed.

(** *** Well-formed names *)

Lemma NoDup_fmap_inj {A B : Type} (f : A → B) (l : list A) (x y : A) :
  NoDup (f <$> l) → x ∈ l → y ∈ l → f x = f y → x = y.
Proof.
  induction l as [|a l IH]; csimpl; intros Hnd Hx Hy Heq.
  - by apply elem_of_nil in Hx.
  - apply NoDup_cons in Hnd as [Ha Hnd].
    apply elem_of_cons in Hx as [->|Hx]; apply elem_of_cons in Hy as [->|Hy].
    + done.
    + exfalso. apply Ha. rewrite Heq. apply list_elem_of_fmap. by exists y.
    + exfalso. apply Ha. rewrite <- Heq. apply list_elem_of_fmap. by exists x.
    + by apply IH.
Qed.

Lemma dict_has_keys {V : Type} (k : string) (d : Dict.t V) :
  Dict.has k d = true ↔ k ∈ Dict.keys d.
Proof.
  unfold Dict.has. destruct (Dict.get k d) eqn:Hget.
  - split; [|done]. intros _. apply dict_get_Some_elem in Hget.
    apply list_elem_of_fmap. by exists (k, v).
  - split; [done|]. intros Hk. by apply dict_get_None in Hget.
Qed.

Lemma dict_elem_keys {V : Type} (k : string) (v : V) (d : Dict.t V) :
  (k, v) ∈ d → k ∈ Dict.keys d.
Proof. intros H. apply list_elem_of_fmap. by exists (k, v). Qed.

Lemma well_named_ok registry manifests :
  well_named registry manifests = true → names_ok registry manifests.
Proof.
  unfold well_named. rewrite !andb_true_iff, !bool_decide_eq_true.
  rewrite !forallb_forall.
  intros (((((Hc & Hm) & Hreg) & Hpath) & Hinj) & Hver).
  split; try done.
  - intros c m Hcm. apply dict_has_keys. apply Hreg.
    apply list_elem_of_In. by eapply dict_elem_keys.
  - intros c Hin. apply Hpath. by apply list_elem_of_In.
  - intros c1 c2 H1 H2 Heq. by eapply NoDup_fmap_inj.
  - intros c m Hcm. apply list_elem_of_In, Hver in Hcm.
    apply andb_true_iff in Hcm as [Hnd _]. by apply bool_decide_eq_true in Hnd.
  - intros c m v ve Hcm Hv. apply list_elem_of_In, Hver in Hcm.
    apply andb_true_iff in Hcm as [_ Hall]. rewrite forallb_forall in Hall.
    by apply list_elem_of_In, Hall in Hv.
Qed.

(** *** What the exported archive holds *)

Section ExportedArchive.
Variables (registry : ContextRegistry) (cache : gmap string SchemaDefinition)
  (manifests : Dict.t ContextManifest).
Hypothesis Hnames : names_ok registry manifests.

Local Abbreviation zip :=
  (write_all (export_writes registry cache manifests)
     ({["context-registry.json" := RegistryJson registry]} : Archive)).

Lemma exported_registry : zip !! "context-registry.json" = Some (RegistryJson registry).
Proof.
  rewrite write_all_not_written; [apply lookup_singleton_eq|].
  intros Hin. apply list_elem_of_fmap in Hin as ([q e] & Hq & Hin). simpl in Hq. subst q.
  apply elem_of_export_writes in Hin
    as [(c & m & _ & Hq & _)|(c & m & v & ve & f & d & _ & _ & _ & _ & Hq & _)].
  - by eapply manifestPath_not_registry.
  - by eapply schemaPath_not_registry.
Qed.

Lemma manifest_unique c m m' : (c, m) ∈ manifests → (c, m') ∈ manifests → m = m'.
Proof.
  intros H H'. apply (dict_get_elem _ _ _ (manifests_nodup _ _ Hnames)) in H, H'. congruence.
Qed.

Lemma exported_manifest c :
  c ∈ Dict.keys (registry_contexts registry) →
  zip !! manifestPath (contextPathOf registry c) = ManifestJson <$> Dict.get c manifests.
Proof.
  intros Hc. pose proof (paths_no_slash _ _ Hnames c Hc) as Hp.
  assert (Hwho : ∀ e, (manifestPath (contextPathOf registry c), e)
                      ∈ export_writes registry cache manifests →
                      ∃ m, (c, m) ∈ manifests ∧ e = ManifestJson m).
  { intros e He. apply elem_of_export_writes in He
      as [(c' & m & Hcm & Hq & ->)|(c' & m & v & ve & f & d & Hcm & _ & _ & _ & Hq & _)].
    - pose proof (manifests_registered _ _ Hnames c' m Hcm) as Hc'.
      apply manifestPath_inj in Hq; [|done|by apply (paths_no_slash _ _ Hnames)].
      apply (paths_distinct _ _ Hnames) in Hq; [|done|done]. subst c'. by exists m.
    - pose proof (manifests_registered _ _ Hnames c' m Hcm) as Hc'.
      exfalso. eapply manifestPath_not_schemaPath; [| |done];
        [done | by apply (paths_no_slash _ _ Hnames)]. }
  destruct (Dict.get c manifests) as [m|] eqn:Hget; simpl.
  - apply dict_get_Some_elem in Hget. apply write_all_written.
    + apply elem_of_export_writes. left. by exists c, m.
    + intros e' He'. destruct (Hwho e' He') as (m' & Hm' & ->).
      f_equal. by eapply manifest_unique.
  - rewrite write_all_not_written.
    + rewrite lookup_singleton_ne; [done|]. intros Heq. by eapply manifestPath_not_registry.
    + intros Hin. apply list_elem_of_fmap in Hin as ([q e] & Hq & Hin). simpl in Hq. subst q.
      destruct (Hwho e Hin) as (m & Hm & _).
      apply (dict_get_elem _ _ _ (manifests_nodup _ _ Hnames)) in Hm. congruence.
Qed.

Lemma exported_schema c m v ve f :
  (c, m) ∈ manifests → (v, ve) ∈ manifest_versions m → f ∈ version_schemas ve →
  zip !! schemaPath (contextPathOf registry c) v f
  = SchemaJson <$> cache !! cacheKey c v f.
Proof.
  intros Hcm Hv Hf.
  pose proof (manifests_registered _ _ Hnames c m Hcm) as Hc.
  pose proof (paths_no_slash _ _ Hnames c Hc) as Hp.
  pose proof (versions_no_slash _ _ Hnames c m v ve Hcm Hv) as Hvs.
  assert (Hwho : ∀ e, (schemaPath (contextPathOf registry c) v f, e)
                      ∈ export_writes registry cache manifests →
                      ∃ d, cache !! cacheKey c v f = Some d ∧ e = SchemaJson d).
  { intros e He. apply elem_of_export_writes in He
      as [(c' & m' & Hcm' & Hq & ->)|(c' & m' & v' & ve' & f' & d & Hcm' & Hv' & _ & Hd & Hq & ->)].
    - pose proof (manifests_registered _ _ Hnames c' m' Hcm') as Hc'.
      exfalso. symmetry in Hq. eapply manifestPath_not_schemaPath; [| |done];
        [by apply (paths_no_slash _ _ Hnames) | done].
    - pose proof (manifests_registered _ _ Hnames c' m' Hcm') as Hc'.
      apply schemaPath_inj in Hq as (Hq & -> & ->);
        [|done|by apply (paths_no_slash _ _ Hnames)|done
         |by eapply (versions_no_slash _ _ Hnames)].
      apply (paths_distinct _ _ Hnames) in Hq; [|done|done]. subst c'. by exists d. }
  destruct (cache !! cacheKey c v f) as [d|] eqn:Hd; simpl.
  - apply write_all_written.
    + apply elem_of_export_writes. right. by exists c, m, v, ve, f, d.
    + intros e' He'. destruct (Hwho e' He') as (d' & Hd' & ->). congruence.
  - rewrite write_all_not_written.
    + rewrite lookup_singleton_ne; [done|]. intros Heq. by eapply schemaPath_not_registry.
    + intros Hin. apply list_elem_of_fmap in Hin as ([q e] & Hq & Hin). simpl in Hq. subst q.
      destruct (Hwho e Hin) as (d & Hd' & _). congruence.
Qed.

End ExportedArchive.

(** *** What the import reads from such an archive *)

Section ImportedArchive.
Variables (zip : Archive) (contexts : Dict.t ContextEntry)
  (cache : gmap string SchemaDefinition) (manifests : Dict.t ContextManifest).

Local Abbreviation pathOf c e := (or_else (Some (entry_path e)) c).

Hypothesis Hmanifest : ∀ c e,
  (c, e) ∈ contexts →
  zip !! manifestPath (pathOf c e) = ManifestJson <$> Dict.get c manifests.
Hypothesis Hschema : ∀ c e m v ve f,
  (c, e) ∈ contexts → Dict.get c manifests = Some m →
  (v, ve) ∈ manifest_versions m → f ∈ version_schemas ve →
  zip !! schemaPath (pathOf c e) v f = SchemaJson <$> cache !! cacheKey c v f.

Lemma insert_cached (acc : gmap string SchemaDefinition) key d :
  acc ⊆ cache → cache !! key = Some d → acc ⊆ <[key := d]> acc ∧ <[key := d]> acc ⊆ cache.
Proof.
  intros Hsub Hd. split; [|by apply insert_subseteq_l].
  apply map_subseteq_spec. intros i x Hi.
  destruct (decide (key = i)) as [->|Hne]; [|by rewrite lookup_insert_ne].
  rewrite lookup_insert_eq. pose proof (lookup_weaken _ _ _ _ Hi Hsub). congruence.
Qed.

Lemma importSchemas_ok c p v (files : list string) (acc : gmap string SchemaDefinition) :
  acc ⊆ cache →
  (∀ f, f ∈ files → zip !! schemaPath p v f = SchemaJson <$> cache !! cacheKey c v f) →
  ∃ acc', foldM (importSchema zip c p v) files acc = Some acc'
    ∧ acc ⊆ acc' ∧ acc' ⊆ cache
    ∧ (∀ f d, f ∈ files → cache !! cacheKey c v f = Some d →
              acc' !! cacheKey c v f = Some d)
    ∧ (∀ key d, acc' !! key = Some d →
                acc !! key = Some d ∨ ∃ f, f ∈ files ∧ key = cacheKey c v f).
Proof.
  revert acc. induction files as [|f files IH]; intros acc Hsub Hzip.
  - exists acc. split_and!; [done | done | done | | by left].
    intros f d Hf. by apply elem_of_nil in Hf.
  - assert (Hstep : ∃ acc1, importSchema zip c p v acc f = Some acc1
                      ∧ acc ⊆ acc1 ∧ acc1 ⊆ cache
                      ∧ (∀ d, cache !! cacheKey c v f = Some d →
                              acc1 !! cacheKey c v f = Some d)
                      ∧ (∀ key d, acc1 !! key = Some d →
                                  acc !! key = Some d ∨ key = cacheKey c v f)).
    { unfold importSchema. rewrite (Hzip f) by apply list_elem_of_here.
      destruct (cache !! cacheKey c v f) as [d|] eqn:Hd; simpl.
      - destruct (insert_cached acc _ d Hsub Hd) as [H1 H2].
        eexists. split_and!; [done | done | done | |].
        + intros d' [= <-]. apply lookup_insert_eq.
        + intros key d' Hkey. destruct (decide (cacheKey c v f = key)) as [<-|Hne];
            [by right | left; by rewrite lookup_insert_ne in Hkey].
      - exists acc. split_and!; [done | done | done | done | by left]. }
    destruct Hstep as (acc1 & Hbody & Hsub1 & Hsub1' & Hhere & Hfrom).
    destruct (IH acc1 Hsub1') as (acc' & Hfold & Hsub2 & Hsub2' & Hall & Hfrom').
    { intros g Hg. apply Hzip. by apply list_elem_of_further. }
    exists acc'. simpl. rewrite Hbody. split_and!; [done | by etrans | done | |].
    + intros g d Hg Hd. apply elem_of_cons in Hg as [->|Hg]; [|by apply Hall].
      eapply lookup_weaken; [by apply Hhere | done].
    + intros key d Hkey. destruct (Hfrom' key d Hkey) as [H1|(g & Hg & ->)].
      * destruct (Hfrom key d H1) as [H0| ->]; [by left|].
        right. exists f. split; [apply list_elem_of_here | done].
      * right. exists g. split; [by apply list_elem_of_further | done].
Qed.

Lemma importVersions_ok c p (versions : Dict.t VersionEntry)
    (acc : gmap string SchemaDefinition) :
  acc ⊆ cache →
  (∀ v ve f, (v, ve) ∈ versions → f ∈ version_schemas ve →
             zip !! schemaPath p v f = SchemaJson <$> cache !! cacheKey c v f) →
  ∃ acc', foldM (importVersion zip c p) versions acc = Some acc'
    ∧ acc ⊆ acc' ∧ acc' ⊆ cache
    ∧ (∀ v ve f d, (v, ve) ∈ versions → f ∈ version_schemas ve →
                   cache !! cacheKey c v f = Some d → acc' !! cacheKey c v f = Some d)
    ∧ (∀ key d, acc' !! key = Some d →
                acc !! key = Some d
                ∨ ∃ v ve f, (v, ve) ∈ versions ∧ f ∈ version_schemas ve
                            ∧ key = cacheKey c v f).
Proof.
  revert acc. induction versions as [|[v ve] versions IH]; intros acc Hsub Hzip.
  - exists acc. split_and!; [done | done | done | | by left].
    intros v ve f d Hv. by apply elem_of_nil in Hv.
  - destruct (importSchemas_ok c p v (version_schemas ve) acc Hsub)
      as (acc1 & Hbody & Hsub1 & Hsub1' & Hhere & Hfrom).
    { intros f Hf. eapply Hzip; [apply list_elem_of_here | done]. }
    destruct (IH acc1 Hsub1') as (acc' & Hfold & Hsub2 & Hsub2' & Hall & Hfrom').
    { intros v' ve' f Hv' Hf. eapply Hzip; [by apply list_elem_of_further | done]. }
    exists acc'. simpl. unfold importVersion at 1. cbn [fst snd]. rewrite Hbody.
    split_and!; [done | by etrans | done | |].
    + intros v' ve' f d Hv' Hf Hd.
      apply elem_of_cons in Hv' as [[= -> ->]|Hv']; [|by eapply Hall].
      eapply lookup_weaken; [by eapply Hhere | done].
    + intros key d Hkey. destruct (Hfrom' key d Hkey) as [H1|(v' & ve' & f & Hv' & Hf & ->)].
      * destruct (Hfrom key d H1) as [H0|(f & Hf & ->)]; [by left|].
        right. exists v, ve, f. split_and!; [apply list_elem_of_here | done | done].
      * right. exists v', ve', f. split_and!; [by apply list_elem_of_further | done | done].
Qed.

Local Abbreviation listed_in := (listed_by manifests).

Lemma importContexts_ok (cs : Dict.t ContextEntry) (ms : Dict.t ContextManifest)
    (acc : gmap string SchemaDefinition) :
  (∀ ce, ce ∈ cs → ce ∈ contexts) →
  acc ⊆ cache →
  ∃ ms' acc', foldM (importContext zip) cs (ms, acc) = Some (ms', acc')
    ∧ acc ⊆ acc' ∧ acc' ⊆ cache
    ∧ (∀ key d, listed_in cs key → cache !! key = Some d → acc' !! key = Some d)
    ∧ (∀ key d, acc' !! key = Some d → acc !! key = Some d ∨ listed_in cs key)
    ∧ (∀ c m, c ∈ Dict.keys cs → Dict.get c manifests = Some m → Dict.get c ms' = Some m)
    ∧ (∀ c, c ∉ Dict.keys cs ∨ Dict.get c manifests = None → Dict.get c ms' = Dict.get c ms).
Proof.
  revert ms acc. induction cs as [|[c e] cs IH]; intros ms acc Hcs Hsub.
  - exists ms, acc. split_and!; try done.
    + intros key d (? & ? & ? & ? & ? & ? & H & _). by apply elem_of_nil in H.
    + by left.
    + intros c m Hc. by apply elem_of_nil in Hc.
  - assert (Hce : (c, e) ∈ contexts) by apply Hcs, list_elem_of_here.
    assert (Hstep : ∃ ms1 acc1, importContext zip (ms, acc) (c, e) = Some (ms1, acc1)
                      ∧ acc ⊆ acc1 ∧ acc1 ⊆ cache
                      ∧ (∀ key d, listed_in [(c, e)] key → cache !! key = Some d →
                                  acc1 !! key = Some d)
                      ∧ (∀ key d, acc1 !! key = Some d →
                                  acc !! key = Some d ∨ listed_in [(c, e)] key)
                      ∧ (∀ m, Dict.get c manifests = Some m → Dict.get c ms1 = Some m)
                      ∧ (∀ c', c' ≠ c ∨ Dict.get c' manifests = None →
                               Dict.get c' ms1 = Dict.get c' ms)).
    { unfold importContext. cbn [fst snd]. rewrite (Hmanifest c e Hce).
      destruct (Dict.get c manifests) as [m|] eqn:Hm; simpl.
      - destruct (importVersions_ok c (pathOf c e) (manifest_versions m) acc Hsub)
          as (acc1 & Hbody & Hsub1 & Hsub1' & Hall & Hfrom).
        { intros v ve f Hv Hf. by eapply Hschema. }
        simpl in Hbody. rewrite Hbody. exists (Dict.set c m ms), acc1.
        split_and!; [done | done | done | | | |].
        + intros key d (c0 & e0 & m0 & v & ve & f & H0 & Hm0 & Hv & Hf & ->) Hd.
          apply list_elem_of_singleton in H0 as [= -> ->].
          rewrite Hm in Hm0. injection Hm0 as <-. by eapply Hall.
        + intros key d Hkey. destruct (Hfrom key d Hkey) as [H0|(v & ve & f & Hv & Hf & ->)];
            [by left|].
          right. exists c, e, m, v, ve, f. split_and!; try done. apply list_elem_of_here.
        + intros m' [= <-]. apply dict_get_set_eq.
        + intros c' [Hne|Hnone]; [by rewrite dict_get_set_ne|].
          destruct (decide (c = c')) as [<-|Hne]; [congruence | by rewrite dict_get_set_ne].
      - exists ms, acc. split_and!; try done.
        + intros key d (c0 & e0 & m0 & v & ve & f & H0 & Hm0 & _).
          apply list_elem_of_singleton in H0 as [= -> ->]. congruence.
        + by left. }
    destruct Hstep as (ms1 & acc1 & Hbody & Hsub1 & Hsub1' & Hhere & Hfrom & Hset & Hkeep).
    destruct (IH ms1 acc1) as (ms' & acc' & Hfold & Hsub2 & Hsub2' & Hall & Hfrom' & Hset' & Hkeep').
    { intros ce Hin. by apply Hcs, list_elem_of_further. }
    { done. }
    exists ms', acc'. simpl. rewrite Hbody. split_and!; [done | by etrans | done | | | |].
    + intros key d (c0 & e0 & m0 & v & ve & f & H0 & Hm0 & Hv & Hf & ->) Hd.
      apply elem_of_cons in H0 as [[= -> ->]|H0].
      * eapply lookup_weaken; [|done]. apply Hhere; [|done].
        exists c, e, m0, v, ve, f. split_and!; try done. apply list_elem_of_here.
      * apply Hall; [|done]. by exists c0, e0, m0, v, ve, f.
    + intros key d Hkey.
      destruct (Hfrom' key d Hkey) as [H1|(c0 & e0 & m0 & v & ve & f & H0 & Hrest)].
      * destruct (Hfrom key d H1) as [H0|(c0 & e0 & m0 & v & ve & f & H0 & Hrest)]; [by left|].
        apply list_elem_of_singleton in H0 as [= -> ->].
        right. exists c, e, m0, v, ve, f. split; [apply list_elem_of_here | done].
      * right. exists c0, e0, m0, v, ve, f. split; [by apply list_elem_of_further | done].
    + intros c' m Hc' Hm.
      destruct (decide (c' ∈ Dict.keys cs)) as [Hin|Hnotin]; [by apply Hset'|].
      rewrite Hkeep' by by left.
      unfold Dict.keys in Hc'. csimpl in Hc'.
      apply elem_of_cons in Hc' as [->|Hc']; [by apply Hset | done].
    + intros c' Hc'. 
      assert (Htail : c' ∉ Dict.keys cs ∨ Dict.get c' manifests = None).
      { destruct Hc' as [Hnotin|Hnone]; [left|by right].
        intros Hin. apply Hnotin. unfold Dict.keys. csimpl. by apply list_elem_of_further. }
      rewrite (Hkeep' c' Htail). apply Hkeep.
      destruct Hc' as [Hnotin|Hnone]; [left|by right].
      intros ->. apply Hnotin. unfold Dict.keys. csimpl. apply list_elem_of_here.
Qed.

End ImportedArchive.

(** *** [loadAllSchemas] *)

Lemma loadListedSchema_keeps ds registry c v s f :
  contextRegistry (loadListedSchema ds registry c v s f) = contextRegistry s
  ∧ contextManifests (loadListedSchema ds registry c v s f) = contextManifests s.
Proof.
  unfold loadListedSchema. destruct (schemas s !! cacheKey c v f); [done|].
  by destruct (fetch_schema ds _).
Qed.

Lemma fold_left_keeps {A S B : Type} (body : S → A → S) (proj : S → B) (l : list A) (s : S) :
  (∀ s x, proj (body s x) = proj s) → proj (fold_left body l s) = proj s.
Proof.
  intros Hbody. revert s. induction l as [|x l IH]; intros s; [done|].
  simpl. by rewrite IH.
Qed.

Lemma loadAllSchemas_keeps ds s :
  contextRegistry (loadAllSchemas ds s) = contextRegistry s
  ∧ contextManifests (loadAllSchemas ds s) = contextManifests s.
Proof.
  unfold loadAllSchemas. destruct (contextRegistry s) as [registry|] eqn:Hreg; [|done].
  rewrite <- Hreg.
  split; apply fold_left_keeps; intros s' cm; apply fold_left_keeps; intros s'' v;
    apply fold_left_keeps; intros s3 f; apply loadListedSchema_keeps.
Qed.

Lemma fold_left_fixed {A S : Type} (body : S → A → S) (l : list A) (s : S) :
  (∀ x, x ∈ l → body s x = s) → fold_left body l s = s.
Proof.
  induction l as [|x l IH]; intros Hbody; [done|].
  simpl. rewrite Hbody by apply list_elem_of_here.
  apply IH. intros y Hy. by apply Hbody, list_elem_of_further.
Qed.

(** When every listed document is cached there is nothing to fetch. *)
Lemma loadAllSchemas_cached ds s :
  (∀ key, listed (contextManifests s) key → is_Some (schemas s !! key)) →
  loadAllSchemas ds s = s.
Proof.
  intros Hcached. unfold loadAllSchemas.
  destruct (contextRegistry s) as [registry|]; [|done].
  apply fold_left_fixed. intros [c m] Hcm. unfold loadListedContext. cbn [fst snd].
  apply fold_left_fixed. intros [v ve] Hv. unfold loadListedVersion. cbn [fst snd].
  apply fold_left_fixed. intros f Hf. unfold loadListedSchema.
  destruct (Hcached (cacheKey c v f)) as [d ->]; [|done].
  by exists c, m, v, ve, f.
Qed.

(** *** The round trip *)

Lemma registered_entry {V : Type} (c : string) (d : Dict.t V) :
  c ∈ Dict.keys d → ∃ e, Dict.get c d = Some e ∧ (c, e) ∈ d.
Proof.
  intros Hc. destruct (Dict.get c d) as [e|] eqn:Hget.
  - exists e. split; [done | by apply dict_get_Some_elem].
  - by apply dict_get_None in Hget.
Qed.



Lemma mutated_run (ds : DocumentStore) (actions : list Action) (s0 s : SchemaStoreState) :
  forallb is_mutation actions = true →
  mutated_from ds s0 s → mutated_from ds s0 (run ds actions s).
Proof.
  revert s. induction actions as [|a actions IH]; intros s Hall Hs; [done|].
  simpl in Hall. apply andb_true_iff in Hall as [Ha Hall].
  apply IH; [done|]. by constructor.
Qed.


(** * Further properties of the store *)

(** ** More on ordered dictionaries *)

Lemma dict_remove_set_fresh {V : Type} (k : string) (v : V) (d : Dict.t V) :
  k ∉ Dict.keys d → Dict.remove k (Dict.set k v d) = d.
Proof.
  unfold Dict.keys, Dict.remove. induction d as [|[k' v'] d IH]; csimpl; intros Hk.
  - rewrite filter_cons. simpl. by rewrite decide_False by (intros H; by apply H).
  - apply not_elem_of_cons in Hk as [Hne Hk].
    rewrite decide_False by done. rewrite filter_cons. simpl.
    rewrite decide_True by done. by rewrite IH.
Qed.

Lemma dict_set_id {V : Type} (k : string) (v : V) (d : Dict.t V) :
  Dict.get k d = Some v → Dict.set k v d = d.
Proof.
  induction d as [|[k' v'] d IH]; simpl; [done|].
  destruct (decide (k' = k)) as [->|Hne]; [by intros [= ->]|].
  intros H. by rewrite IH.
Qed.

Lemma dict_set_set {V : Type} (k : string) (v v' : V) (d : Dict.t V) :
  Dict.set k v' (Dict.set k v d) = Dict.set k v' d.
Proof.
  induction d as [|[k0 v0] d IH]; simpl.
  - by rewrite decide_True.
  - destruct (decide (k0 = k)) as [->|Hne]; simpl.
    + by rewrite decide_True.
    + rewrite decide_False by done. by rewrite IH.
Qed.

Lemma dict_keys_remove {V : Type} (k : string) (d : Dict.t V) :
  Dict.keys (Dict.remove k d) = filter (λ k', k' ≠ k) (Dict.keys d).
Proof.
  unfold Dict.keys, Dict.remove. induction d as [|[k' v'] d IH]; [done|].
  csimpl. rewrite !filter_cons. simpl.
  destruct (decide (k' ≠ k)); csimpl; by rewrite IH.
Qed.

(** ** Contexts *)

(** X1. With a loaded registry, [createContext] registers the context with
    default version ["1.0.0"] and folder equal to its name, gives it a
    manifest whose only version ["1.0.0"] lists the selected schemas
    (["core.json"] when none are given), leaves the entries and manifests of
    all other contexts and the cache as they are, and selecting the new
    context afterwards yields coherent cursors.  Without a registry it does
    nothing. *)
Theorem createContext_registers
    (now contextName displayName : string) (basedOn : option string)
    (selectedSchemas : option (list string)) (s : SchemaStoreState) :
  let s' := createContext now contextName displayName basedOn selectedSchemas s in
  (contextRegistry s = None → s' = s)
  ∧ ∀ registry, contextRegistry s = Some registry →
      ∃ registry' contextEntry manifest versionEntry,
        contextRegistry s' = Some registry'
        ∧ Dict.get contextName (registry_contexts registry') = Some contextEntry
        ∧ entry_defaultVersion contextEntry = "1.0.0"
        ∧ entry_path contextEntry = contextName
        ∧ Dict.get contextName (contextManifests s') = Some manifest
        ∧ manifest_versions manifest = [("1.0.0", versionEntry)]
        ∧ version_schemas versionEntry = default ["core.json"] selectedSchemas
        ∧ (∀ other, other ≠ contextName →
             Dict.get other (registry_contexts registry')
             = Dict.get other (registry_contexts registry)
             ∧ Dict.get other (contextManifests s') = Dict.get other (contextManifests s))
        ∧ schemas s' = schemas s
        ∧ cursors (setActiveContext contextName s') = (contextName, "1.0.0", None, None)
        ∧ coherent (setActiveContext contextName s') = true.
Proof.
  intros s'. unfold s', createContext. split; [by intros ->|].
  intros registry ->. do 4 eexists. simpl.
  split_and!;
    [done | apply dict_get_set_eq | done | done | apply dict_get_set_eq | done | done
     | | done | | ].
  - intros other Hne. cbn -[Dict.get Dict.set]. by rewrite !dict_get_set_ne.
  - unfold setActiveContext. cbn -[Dict.get Dict.set]. by rewrite dict_get_set_eq.
  - unfold setActiveContext. cbn -[Dict.get Dict.set]. rewrite dict_get_set_eq.
    unfold coherent, Dict.has. cbn -[Dict.get Dict.set]. rewrite !dict_get_set_eq.
    cbn. by rewrite decide_True.
Qed.

Lemma createContext_registers_witness :
  coherent
    (setActiveContext "draft"
       (createContext "2024-05-01T10:00:00.000Z" "draft" "Draft" (Some "default") None
          loaded_state)) = true.
Proof.
  destruct (createContext_registers "2024-05-01T10:00:00.000Z" "draft" "Draft"
              (Some "default") None loaded_state) as [_ H].
  destruct (H sample_registry eq_refl) as (? & ? & ? & ? & H'). apply H'.
Defined.



(** X3. [deleteContext] of a context other than ["default"], with a loaded
    registry, removes its registry entry and its manifest, keeps the entry
    and manifest of every other context, leaves every cached document in
    place (those of the deleted context included), and puts the context
    cursor on ["default"] while leaving the version, schema and field
    cursors where they were. *)
Theorem deleteContext_removes_context_only
    (contextName : string) (s : SchemaStoreState) (registry : ContextRegistry)
    (Hregistry : contextRegistry s = Some registry)
    (Hname : contextName ≠ "default") :
  let s' := deleteContext contextName s in
  ∃ registry',
    contextRegistry s' = Some registry'
    ∧ Dict.get contextName (registry_contexts registry') = None
    ∧ Dict.get contextName (contextManifests s') = None
    ∧ (∀ other, other ≠ contextName →
         Dict.get other (registry_contexts registry')
         = Dict.get other (registry_contexts registry)
         ∧ Dict.get other (contextManifests s') = Dict.get other (contextManifests s))
    ∧ registry_defaultContext registry' = registry_defaultContext registry
    ∧ schemas s' = schemas s
    ∧ cursors s' = ("default", activeVersion s, activeSchemaFile s, activeFieldId s)
    ∧ hasUnsavedChanges s' = true.
Proof.
  intros s'. unfold s', deleteContext. rewrite decide_False by done.
  rewrite Hregistry. eexists. simpl. split_and!; try done.
  - apply dict_get_remove_eq.
  - apply dict_get_remove_eq.
  - intros other Hne. cbn -[Dict.get Dict.remove]. by rewrite !dict_get_remove_ne.
Qed.

Lemma deleteContext_removes_context_only_witness :
  Dict.get "draft" (contextManifests (deleteContext "draft" two_context_state)) = None
  ∧ Dict.get "default" (contextManifests (deleteContext "draft" two_context_state))
    = Some sample_manifest.
Proof.
  destruct (deleteContext_removes_context_only "draft" two_context_state _ eq_refl)
    as (registry' & _ & _ & Hgone & Hkept & _); [discriminate|].
  split; [exact Hgone|].
  destruct (Hkept "default") as [_ ->]; [discriminate | reflexivity].
Defined.

(** ** Schema documents *)

Lemma filter_ne_fresh (f : string) (l : list string) :
  f ∉ l → filter (λ x, x ≠ f) (l ++ [f]) = l.
Proof.
  intros Hf. rewrite filter_app, filter_cons. simpl.
  rewrite decide_False by (intros H; by apply H). simpl. rewrite app_nil_r.
  induction l as [|x l IH]; [done|].
  apply not_elem_of_cons in Hf as [Hne Hf].
  rewrite filter_cons. simpl. rewrite decide_True by done. by rewrite IH.
Qed.

Lemma createSchema_effect
    (schemaFile profileId displayName : string) (s : SchemaStoreState) :
  let s' := createSchema schemaFile profileId displayName s in
  (∃ d, schemas s' !! activeKey s schemaFile = Some d
        ∧ schema_profileId d = profileId
        ∧ schema_version d = activeVersion s
        ∧ schema_fields d = []
        ∧ group_id <$> schema_groups d = ["general"])
  ∧ (∀ key, key ≠ activeKey s schemaFile → schemas s' !! key = schemas s !! key)
  ∧ cursors s' = (activeContext s, activeVersion s, Some schemaFile, activeFieldId s)
  ∧ contextRegistry s' = contextRegistry s
  ∧ (activeVersionEntry s = None → contextManifests s' = contextManifests s)
  ∧ (∀ versionEntry, activeVersionEntry s = Some versionEntry →
       useAvailableSchemas s'
       = if decide (schemaFile ∈ version_schemas versionEntry)
         then version_schemas versionEntry
         else version_schemas versionEntry ++ [schemaFile]).
Proof.
  intros s'. unfold s', createSchema, activeVersionEntry, useAvailableSchemas, activeKey.
  destruct (Dict.get (activeContext s) (contextManifests s)) as [m|] eqn:Hm.
  2:{ simpl. rewrite lookup_insert_eq, Hm. split_and!; try done.
      - by eexists.
      - intros key Hkey. by rewrite lookup_insert_ne. }
  destruct (Dict.get (activeVersion s) (manifest_versions m)) as [ve|] eqn:Hve.
  2:{ simpl. rewrite lookup_insert_eq, Hm, Hve. split_and!; try done.
      - by eexists.
      - intros key Hkey. by rewrite lookup_insert_ne. }
  unfold includes. destruct (decide (schemaFile ∈ version_schemas ve)) as [Hin|Hnotin].
  - rewrite bool_decide_eq_true_2 by done. simpl. rewrite lookup_insert_eq, Hm, Hve.
    split_and!; try done.
    + by eexists.
    + intros key Hkey. by rewrite lookup_insert_ne.
    + intros ? [= <-]. by rewrite decide_True.
  - rewrite bool_decide_eq_false_2 by done. cbn -[Dict.get Dict.set].
    rewrite lookup_insert_eq, !dict_get_set_eq. cbn -[Dict.get Dict.set].
    rewrite dict_get_set_eq. split_and!; try done.
    + by eexists.
    + intros key Hkey. by rewrite lookup_insert_ne.
    + intros ? [= <-]. by rewrite decide_False.
Qed.





(** ** Fields *)

(** X6. [addField] appends the field to the cached document, whether or
    not a field with the same id exists, and puts the field cursor on its
    id.  If the document is the active schema and the id is new (and not
    empty), [useActiveField] then yields the added field; if a field with
    that id existed already, [useActiveField] yields the first such field,
    not the added one. *)
Theorem addField_selects
    (schemaFile : string) (field : SchemaField) (s : SchemaStoreState)
    (d : SchemaDefinition)
    (Hcached : schemas s !! activeKey s schemaFile = Some d) :
  let s' := addField schemaFile field s in
  schemas s' !! activeKey s schemaFile = Some (set_fields (schema_fields d ++ [field]) d)
  ∧ activeFieldId s' = Some (field_id field)
  ∧ (activeSchemaFile s = Some schemaFile → schemaFile ≠ "" → field_id field ≠ "" →
     (field_id field ∉ field_id <$> schema_fields d → useActiveField s' = Some field)
     ∧ ∀ i old, list_find (λ f, field_id f = field_id field) (schema_fields d) = Some (i, old) →
         useActiveField s' = Some old).
Proof.
  intros s'. unfold s', addField. rewrite Hcached. cbn. rewrite lookup_insert_eq.
  split_and!; [done | done |].
  intros Hactive Hfile Hid.
  unfold useActiveField, useActiveSchema. cbn. rewrite Hactive.
  replace (truthy schemaFile) with true by (by destruct schemaFile).
  replace (truthy (field_id field)) with true by (by destruct (field_id field)).
  unfold activeKey in *. cbn. rewrite lookup_insert_eq. cbn. split.
  - intros Hfresh. rewrite list_find_app_r.
    + cbn. by rewrite decide_True.
    + apply list_find_None, Forall_forall. intros f Hf Heq. apply Hfresh.
      apply list_elem_of_fmap. by exists f.
  - intros i old Hold. by erewrite list_find_app_l.
Qed.

Lemma addField_selects_witness :
  useActiveField (addField "core.json" (sample_field "cclom:new" None) loaded_state)
  = Some (sample_field "cclom:new" None)
  ∧ useActiveField (addField "core.json" (sample_field "cclom:title" None) loaded_state)
    = Some (sample_field "cclom:title" (Some "general")).
Proof.
  split.
  - destruct (addField_selects "core.json" (sample_field "cclom:new" None) loaded_state
                sample_schema eq_refl) as (_ & _ & H).
    destruct H as [H _]; [reflexivity | discriminate | discriminate |].
    apply H. vm_compute. intros Hin.
    repeat (apply elem_of_cons in Hin as [Hin|Hin]; [discriminate Hin|]).
    by apply elem_of_nil in Hin.
  - destruct (addField_selects "core.json" (sample_field "cclom:title" None) loaded_state
                sample_schema eq_refl) as (_ & _ & H).
    destruct H as [_ H]; [reflexivity | discriminate | discriminate |].
    by apply (H 0%nat).
Defined.

Lemma filter_id_fresh (fieldId : string) (field : SchemaField) (fields : list SchemaField) :
  field_id field = fieldId → fieldId ∉ field_id <$> fields →
  filter (λ f, field_id f ≠ fieldId) (fields ++ [field]) = fields.
Proof.
  intros Hid Hfresh. rewrite filter_app, filter_cons. simpl.
  rewrite decide_False by (intros H; by apply H). simpl. rewrite app_nil_r.
  induction fields as [|x l IH]; [done|]. csimpl in Hfresh.
  apply not_elem_of_cons in Hfresh as [Hne Hfresh].
  rewrite filter_cons. simpl. rewrite decide_True by done. by rewrite IH.
Qed.

(** X7. Adding a field whose id no field of the cached document has, and
    deleting the field with that id again, gives back the document exactly;
    the field cursor is cleared. *)
Theorem addField_deleteField_roundtrip
    (schemaFile : string) (field : SchemaField) (s : SchemaStoreState)
    (d : SchemaDefinition)
    (Hcached : schemas s !! activeKey s schemaFile = Some d)
    (Hfresh : field_id field ∉ field_id <$> schema_fields d) :
  let s' := deleteField schemaFile (field_id field) (addField schemaFile field s) in
  schemas s' = schemas s
  ∧ contextManifests s' = contextManifests s
  ∧ cursors s' = (activeContext s, activeVersion s, activeSchemaFile s, None).
Proof.
  intros s'. unfold s', deleteField, addField. rewrite Hcached.
  unfold activeKey in *. cbn. rewrite lookup_insert_eq. cbn.
  rewrite insert_insert_eq, filter_id_fresh by done.
  split_and!; [|done|done].
  apply insert_id. rewrite Hcached. f_equal. by destruct d.
Qed.

Lemma addField_deleteField_roundtrip_witness :
  schemas (deleteField "core.json" "cclom:new"
             (addField "core.json" (sample_field "cclom:new" None) loaded_state))
  = schemas loaded_state.
Proof.
  eapply (addField_deleteField_roundtrip "core.json" (sample_field "cclom:new" None)
            loaded_state sample_schema eq_refl).
  vm_compute. intros Hin.
  repeat (apply elem_of_cons in Hin as [Hin|Hin]; [discriminate Hin|]).
  by apply elem_of_nil in Hin.
Defined.

(** The index at which [moveField] puts the field: [newIndex], clamped to
    the positions of the list, a negative index counting from the end. *)
Lemma splice_insert_lookup {A : Type} (start : Z) (x : A) (l : list A) :
  splice_insert start x l !! splice_start (length l) start = Some x
  ∧ splice_remove (splice_start (length l) start) (splice_insert start x l) = l.
Proof.
  unfold splice_insert, splice_remove.
  pose proof (splice_start_bound (length l) start) as Hle.
  generalize dependent (splice_start (length l) start). intros j Hle.
  assert (Hlen : length (take j l) = j) by (rewrite length_take; lia).
  split.
  - rewrite <- Hlen at 3. apply list_lookup_middle. done.
  - rewrite take_app_length' by done.
    replace (S j) with (j + 1)%nat by lia. rewrite <- drop_drop.
    rewrite drop_app_length' by done. simpl. by rewrite drop_0, take_drop.
Qed.

(** X8. [moveField] puts the first field with the given id at position
    [newIndex] when [0 <= newIndex < length], at the last position when
    [newIndex] is larger, and [-k] positions before the last one (not
    before the first) when [newIndex = -k] is negative; the other fields
    keep their relative order.  Moving a field to the index it has leaves
    the fields as they are. *)
Theorem moveField_position
    (schemaFile fieldId : string) (newIndex : Z) (s : SchemaStoreState)
    (d : SchemaDefinition) (i : nat) (field : SchemaField)
    (Hcached : schemas s !! activeKey s schemaFile = Some d)
    (Hfield : list_find (λ f, field_id f = fieldId) (schema_fields d) = Some (i, field)) :
  let last := (length (schema_fields d) - 1)%nat in
  let j := if decide (newIndex < 0)%Z
           then Z.to_nat (Z.max (Z.of_nat last + newIndex) 0)
           else Z.to_nat (Z.min newIndex (Z.of_nat last)) in
  ∃ d', schemas (moveField schemaFile fieldId newIndex s) !! activeKey s schemaFile = Some d'
    ∧ length (schema_fields d') = length (schema_fields d)
    ∧ schema_fields d' !! j = Some field
    ∧ splice_remove j (schema_fields d') = splice_remove i (schema_fields d)
    ∧ (newIndex = Z.of_nat i → schema_fields d' = schema_fields d).
Proof.
  intros last j. unfold moveField. rewrite Hcached, Hfield. cbn.
  rewrite lookup_insert_eq. eexists. split; [done|]. cbn.
  apply list_find_Some in Hfield as (Hi & _ & _).
  pose proof (lookup_lt_Some _ _ _ Hi) as Hlt.
  assert (Hlen : length (splice_remove i (schema_fields d)) = last).
  { unfold splice_remove, last. rewrite length_app, length_take, length_drop. lia. }
  assert (Hj : j = splice_start (length (splice_remove i (schema_fields d))) newIndex).
  { rewrite Hlen. done. }
  destruct (splice_insert_lookup newIndex field (splice_remove i (schema_fields d)))
    as [Hat Hrest].
  rewrite <- Hj in Hat, Hrest. split_and!; [|done|done|].
  - unfold splice_insert. rewrite length_app. simpl.
    rewrite length_take, length_drop, Hlen. unfold last. lia.
  - intros ->. unfold splice_insert.
    replace (splice_start _ _) with i.
    2:{ rewrite Hlen. unfold splice_start. rewrite decide_False by lia. unfold last. lia. }
    unfold splice_remove.
    assert (Hti : length (take i (schema_fields d)) = i) by (rewrite length_take; lia).
    rewrite take_app_length', drop_app_length' by done.
    by apply take_drop_middle.
Qed.

Lemma moveField_position_witness :
  ∃ d', schemas (moveField "core.json" "cclom:title" 1 loaded_state)
          !! "default@1.8.0/core.json" = Some d'
        ∧ field_id <$> schema_fields d' = ["cclom:keyword"; "cclom:title"; "cclom:note"].
Proof.
  destruct (moveField_position "core.json" "cclom:title" 1 loaded_state sample_schema 0%nat
              (sample_field "cclom:title" (Some "general")) eq_refl eq_refl)
    as (d' & Hd' & _).
  exists d'. split; [exact Hd'|].
  vm_compute in Hd'. injection Hd' as <-. reflexivity.
Defined.

(** ** Groups *)

Lemma groupFields_buckets (fields : list SchemaField)
    (acc : Dict.t (list SchemaField) * list SchemaField) :
  (∀ g, default [] (Dict.get g (fold_left groupField fields acc).1)
        = default [] (Dict.get g acc.1)
          ++ filter (λ f, field_group f = Some g ∧ truthy g = true) fields)
  ∧ (fold_left groupField fields acc).2
    = acc.2 ++ filter (λ f, truthy_opt (field_group f) = false) fields.
Proof.
  revert acc. induction fields as [|f fields IH]; intros acc.
  - split; [intros g|]; by rewrite app_nil_r.
  - simpl. destruct (IH (groupField acc f)) as [IH1 IH2]. split.
    + intros g. rewrite IH1, filter_cons. unfold groupField.
      destruct (decide (field_group f = Some g ∧ truthy g = true)) as [[Hg Ht]|Hno].
      * rewrite Hg. simpl. rewrite Ht. simpl. rewrite dict_get_set_eq. simpl.
        by rewrite <- app_assoc.
      * destruct (truthy_opt (field_group f)) eqn:Ht; simpl; [|done].
        destruct (field_group f) as [g'|]; [|done]. simpl in *.
        rewrite dict_get_set_ne; [done|]. intros ->. by apply Hno.
    + rewrite IH2, filter_cons. unfold groupField.
      destruct (truthy_opt (field_group f)) eqn:Ht; simpl; [done|].
      by rewrite <- app_assoc.
Qed.

Lemma renderedFields_elem (schema : SchemaDefinition) (field : SchemaField) :
  field ∈ renderedFields schema
  ↔ field ∈ schema_fields schema
    ∧ (truthy_opt (field_group field) = false
       ∨ ∃ group, group ∈ schema_groups schema ∧ field_group field = Some (group_id group)).
Proof.
  unfold renderedFields, groupFields.
  destruct (groupFields_buckets (schema_fields schema) ([], [])) as [Hby Hun].
  rewrite elem_of_app, Hun, list_elem_of_bind. simpl. split.
  - intros [(group & Hin & Hgroup)|Hin].
    + rewrite Hby in Hin. simpl in Hin. apply list_elem_of_filter in Hin as [[Hg _] Hin].
      split; [done|]. right. by exists group.
    + apply list_elem_of_filter in Hin as [Hg Hin]. split; [done | by left].
  - intros [Hin [Hg|(group & Hgroup & Hg)]].
    + right. by apply list_elem_of_filter.
    + destruct (truthy (group_id group)) eqn:Ht.
      * left. exists group. split; [|done]. rewrite Hby. simpl.
        by apply list_elem_of_filter.
      * right. apply list_elem_of_filter. split; [|done]. by rewrite Hg.
Qed.


(** X10. If the schema editor shows every field of a cached document, it
    still shows every field after [deleteGroup]: the fields of the deleted
    group are rendered among those without group.  (Removing the group alone
    would have hidden them.) *)
Theorem deleteGroup_keeps_fields_shown
    (schemaFile G : string) (s : SchemaStoreState) (d : SchemaDefinition)
    (Hcached : schemas s !! activeKey s schemaFile = Some d)
    (Hshown : ∀ f, f ∈ schema_fields d → f ∈ renderedFields d) :
  ∃ d', schemas (deleteGroup schemaFile G s) !! activeKey s schemaFile = Some d'
    ∧ (∀ f', f' ∈ schema_fields d' → f' ∈ renderedFields d')
    ∧ ∀ f, f ∈ schema_fields d → field_group f = Some G →
        set_field_group None f ∈ (groupFields (schema_fields d')).2.
Proof.
  unfold deleteGroup. rewrite Hcached.
  set (fields' := map (λ f, if decide (field_group f = Some G)
                            then set_field_group None f else f) (schema_fields d)).
  set (d' := set_fields fields' _).
  assert (Hfields : schema_fields d' = fields') by done.
  assert (Hgroups : schema_groups d' = filter (λ g, group_id g ≠ G) (schema_groups d))
    by done.
  exists d'. split; [cbn; apply lookup_insert_eq|]. clearbody d'. split.
  - intros f' Hf'. apply renderedFields_elem. split; [done|].
    rewrite Hfields in Hf'. apply list_elem_of_fmap in Hf' as (f & -> & Hf).
    destruct (decide (field_group f = Some G)) as [HG|HG]; [by left|].
    apply Hshown, renderedFields_elem in Hf as [_ [Hnone|(group & Hgroup & Hg)]];
      [by left|].
    right. exists group. split; [|done]. rewrite Hgroups.
    apply list_elem_of_filter. split; [|done]. intros Heq. apply HG. by rewrite Hg, Heq.
  - intros f Hf HG. unfold groupFields. rewrite Hfields.
    destruct (groupFields_buckets fields' ([], [])) as [_ ->].
    simpl. apply list_elem_of_filter. split; [done|].
    apply list_elem_of_fmap. exists f. by rewrite decide_True.
Qed.

Lemma deleteGroup_keeps_fields_shown_witness :
  ∃ d', schemas (deleteGroup "core.json" "general" loaded_state)
          !! "default@1.8.0/core.json" = Some d'
        ∧ field_id <$> renderedFields d' = ["cclom:keyword"; "cclom:title"; "cclom:note"].
Proof.
  destruct (deleteGroup_keeps_fields_shown "core.json" "general" loaded_state sample_schema
              eq_refl) as (d' & Hd' & _).
  - intros f Hf. apply renderedFields_elem. split; [done|].
    repeat (apply elem_of_cons in Hf as [->|Hf]);
      [right; exists (sample_group "general"); split; [apply list_elem_of_here | done]
      |right; exists (sample_group "extra");
         split; [apply list_elem_of_further, list_elem_of_here | done]
      |by left
      |by apply elem_of_nil in Hf].
  - exists d'. split; [exact Hd'|].
    vm_compute in Hd'. injection Hd' as <-. reflexivity.
Defined.

Lemma map_clear_group_id (G : string) (fields : list SchemaField) :
  (∀ f, f ∈ fields → field_group f ≠ Some G) →
  map (λ f, if decide (field_group f = Some G) then set_field_group None f else f) fields
  = fields.
Proof.
  induction fields as [|f fields IH]; intros Hnone; [done|]. simpl.
  rewrite decide_False by apply Hnone, list_elem_of_here.
  rewrite IH; [done|]. intros g Hg. by apply Hnone, list_elem_of_further.
Qed.

(** X11. Adding a group whose id neither a group nor a field of the cached
    document uses, and deleting it again, gives back the document
    exactly. *)
Theorem addGroup_deleteGroup_roundtrip
    (schemaFile : string) (group : SchemaGroup) (s : SchemaStoreState)
    (d : SchemaDefinition)
    (Hcached : schemas s !! activeKey s schemaFile = Some d)
    (Hfresh : group_id group ∉ group_id <$> schema_groups d)
    (Hunused : ∀ f, f ∈ schema_fields d → field_group f ≠ Some (group_id group)) :
  schemas (deleteGroup schemaFile (group_id group) (addGroup schemaFile group s)) = schemas s.
Proof.
  unfold deleteGroup, addGroup. rewrite Hcached.
  unfold activeKey in *. cbn. rewrite lookup_insert_eq. cbn.
  rewrite insert_insert_eq, map_clear_group_id by done.
  apply insert_id. rewrite Hcached. f_equal.
  rewrite filter_app, filter_cons. simpl.
  rewrite decide_False by (intros H; by apply H). simpl. rewrite app_nil_r.
  replace (filter (λ g, group_id g ≠ group_id group) (schema_groups d))
    with (schema_groups d); [by destruct d|].
  clear -Hfresh. induction (schema_groups d) as [|g gs IH]; [done|]. csimpl in Hfresh.
  apply not_elem_of_cons in Hfresh as [Hne Hfresh].
  rewrite filter_cons. simpl. rewrite decide_True by done. by rewrite <- IH.
Qed.

Lemma addGroup_deleteGroup_roundtrip_witness :
  schemas (deleteGroup "core.json" "rights" (addGroup "core.json" (sample_group "rights") loaded_state))
  = schemas loaded_state.
Proof.
  apply (addGroup_deleteGroup_roundtrip "core.json" (sample_group "rights") loaded_state
           sample_schema eq_refl).
  - vm_compute. intros Hin.
    repeat (apply elem_of_cons in Hin as [Hin|Hin]; [discriminate Hin|]).
    by apply elem_of_nil in Hin.
  - intros f Hf.
    repeat (apply elem_of_cons in Hf as [->|Hf]; [discriminate|]).
    by apply elem_of_nil in Hf.
Defined.

(** ** Content types, again *)

(** The content-type vocabulary of the active [core.json], when there is
    one: what [getContentTypes], [addContentType] and [removeContentType]
    all look up first. *)
Lemma updateContentTypes_concepts
    (change : list VocabularyConcept → list VocabularyConcept)
    (s : SchemaStoreState) (core : SchemaDefinition) (i : nat) (field : SchemaField)
    (vocabulary : Vocabulary) :
  schemas s !! activeKey s "core.json" = Some core →
  list_find (λ f, field_id f = contentTypeFieldId) (schema_fields core) = Some (i, field) →
  system_vocabulary (field_system field) = Some vocabulary →
  ∃ core' field',
    schemas (updateContentTypes change s) !! activeKey s "core.json" = Some core'
    ∧ list_find (λ f, field_id f = contentTypeFieldId) (schema_fields core') = Some (i, field')
    ∧ system_vocabulary (field_system field')
      = Some (set_concepts (change (vocabulary_concepts vocabulary)) vocabulary)
    ∧ activeContext (updateContentTypes change s) = activeContext s
    ∧ activeVersion (updateContentTypes change s) = activeVersion s.
Proof.
  intros Hcore Hfind Hvoc. unfold updateContentTypes. rewrite Hcore, Hfind, Hvoc.
  set (field' := set_field_system _ field).
  exists (set_fields (<[i := field']> (schema_fields core)) core), field'.
  split_and!; [cbn; apply lookup_insert_eq | | done | done | done].
  cbn. apply list_find_Some in Hfind as (Hi & Hid & Hfirst).
  apply list_find_insert_Some. right; left.
  split_and!; [done | done | by eapply lookup_lt_Some | done | done].
Qed.

Lemma getContentTypes_of_concepts (s : SchemaStoreState) (core : SchemaDefinition)
    (i : nat) (field : SchemaField) (concepts : list VocabularyConcept) :
  schemas s !! activeKey s "core.json" = Some core →
  list_find (λ f, field_id f = contentTypeFieldId) (schema_fields core) = Some (i, field) →
  vocabulary_concepts <$> system_vocabulary (field_system field) = Some concepts →
  getContentTypes s
  = map (λ c, {| ct_label := concept_label c;
                 ct_icon := or_else (concept_icon c) "article";
                 ct_schema_file := to_key (concept_schema_file c) |})
      (filter (λ c, truthy_opt (concept_schema_file c) = true) concepts).
Proof.
  intros Hcore Hfind Hvoc. unfold getContentTypes. rewrite Hcore, Hfind.
  destruct (system_vocabulary (field_system field)); [|done]. by injection Hvoc as <-.
Qed.

Lemma addContentType_effect
    (contentType : ContentType) (s : SchemaStoreState) (core : SchemaDefinition)
    (i : nat) (field : SchemaField) (vocabulary : Vocabulary)
    (Hcore : schemas s !! activeKey s "core.json" = Some core)
    (Hfield : list_find (λ f, field_id f = contentTypeFieldId) (schema_fields core)
              = Some (i, field))
    (Hvocabulary : system_vocabulary (field_system field) = Some vocabulary) :
  getContentTypes (addContentType contentType s)
  = getContentTypes s
    ++ (if truthy (ct_schema_file contentType)
        then [ {| ct_label := ct_label contentType;
                  ct_icon := or_else (Some (ct_icon contentType)) "article";
                  ct_schema_file := ct_schema_file contentType |} ]
        else []).
Proof.
  unfold addContentType.
  match goal with
  | |- context [updateContentTypes ?change s] =>
      destruct (updateContentTypes_concepts change s core i field vocabulary
                  Hcore Hfield Hvocabulary)
        as (core' & field' & Hcore' & Hfield' & Hvoc' & Hc & Hv)
  end.
  erewrite (getContentTypes_of_concepts _ core' i field').
  2:{ unfold activeKey in *. by rewrite Hc, Hv. }
  2:{ done. }
  2:{ by rewrite Hvoc'. }
  erewrite (getContentTypes_of_concepts s core i field); [|done|done|by rewrite Hvocabulary].
  unfold set_concepts. cbn [vocabulary_concepts].
  rewrite filter_app, map_app. f_equal.
  rewrite filter_cons. cbn.
  by destruct (truthy (ct_schema_file contentType)).
Qed.

(** X12. When the active [core.json] has the content-type field with a
    vocabulary, [getContentTypes] after [addContentType] is the list before
    with the new entry at the end (its icon replaced by ["article"] if
    empty), provided the entry has a non-empty schema file; with an empty
    schema file the concept is stored but [getContentTypes] does not show
    it. *)
Theorem addContentType_listed
    (contentType : ContentType) (s : SchemaStoreState) (core : SchemaDefinition)
    (i : nat) (field : SchemaField) (vocabulary : Vocabulary)
    (Hcore : schemas s !! activeKey s "core.json" = Some core)
    (Hfield : list_find (λ f, field_id f = contentTypeFieldId) (schema_fields core)
              = Some (i, field))
    (Hvocabulary : system_vocabulary (field_system field) = Some vocabulary) :
  getContentTypes (addContentType contentType s)
  = getContentTypes s
    ++ (if truthy (ct_schema_file contentType)
        then [ {| ct_label := ct_label contentType;
                  ct_icon := or_else (Some (ct_icon contentType)) "article";
                  ct_schema_file := ct_schema_file contentType |} ]
        else []).
Proof. intros; by eapply addContentType_effect. Qed.

Lemma addContentType_listed_witness :
  getContentTypes
    (addContentType (mkContentType (Plain "Person") "" "person.json") content_type_state)
  = getContentTypes content_type_state ++ [mkContentType (Plain "Person") "article" "person.json"].
Proof.
  exact (addContentType_listed (mkContentType (Plain "Person") "" "person.json")
           content_type_state _ 1%nat _ _ eq_refl eq_refl eq_refl).
Defined.

Lemma project_without_file (schemaFile : string) (concepts : list VocabularyConcept) :
  map (λ c, {| ct_label := concept_label c;
               ct_icon := or_else (concept_icon c) "article";
               ct_schema_file := to_key (concept_schema_file c) |})
    (filter (λ c, truthy_opt (concept_schema_file c) = true)
       (filter (λ c, concept_schema_file c ≠ Some schemaFile) concepts))
  = filter (λ ct, ct_schema_file ct ≠ schemaFile)
      (map (λ c, {| ct_label := concept_label c;
                    ct_icon := or_else (concept_icon c) "article";
                    ct_schema_file := to_key (concept_schema_file c) |})
         (filter (λ c, truthy_opt (concept_schema_file c) = true) concepts)).
Proof.
  induction concepts as [|c cs IH]; [done|].
  rewrite (filter_cons (λ c, truthy_opt (concept_schema_file c) = true) c cs).
  rewrite (filter_cons (λ c, concept_schema_file c ≠ Some schemaFile) c cs).
  destruct (decide (truthy_opt (concept_schema_file c) = true)) as [Ht|Ht];
    destruct (decide (concept_schema_file c ≠ Some schemaFile)) as [Hne|Heq].
  - rewrite filter_cons, decide_True by done. cbn [map]. rewrite filter_cons.
    rewrite decide_True; [by rewrite IH|]. cbn.
    destruct (concept_schema_file c); [|done]. cbn. congruence.
  - cbn [map]. rewrite filter_cons. rewrite decide_False; [done|].
    apply dec_stable in Heq. cbn. rewrite Heq. cbn. intros H. by apply H.
  - by rewrite filter_cons, decide_False by done.
  - done.
Qed.

(** X13. When the active [core.json] has the content-type field with a
    vocabulary, [getContentTypes] after [removeContentType(file)] is the
    list before without the entries for [file]; so removing a content type
    right after adding it, when none was registered for its file, gives
    back the list. *)
Theorem removeContentType_unlisted
    (schemaFile : string) (s : SchemaStoreState) (core : SchemaDefinition)
    (i : nat) (field : SchemaField) (vocabulary : Vocabulary)
    (Hcore : schemas s !! activeKey s "core.json" = Some core)
    (Hfield : list_find (λ f, field_id f = contentTypeFieldId) (schema_fields core)
              = Some (i, field))
    (Hvocabulary : system_vocabulary (field_system field) = Some vocabulary) :
  getContentTypes (removeContentType schemaFile s)
  = filter (λ ct, ct_schema_file ct ≠ schemaFile) (getContentTypes s)
  ∧ ∀ contentType,
      ct_schema_file contentType = schemaFile →
      (∀ ct, ct ∈ getContentTypes s → ct_schema_file ct ≠ schemaFile) →
      getContentTypes (removeContentType schemaFile (addContentType contentType s))
      = getContentTypes s.
Proof.
  assert (Hremove : ∀ s' core' i' field' vocabulary',
            schemas s' !! activeKey s' "core.json" = Some core' →
            list_find (λ f, field_id f = contentTypeFieldId) (schema_fields core')
            = Some (i', field') →
            system_vocabulary (field_system field') = Some vocabulary' →
            getContentTypes (removeContentType schemaFile s')
            = filter (λ ct, ct_schema_file ct ≠ schemaFile) (getContentTypes s')).
  { clear. intros s core i field vocabulary Hcore Hfield Hvocabulary.
    unfold removeContentType.
    destruct (updateContentTypes_concepts
                (filter (λ c, concept_schema_file c ≠ Some schemaFile))
                s core i field vocabulary Hcore Hfield Hvocabulary)
      as (core' & field' & Hcore' & Hfield' & Hvoc' & Hc & Hv).
    erewrite (getContentTypes_of_concepts _ core' i field').
    2:{ unfold activeKey in *. by rewrite Hc, Hv. }
    2:{ done. }
    2:{ by rewrite Hvoc'. }
    erewrite (getContentTypes_of_concepts s core i field); [|done|done|by rewrite Hvocabulary].
    unfold set_concepts. cbn [vocabulary_concepts].
    apply project_without_file. }
  split; [by eapply Hremove|].
  intros contentType Hfile Hnone.
  destruct (updateContentTypes_concepts
              (λ concepts, concepts ++ [ {| concept_label := ct_label contentType;
                                            concept_uri := None; concept_value := None;
                                            concept_description := None;
                                            concept_altLabels := None;
                                            concept_icon := Some (ct_icon contentType);
                                            concept_schema_file := Some (ct_schema_file contentType);
                                            concept_broader := None;
                                            concept_narrower := None |} ])
              s core i field vocabulary Hcore Hfield Hvocabulary)
    as (core' & field' & Hcore' & Hfield' & Hvoc' & Hc & Hv).
  fold (addContentType contentType s) in Hcore', Hc, Hv.
  erewrite (Hremove (addContentType contentType s) core' i field'); [| |done|done].
  2:{ unfold activeKey in *. by rewrite Hc, Hv. }
  rewrite (addContentType_effect contentType s core i field vocabulary) by done.
  rewrite filter_app.
  replace (filter _ (getContentTypes s)) with (getContentTypes s).
  - destruct (truthy (ct_schema_file contentType)); [|by rewrite app_nil_r].
    rewrite filter_cons. cbn. rewrite decide_False by (intros H; by apply H).
    by rewrite app_nil_r.
  - clear -Hnone. induction (getContentTypes s) as [|ct cts IH]; [done|].
    rewrite filter_cons. rewrite decide_True by apply Hnone, list_elem_of_here.
    rewrite <- IH; [done|]. intros ct' Hct'. by apply Hnone, list_elem_of_further.
Qed.

Lemma removeContentType_unlisted_witness :
  getContentTypes (removeContentType "event.json" content_type_state)
  = [mkContentType (Localized (mkLocalizedString "Kurs" "Course")) "article" "course.json"].
Proof.
  destruct (removeContentType_unlisted "event.json" content_type_state _ 1%nat _ _
              eq_refl eq_refl eq_refl) as [H _].
  rewrite H. reflexivity.
Defined.

(** ** The schema dialog *)

Lemma endsWith_app (s suffix : string) : endsWith (s +:+ suffix) suffix = true.
Proof.
  induction s as [|a s IH]; simpl.
  - destruct suffix as [|b suffix]; [done|]. simpl.
    by destruct (decide (String b suffix = String b suffix)).
  - by destruct (decide (String a (s +:+ suffix) = suffix)).
Qed.

Lemma updateContentTypes_other_slots
    (change : list VocabularyConcept → list VocabularyConcept) (s : SchemaStoreState)
    (key : string) :
  key ≠ activeKey s "core.json" →
  schemas (updateContentTypes change s) !! key = schemas s !! key.
Proof.
  intros Hkey. unfold updateContentTypes.
  destruct (schemas s !! activeKey s "core.json"); [|done].
  destruct (list_find _ _) as [[? ?]|]; [|done].
  destruct (system_vocabulary _); [|done]. cbn. by rewrite lookup_insert_ne.
Qed.

Lemma schemaFileName_json (schemaFile : string) :
  endsWith (schemaFileName schemaFile) ".json" = true.
Proof.
  unfold schemaFileName. destruct (endsWith schemaFile ".json") eqn:H; [done|].
  apply endsWith_app.
Qed.

Lemma activeKey_inj (s : SchemaStoreState) (f1 f2 : string) :
  activeKey s f1 = activeKey s f2 → f1 = f2.
Proof. apply cacheKey_file_inj. Qed.



(** ** Changelog and the unsaved flag *)

(** X15. [addChangelogEntry] puts the entry in front of the changelog of
    the given version (newest first), keeps the rest of the version entry,
    the other versions and the other manifests, and, unlike the other
    mutations, does not mark the state unsaved.  For an unknown context or
    version it does nothing. *)
Theorem addChangelogEntry_prepends
    (contextName version : string) (entry : ChangelogEntry) (s : SchemaStoreState) :
  let s' := addChangelogEntry contextName version entry s in
  hasUnsavedChanges s' = hasUnsavedChanges s
  ∧ schemas s' = schemas s
  ∧ contextRegistry s' = contextRegistry s
  ∧ (∀ other, other ≠ contextName →
       Dict.get other (contextManifests s') = Dict.get other (contextManifests s))
  ∧ match Dict.get contextName (contextManifests s) with
    | None => s' = s
    | Some manifest =>
        match Dict.get version (manifest_versions manifest) with
        | None => s' = s
        | Some versionEntry =>
            ∃ manifest' versionEntry',
              Dict.get contextName (contextManifests s') = Some manifest'
              ∧ Dict.get version (manifest_versions manifest') = Some versionEntry'
              ∧ version_changelog versionEntry'
                = Some (entry :: default [] (version_changelog versionEntry))
              ∧ version_schemas versionEntry' = version_schemas versionEntry
              ∧ version_releaseDate versionEntry' = version_releaseDate versionEntry
              ∧ version_isDefault versionEntry' = version_isDefault versionEntry
              ∧ Dict.keys (manifest_versions manifest') = Dict.keys (manifest_versions manifest)
              ∧ ∀ v, v ≠ version →
                  Dict.get v (manifest_versions manifest')
                  = Dict.get v (manifest_versions manifest)
        end
    end.
Proof.
  intros s'. unfold s', addChangelogEntry.
  destruct (Dict.get contextName (contextManifests s)) as [manifest|] eqn:Hm;
    [|by split_and!].
  destruct (Dict.get version (manifest_versions manifest)) as [versionEntry|] eqn:Hv;
    [|by split_and!].
  cbn -[Dict.get Dict.set]. split_and!; try done.
  - intros other Hne. by rewrite dict_get_set_ne.
  - rewrite dict_get_set_eq.
    set (versionEntry' := set_version_changelog _ versionEntry).
    exists (set_manifest_versions
              (Dict.set version versionEntry' (manifest_versions manifest)) manifest),
      versionEntry'.
    cbn -[Dict.get Dict.set Dict.keys]. rewrite dict_get_set_eq. split_and!; try done.
    + rewrite dict_keys_set. unfold Dict.has. by rewrite Hv.
    + intros v Hne. by rewrite dict_get_set_ne.
Qed.

Ltac unchanged := left; split_and!; (done || congruence).

(** X16. Every mutation of the repository other than [addChangelogEntry]
    either leaves the registry, the manifests and the cache all unchanged,
    or marks the state unsaved. *)
Theorem mutations_mark_unsaved (ds : DocumentStore) (a : Action) (s : SchemaStoreState)
    (Hmutation : is_mutation a = true)
    (Hchangelog : ∀ c v e, a ≠ AddChangelogEntry c v e) :
  (contextRegistry (step ds a s) = contextRegistry s
   ∧ contextManifests (step ds a s) = contextManifests s
   ∧ schemas (step ds a s) = schemas s)
  ∨ hasUnsavedChanges (step ds a s) = true.
Proof.
  destruct a; try discriminate Hmutation; simpl.
  - unfold createContext. destruct (contextRegistry s) eqn:?; [by right | unchanged].
  - unfold deleteContext. case_decide; [unchanged|].
    destruct (contextRegistry s) eqn:?; [by right | unchanged].
  - unfold createVersion. destruct (Dict.get _ _) eqn:?; [by right | unchanged].
  - unfold deleteVersion. destruct (Dict.get _ _) eqn:?; [|unchanged].
    case_decide; [unchanged | by right].
  - by right.
  - by right.
  - unfold updateSchema. destruct (schemas s !! _) eqn:?; [by right | unchanged].
  - unfold addField. destruct (schemas s !! _) eqn:?; [by right | unchanged].
  - unfold updateField. destruct (schemas s !! _) eqn:?; [by right | unchanged].
  - unfold deleteField. destruct (schemas s !! _) eqn:?; [by right | unchanged].
  - unfold moveField. destruct (schemas s !! _) eqn:?; [|unchanged].
    destruct (list_find _ _) as [[? ?]|] eqn:?; [by right | unchanged].
  - unfold addGroup. destruct (schemas s !! _) eqn:?; [by right | unchanged].
  - unfold updateGroup. destruct (schemas s !! _) eqn:?; [by right | unchanged].
  - unfold deleteGroup. destruct (schemas s !! _) eqn:?; [by right | unchanged].
  - unfold addContentType, updateContentTypes. destruct (schemas s !! _) eqn:?; [|unchanged].
    destruct (list_find _ _) as [[? ?]|] eqn:?; [|unchanged].
    destruct (system_vocabulary _) eqn:?; [by right | unchanged].
  - unfold removeContentType, updateContentTypes. destruct (schemas s !! _) eqn:?; [|unchanged].
    destruct (list_find _ _) as [[? ?]|] eqn:?; [|unchanged].
    destruct (system_vocabulary _) eqn:?; [by right | unchanged].
  - by destruct (Hchangelog contextName version entry).
Qed.

Lemma mutations_mark_unsaved_witness :
  hasUnsavedChanges (step sample_store (DeleteGroup "core.json" "general") loaded_state) = true
  ∧ hasUnsavedChanges
      (step sample_store
         (AddChangelogEntry "default" "1.8.0"
            (mkChangelogEntry "2024-05-01" changed "Titel" None None)) loaded_state) = false.
Proof.
  split; [|reflexivity].
  destruct (mutations_mark_unsaved sample_store (DeleteGroup "core.json" "general")
              loaded_state eq_refl) as [(_ & _ & H)|H]; [discriminate | | exact H].
  exfalso.
  assert (H' : schemas (step sample_store (DeleteGroup "core.json" "general") loaded_state)
               !! "default@1.8.0/core.json" = Some sample_schema)
    by (rewrite H; reflexivity).
  vm_compute in H'. discriminate H'.
Defined.


Lemma addChangelogEntry_prepends_witness :
  version_changelog
  <$> (Dict.get "default"
         (contextManifests
            (addChangelogEntry "default" "1.8.0"
               (mkChangelogEntry "2024-05-02" fixed "b" None None)
               (addChangelogEntry "default" "1.8.0"
                  (mkChangelogEntry "2024-05-01" changed "a" None None) loaded_state)))
       ≫= λ m, Dict.get "1.8.0" (manifest_versions m))
  = Some (Some [mkChangelogEntry "2024-05-02" fixed "b" None None;
                mkChangelogEntry "2024-05-01" changed "a" None None]).
Proof.
  pose proof (addChangelogEntry_prepends "default" "1.8.0"
                (mkChangelogEntry "2024-05-02" fixed "b" None None)
                (addChangelogEntry "default" "1.8.0"
                   (mkChangelogEntry "2024-05-01" changed "a" None None) loaded_state))
    as (_ & _ & _ & _ & H).
  cbn in H. destruct H as (m' & ve' & Hm' & Hve' & Hlog & _).
  cbn. injection Hm' as <-. cbn in Hve'. injection Hve' as <-. reflexivity.
Defined.


(** ** Loading *)

Lemma loaded_from_refl ds P s : loaded_from ds P s s.
Proof. split_and!; [done | by destruct s | by left]. Qed.

Lemma loaded_from_trans ds (P Q R : string → Prop) s1 s2 s3 :
  (∀ k, P k → R k) → (∀ k, Q k → R k) →
  loaded_from ds P s1 s2 → loaded_from ds Q s2 s3 → loaded_from ds R s1 s3.
Proof.
  intros HP HQ (H1 & H2 & H3) (H1' & H2' & H3'). split_and!.
  - by etrans.
  - rewrite H2' at 1. rewrite H2 at 1. done.
  - intros key d Hkey. destruct (H3' key d Hkey) as [Hold|[Hq Hf]]; [|right; auto].
    destruct (H3 key d Hold) as [Hold'|[Hp Hf]]; [by left | right; auto].
Qed.

Lemma loaded_from_weaken ds (P R : string → Prop) s s' :
  (∀ k, P k → R k) → loaded_from ds P s s' → loaded_from ds R s s'.
Proof.
  intros HP (H1 & H2 & H3). split_and!; [done | done |].
  intros key d Hkey. destruct (H3 key d Hkey) as [?|[? ?]]; [by left | right; auto].
Qed.

Lemma fold_left_loaded {A : Type} ds (body : SchemaStoreState → A → SchemaStoreState)
    (P : A → string → Prop) (l : list A) (s : SchemaStoreState) :
  (∀ s x, x ∈ l → loaded_from ds (P x) s (body s x)) →
  loaded_from ds (λ k, ∃ x, x ∈ l ∧ P x k) s (fold_left body l s).
Proof.
  revert s. induction l as [|x l IH]; intros s Hbody; [apply loaded_from_refl|].
  simpl. eapply loaded_from_trans;
    [| | apply (Hbody s x), list_elem_of_here
     | apply IH; intros s' y Hy; by apply Hbody, list_elem_of_further].
  - intros k Hk. exists x. split; [apply list_elem_of_here | done].
  - intros k (y & Hy & Hk). exists y. split; [by apply list_elem_of_further | done].
Qed.

Lemma fold_left_preserves {A S : Type} (body : S → A → S) (Q : S → Prop)
    (l : list A) (s : S) :
  (∀ s y, Q s → Q (body s y)) → Q s → Q (fold_left body l s).
Proof.
  intros Hmono. revert s. induction l as [|y l IH]; intros s Hs; [done|].
  simpl. by apply IH, Hmono.
Qed.

Lemma fold_left_establishes {A S : Type} (body : S → A → S) (Q : A → S → Prop)
    (l : list A) (s : S) :
  (∀ s x, x ∈ l → Q x (body s x)) →
  (∀ s x y, Q x s → Q x (body s y)) →
  ∀ x, x ∈ l → Q x (fold_left body l s).
Proof.
  intros Hest Hmono. revert s. induction l as [|y l IH]; intros s x Hx.
  - by apply elem_of_nil in Hx.
  - simpl. apply elem_of_cons in Hx as [->|Hx].
    + apply fold_left_preserves; [intros; by apply Hmono|].
      apply Hest, list_elem_of_here.
    + apply IH; [|done]. intros s' z Hz. by apply Hest, list_elem_of_further.
Qed.

Lemma loadListedSchema_loaded ds registry c v s f :
  loaded_from ds (λ k, k = cacheKey c v f) s (loadListedSchema ds registry c v s f)
  ∧ settled ds registry c v f (loadListedSchema ds registry c v s f)
  ∧ (settled ds registry c v f s → loadListedSchema ds registry c v s f = s).
Proof.
  unfold settled, loadListedSchema. fold (schemaUrl (contextPathOf registry c) v f).
  destruct (schemas s !! cacheKey c v f) as [d0|] eqn:Hcached.
  - split_and!; [apply loaded_from_refl | left; by rewrite Hcached | done].
  - destruct (fetch_schema ds _) as [doc| |msg] eqn:Hfetch; cbn.
    + split_and!.
      * split_and!; [by apply insert_subseteq | done |].
        intros key d Hkey. destruct s; cbn in *.
        destruct (decide (cacheKey c v f = key)) as [<-|Hne].
        -- rewrite lookup_insert_eq in Hkey. injection Hkey as <-. right. eauto.
        -- rewrite lookup_insert_ne in Hkey by done. by left.
      * left. destruct s; cbn. rewrite lookup_insert_eq. by eexists.
      * intros [[? ?]|?]; congruence.
    + split_and!; [apply loaded_from_refl | by right | done].
    + split_and!; [apply loaded_from_refl | by right | done].
Qed.

Lemma settled_mono ds registry c v f s s' :
  schemas s ⊆ schemas s' → settled ds registry c v f s → settled ds registry c v f s'.
Proof.
  intros Hsub [[d Hd]|Hno]; [left|by right].
  exists d. by eapply lookup_weaken.
Qed.

Lemma loadListedVersion_loaded ds registry c s v :
  loaded_from ds (λ k, ∃ f, f ∈ version_schemas v.2 ∧ k = cacheKey c v.1 f) s
    (loadListedVersion ds registry c s v)
  ∧ ∀ f, f ∈ version_schemas v.2 →
      settled ds registry c v.1 f (loadListedVersion ds registry c s v).
Proof.
  unfold loadListedVersion. split.
  - apply (fold_left_loaded ds _ (λ f k, k = cacheKey c v.1 f)).
    intros s' f _. apply loadListedSchema_loaded.
  - apply (fold_left_establishes _ (λ f st, settled ds registry c v.1 f st)).
    + intros s' f _. apply loadListedSchema_loaded.
    + intros s' f f' Hf. eapply settled_mono; [|done].
      apply (loadListedSchema_loaded ds registry c v.1 s' f').
Qed.

Lemma loadListedContext_loaded ds registry s cm :
  loaded_from ds
    (λ k, ∃ v f, v ∈ manifest_versions cm.2 ∧ f ∈ version_schemas v.2
                 ∧ k = cacheKey cm.1 v.1 f) s
    (loadListedContext ds registry s cm)
  ∧ ∀ v f, v ∈ manifest_versions cm.2 → f ∈ version_schemas v.2 →
      settled ds registry cm.1 v.1 f (loadListedContext ds registry s cm).
Proof.
  unfold loadListedContext. split.
  - eapply loaded_from_weaken;
      [| apply (fold_left_loaded ds _
                  (λ v k, ∃ f, f ∈ version_schemas v.2 ∧ k = cacheKey cm.1 v.1 f));
         intros s' v _; apply loadListedVersion_loaded].
    intros k (v & Hv & f & Hf & ->). by exists v, f.
  - intros v f Hv Hf. revert v Hv f Hf.
    apply (fold_left_establishes _
             (λ v st, ∀ f, f ∈ version_schemas v.2 → settled ds registry cm.1 v.1 f st)).
    + intros s' v _. apply loadListedVersion_loaded.
    + intros s' v v' Hsettled f Hf. eapply settled_mono; [|by apply Hsettled].
      apply (loadListedVersion_loaded ds registry cm.1 s' v').
Qed.

Lemma loadAllSchemas_loaded ds registry s :
  contextRegistry s = Some registry →
  loaded_from ds (listed (contextManifests s)) s (loadAllSchemas ds s)
  ∧ ∀ c m v ve f, (c, m) ∈ contextManifests s → (v, ve) ∈ manifest_versions m →
      f ∈ version_schemas ve → settled ds registry c v f (loadAllSchemas ds s).
Proof.
  intros Hreg. unfold loadAllSchemas. rewrite Hreg. split.
  - eapply loaded_from_weaken;
      [| apply (fold_left_loaded ds _
                  (λ cm k, ∃ v f, v ∈ manifest_versions cm.2 ∧ f ∈ version_schemas v.2
                                  ∧ k = cacheKey cm.1 v.1 f));
         intros s' cm _; apply loadListedContext_loaded].
    intros k ([c m] & Hcm & [v ve] & f & Hv & Hf & ->). by exists c, m, v, ve, f.
  - intros c m v ve f Hcm Hv Hf.
    pose proof (fold_left_establishes (loadListedContext ds registry)
      (λ cm st, ∀ v f, v ∈ manifest_versions cm.2 → f ∈ version_schemas v.2 →
                       settled ds registry cm.1 v.1 f st) (contextManifests s) s) as H.
    cbn beta in H. refine (H _ _ (c, m) Hcm (v, ve) f Hv Hf).
    + intros s' cm _. apply loadListedContext_loaded.
    + intros s' cm cm' Hsettled v' f' Hv' Hf'. eapply settled_mono; [|by apply Hsettled].
      apply (loadListedContext_loaded ds registry s' cm').
Qed.

Lemma loadAllSchemas_effect (ds : DocumentStore) (s : SchemaStoreState) :
  let s' := loadAllSchemas ds s in
  schemas s ⊆ schemas s'
  ∧ s' = set_schemas (schemas s') s
  ∧ (∀ key d, schemas s' !! key = Some d → schemas s !! key = None →
       listed (contextManifests s) key ∧ ∃ path, fetch_schema ds path = Fetched d)
  ∧ loadAllSchemas ds s' = s'.
Proof.
  cbn zeta. destruct (contextRegistry s) as [registry|] eqn:Hreg.
  2: { unfold loadAllSchemas. rewrite Hreg. unfold loadAllSchemas. rewrite Hreg.
       split_and!; [done | by destruct s | congruence | done]. }
  destruct (loadAllSchemas_loaded ds registry s Hreg) as ((Hsub & Hframe & Hnew) & Hsettled).
  split_and!; [done | done | |].
  - intros key d Hkey Hnone. destruct (Hnew key d Hkey) as [?|?]; [congruence | done].
  - destruct (loadAllSchemas_keeps ds s) as [Hreg' Hman'].
    unfold loadAllSchemas at 1. rewrite Hreg', Hreg, Hman'.
    apply fold_left_fixed. intros [c m] Hcm. unfold loadListedContext. cbn [fst snd].
    apply fold_left_fixed. intros [v ve] Hv. unfold loadListedVersion. cbn [fst snd].
    apply fold_left_fixed. intros f Hf.
    apply loadListedSchema_loaded. by eapply Hsettled.
Qed.



(** X18. [exportAsZip] can be repeated: exporting again from the state an
    export leaves gives the same archive and the same state.  The export
    changes nothing of the state but the cache, and hands over an archive
    exactly when a registry is loaded. *)
Theorem exportAsZip_repeatable (ds : DocumentStore) (s : SchemaStoreState) :
  exportAsZip ds (exportAsZip ds s).1 = exportAsZip ds s
  ∧ (exportAsZip ds s).1 = set_schemas (schemas (exportAsZip ds s).1) s
  ∧ ((exportAsZip ds s).2 = None ↔ contextRegistry s = None).
Proof.
  destruct (loadAllSchemas_effect ds s) as (_ & Hframe & _ & Hagain).
  destruct (loadAllSchemas_keeps ds s) as [Hreg _].
  assert ((exportAsZip ds s).1 = loadAllSchemas ds s) as Hfst.
  { unfold exportAsZip. cbn zeta. by destruct (contextRegistry (loadAllSchemas ds s)). }
  split_and!.
  - rewrite Hfst. unfold exportAsZip. cbn zeta. by rewrite Hagain.
  - by rewrite Hfst.
  - unfold exportAsZip. cbn zeta. rewrite Hreg. by destruct (contextRegistry s).
Qed.

Lemma exportAsZip_repeatable_witness :
  exportAsZip sample_store
    (exportAsZip sample_store (run sample_store [LoadContextRegistry] initialState)).1
  = exportAsZip sample_store (run sample_store [LoadContextRegistry] initialState).
Proof.
  apply (exportAsZip_repeatable sample_store
           (run sample_store [LoadContextRegistry] initialState)).
Defined.

(** X19. [loadSchema] ends in one of two ways.  Either the document was
    served: it is cached under [ctx@version/file], replacing what was cached
    there, and the error is cleared.  Or it was not (no registry, unknown
    context, failed request): the cache is unchanged and an error message is
    set.  Either way loading is over and nothing else of the state
    changes. *)
Theorem loadSchema_outcome (ds : DocumentStore) (contextName version schemaFile : string)
    (s : SchemaStoreState) :
  let s' := loadSchema ds contextName version schemaFile s in
  s' = set_isLoading false (set_error (error s') (set_schemas (schemas s') s))
  ∧ ((∃ registry contextEntry schema,
        contextRegistry s = Some registry
        ∧ Dict.get contextName (registry_contexts registry) = Some contextEntry
        ∧ fetch_schema ds (schemaUrl (entry_path contextEntry) version schemaFile)
          = Fetched schema
        ∧ schemas s' = <[cacheKey contextName version schemaFile := schema]> (schemas s)
        ∧ error s' = None)
     ∨ (schemas s' = schemas s ∧ is_Some (error s')
        ∧ ∀ registry contextEntry,
            contextRegistry s = Some registry →
            Dict.get contextName (registry_contexts registry) = Some contextEntry →
            fetched (fetch_schema ds (schemaUrl (entry_path contextEntry) version schemaFile))
            = None)).
Proof.
  cbn zeta. unfold loadSchema. cbn zeta. destruct s; cbn.
  destruct contextRegistry0 as [registry|]; cbn.
  2: { split; [done|]. right. split_and!; [done | by eexists | congruence]. }
  destruct (Dict.get contextName (registry_contexts registry)) as [e|] eqn:He; cbn.
  2: { split; [done|]. right. split_and!; [done | by eexists | congruence]. }
  fold (schemaUrl (entry_path e) version schemaFile).
  destruct (fetch_schema ds _) as [doc| |msg] eqn:Hfetch; cbn.
  - split; [done|]. left. by exists registry, e, doc.
  - split; [done|]. right. split_and!; [done | by eexists |].
    intros ? ? [= <-] He'. rewrite He in He'. injection He' as <-. by rewrite Hfetch.
  - split; [done|]. right. split_and!; [done | by eexists |].
    intros ? ? [= <-] He'. rewrite He in He'. injection He' as <-. by rewrite Hfetch.
Qed.

Lemma loadSchema_outcome_witness :
  schemas (loadSchema offline "default" "1.8.0" "core.json" loaded_state)
  = schemas loaded_state
  ∧ is_Some (error (loadSchema offline "default" "1.8.0" "core.json" loaded_state)).
Proof.
  destruct (loadSchema_outcome offline "default" "1.8.0" "core.json" loaded_state)
    as [_ [(registry & e & doc & _ & _ & Hfetch & _)|(Hcache & Herror & _)]].
  - discriminate Hfetch.
  - by split.
Defined.

(** X20. Selecting a schema always fetches it again.  If the active
    context is registered and the document is served, the served document
    becomes the active schema, whatever was cached for it before (edits
    made in the editor included), no field is selected, and the unsaved
    flag is left as it was. *)
Theorem setActiveSchema_reloads (ds : DocumentStore) (schemaFile : string)
    (s : SchemaStoreState) (registry : ContextRegistry) (contextEntry : ContextEntry)
    (schema : SchemaDefinition)
    (Hfile : schemaFile ≠ "")
    (Hregistry : contextRegistry s = Some registry)
    (Hcontext : Dict.get (activeContext s) (registry_contexts registry) = Some contextEntry)
    (Hserved : fetch_schema ds
                 (schemaUrl (entry_path contextEntry) (activeVersion s) schemaFile)
               = Fetched schema) :
  let s' := setActiveSchema ds (Some schemaFile) s in
  useActiveSchema s' = Some schema
  ∧ useActiveField s' = None
  ∧ error s' = None
  ∧ hasUnsavedChanges s' = hasUnsavedChanges s
  ∧ schemas s' = <[activeKey s schemaFile := schema]> (schemas s).
Proof.
  cbn zeta. unfold setActiveSchema. cbn zeta.
  assert (truthy schemaFile = true) as Htruthy by by destruct schemaFile.
  rewrite Htruthy. unfold loadSchema, useActiveField, useActiveSchema, activeKey.
  destruct s; cbn in *. subst contextRegistry0. cbn. rewrite Hcontext. cbn.
  unfold schemaUrl in Hserved. rewrite Hserved. cbn. rewrite Htruthy.
  by rewrite lookup_insert_eq.
Qed.

Lemma setActiveSchema_reloads_witness :
  useActiveSchema
    (setActiveSchema sample_store (Some "core.json")
       (deleteField "core.json" "cclom:title" loaded_state))
  = Some sample_schema.
Proof.
  apply (setActiveSchema_reloads sample_store "core.json"
           (deleteField "core.json" "cclom:title" loaded_state)
           sample_registry
           (mkContextEntry "Default" None "1.8.0" "default" None)
           sample_schema); [done | reflexivity | reflexivity | reflexivity].
Defined.

Lemma frame_manifests_trans (s1 s2 s3 : SchemaStoreState) :
  s2 = set_contextManifests (contextManifests s2) s1 →
  s3 = set_contextManifests (contextManifests s3) s2 →
  s3 = set_contextManifests (contextManifests s3) s1.
Proof. destruct s1, s2, s3; cbn. intros [= -> -> -> -> -> -> -> -> -> ->] [= -> -> -> -> -> -> -> -> -> ->]. done. Qed.

Lemma loadContextManifest_get ds registry c s c' :
  contextRegistry s = Some registry →
  loadContextManifest ds c s
  = set_contextManifests (contextManifests (loadContextManifest ds c s)) s
  ∧ Dict.get c' (contextManifests (loadContextManifest ds c s))
    = if decide (c' = c)
      then from_option Some (Dict.get c' (contextManifests s)) (servedManifest ds registry c)
      else Dict.get c' (contextManifests s).
Proof.
  intros Hreg. unfold loadContextManifest, servedManifest. rewrite Hreg.
  destruct (Dict.get c (registry_contexts registry)) as [e|]; cbn -[Dict.get Dict.set].
  2: { split; [by destruct s|]. by case_decide. }
  destruct (fetch_manifest ds _) as [m| |msg]; cbn -[Dict.get Dict.set].
  - split; [by destruct s|]. destruct s; cbn -[Dict.get Dict.set].
    case_decide as Hc; [subst; apply dict_get_set_eq | by apply dict_get_set_ne].
  - split; [by destruct s|]. by case_decide.
  - split; [by destruct s|]. by case_decide.
Qed.

Lemma loadContextManifests_get ds registry (l : list string) s c' :
  contextRegistry s = Some registry →
  let s' := fold_left (λ st contextName, loadContextManifest ds contextName st) l s in
  s' = set_contextManifests (contextManifests s') s
  ∧ Dict.get c' (contextManifests s')
    = if decide (c' ∈ l)
      then from_option Some (Dict.get c' (contextManifests s)) (servedManifest ds registry c')
      else Dict.get c' (contextManifests s).
Proof.
  cbn zeta. revert s. induction l as [|c l IH]; intros s Hreg.
  - split; [by destruct s|]. case_decide as Hin; [by apply elem_of_nil in Hin | done].
  - cbn [fold_left].
    destruct (loadContextManifest_get ds registry c s c' Hreg) as [Hframe Hget].
    destruct (IH (loadContextManifest ds c s)) as [Hframe' Hget'].
    { rewrite Hframe. by destruct s. }
    split.
    + by eapply frame_manifests_trans.
    + rewrite Hget', Hget.
      destruct (decide (c' = c)) as [->|Hne].
      * rewrite (decide_True (P := c ∈ c :: l)) by apply list_elem_of_here.
        case_decide; [|done]. by destruct (servedManifest ds registry c).
      * destruct (decide (c' ∈ l)) as [Hin|Hnotin].
        -- by rewrite (decide_True (P := c' ∈ c :: l)) by by apply list_elem_of_further.
        -- rewrite (decide_False (P := c' ∈ c :: l)); [done|].
           by apply not_elem_of_cons.
Qed.

(** X21. When the registry is served, [loadContextRegistry] installs it
    and clears the error, and the manifest of every context is then the one
    the document store serves for the context's folder, or, where none is
    served (the context is not registered, or its request failed), the one
    held before.  One failing manifest does not stop the others from being
    loaded, and raises no error.  The cache and the navigation are left as
    they were. *)
Theorem loadContextRegistry_manifests (ds : DocumentStore) (s : SchemaStoreState)
    (registry : ContextRegistry)
    (Hserved : fetch_registry ds "/schemata/context-registry.json" = Fetched registry) :
  let s' := loadContextRegistry ds s in
  s' = set_contextManifests (contextManifests s')
         (set_isLoading false (set_contextRegistry (Some registry) (set_error None s)))
  ∧ ∀ contextName,
      Dict.get contextName (contextManifests s')
      = match servedManifest ds registry contextName with
        | Some manifest => Some manifest
        | None => Dict.get contextName (contextManifests s)
        end.
Proof.
  cbn zeta. unfold loadContextRegistry. cbn zeta. rewrite Hserved.
  set (s2 := set_isLoading false _).
  assert (contextRegistry s2 = Some registry) as Hreg by by destruct s.
  split.
  - destruct (loadContextManifests_get ds registry
                (Dict.keys (registry_contexts registry)) s2 "" Hreg) as [Hframe _].
    eapply frame_manifests_trans; [|exact Hframe]. subst s2. by destruct s.
  - intros c.
    destruct (loadContextManifests_get ds registry
                (Dict.keys (registry_contexts registry)) s2 c Hreg) as [_ Hget].
    rewrite Hget. replace (contextManifests s2) with (contextManifests s) by by destruct s.
    case_decide as Hin; [by destruct (servedManifest ds registry c)|].
    unfold servedManifest.
    destruct (Dict.get c (registry_contexts registry)) as [e|] eqn:He; [|done].
    exfalso. apply Hin. apply dict_has_keys. unfold Dict.has. by rewrite He.
Qed.

Lemma loadContextRegistry_manifests_witness :
  Dict.get "default" (contextManifests (loadContextRegistry sample_store initialState))
  = Some sample_manifest
  ∧ Dict.get "draft" (contextManifests (loadContextRegistry sample_store initialState))
    = None.
Proof.
  destruct (loadContextRegistry_manifests sample_store initialState sample_registry
              eq_refl) as [_ Hget].
  split; [apply (Hget "default") | apply (Hget "draft")].
Defined.

(** ** Versions *)

Lemma coherent_inv s :
  coherent s = true →
  ∃ registry manifest versionEntry,
    contextRegistry s = Some registry
    ∧ Dict.has (activeContext s) (registry_contexts registry) = true
    ∧ Dict.get (activeContext s) (contextManifests s) = Some manifest
    ∧ Dict.get (activeVersion s) (manifest_versions manifest) = Some versionEntry.
Proof.
  unfold coherent. destruct (contextRegistry s) as [registry|]; [|done].
  intros [Hhas H]%andb_true_iff.
  destruct (Dict.get (activeContext s) (contextManifests s)) as [m|]; [|done].
  destruct (Dict.get (activeVersion s) (manifest_versions m)) as [ve|] eqn:Hve; [|done].
  by exists registry, m, ve.
Qed.

Lemma coherent_opened s version registry manifest versionEntry :
  contextRegistry s = Some registry →
  Dict.has (activeContext s) (registry_contexts registry) = true →
  Dict.get (activeContext s) (contextManifests s) = Some manifest →
  Dict.get version (manifest_versions manifest) = Some versionEntry →
  coherent (setActiveVersion version s) = true.
Proof.
  intros Hreg Hhas Hm Hve. unfold coherent, setActiveVersion. destruct s; cbn in *.
  by rewrite Hreg, Hhas, Hm, Hve.
Qed.



(** X23. Deleting a version in the version dialog keeps the state
    coherent, whichever version is deleted and whatever the answer to the
    prompt: when the active version is deleted the dialog moves to another
    version of the manifest, and the last version is not deleted.  (The
    sort of the dialog's list may be any rearrangement of the versions.) *)
Theorem VersionDialog_handleDelete_coherent
    (sort : list (string * VersionEntry) → list (string * VersionEntry))
    (confirmed : bool) (version : string) (s : SchemaStoreState)
    (Hsort : ∀ l, sort l ≡ₚ l)
    (Hcoherent : coherent s = true) :
  coherent (VersionDialog_handleDelete sort confirmed version s) = true.
Proof.
  destruct (coherent_inv s Hcoherent) as (registry & m & ve & Hreg & Hhas & Hm & Hve).
  unfold VersionDialog_handleDelete, VersionDialog_versions. rewrite Hm. cbn zeta.
  case_bool_decide as Hlen; [done|].
  destruct confirmed; [|done].
  unfold deleteVersion. rewrite Hm. cbn zeta.
  assert (Hremaining : ∀ kv, kv ∈ Dict.remove version (manifest_versions m)
                             ↔ kv.1 ≠ version ∧ kv ∈ sort (manifest_versions m)).
  { intros kv. unfold Dict.remove. rewrite list_elem_of_filter. by rewrite (Hsort _). }
  destruct (decide (length (Dict.keys (Dict.remove version (manifest_versions m))) = 0))
    as [Hempty|Hnonempty].
  - assert (Dict.remove version (manifest_versions m) = []) as Hnil.
    { unfold Dict.keys in Hempty. rewrite length_fmap in Hempty.
      by apply nil_length_inv. }
    assert (coherent (set_error (Some "Kann letzte Version nicht löschen") s) = true)
      as Hsame by (unfold coherent; by destruct s).
    destruct (decide (activeVersion s = version)) as [Hactive|Hother]; [|done].
    destruct (list_find _ _) as [[i other]|] eqn:Hfind; [|done].
    apply list_find_Some in Hfind as (Hi & Hne & _).
    assert (other ∈ Dict.remove version (manifest_versions m)) as Hin.
    { apply Hremaining. split; [done|]. by eapply list_elem_of_lookup_2. }
    rewrite Hnil in Hin. by apply elem_of_nil in Hin.
  - set (m' := mkContextManifest _ _ _ _).
    destruct (decide (activeVersion s = version)) as [Hactive|Hother].
    + destruct (list_find _ _) as [[i other]|] eqn:Hfind.
      * apply list_find_Some in Hfind as (Hi & Hne & _).
        assert (other ∈ Dict.remove version (manifest_versions m)) as Hin.
        { apply Hremaining. split; [done|]. by eapply list_elem_of_lookup_2. }
        destruct (Dict.get other.1 (Dict.remove version (manifest_versions m)))
          as [ve'|] eqn:Hget.
        2: { apply dict_get_None in Hget. exfalso. apply Hget.
             apply list_elem_of_fmap. by exists other. }
        apply (coherent_opened _ _ registry m' ve').
        -- by destruct s.
        -- by destruct s.
        -- destruct s; cbn -[Dict.get Dict.set] in *. apply dict_get_set_eq.
        -- done.
      * exfalso.
        assert (∃ kv, kv ∈ Dict.remove version (manifest_versions m)) as [kv Hkv].
        { clear Hremaining.
          destruct (Dict.remove version (manifest_versions m)) as [|kv rest]; [done|].
          exists kv. apply list_elem_of_here. }
        apply Hremaining in Hkv as [Hne Hin].
        eapply list_find_None in Hfind. rewrite Forall_forall in Hfind.
        by apply (Hfind kv Hin).
    + revert Hcoherent. unfold coherent, markUnsaved.
      destruct s; cbn -[Dict.get Dict.set] in *.
      rewrite Hreg, Hhas, Hm, Hve, dict_get_set_eq. cbn -[Dict.get Dict.set].
      by rewrite dict_get_remove_ne, Hve by done.
Qed.

Lemma VersionDialog_handleDelete_coherent_witness :
  coherent (VersionDialog_handleDelete (@reverse _) true "1.9.0" two_version_state) = true
  ∧ activeVersion (VersionDialog_handleDelete (@reverse _) true "1.9.0" two_version_state)
    = "1.8.0"
  ∧ coherent (deleteVersion "default" "1.9.0" two_version_state) = false.
Proof.
  split_and!; [|reflexivity|reflexivity].
  apply (VersionDialog_handleDelete_coherent (@reverse _) true "1.9.0" two_version_state);
    [intros l; apply reverse_Permutation | reflexivity].
Defined.





(** X26. When another version remains, [deleteVersion] removes the entry
    of the version from the manifest and nothing else: the other versions
    keep their entries, and the cache (the documents of the deleted version
    included), the registry (a default version naming the deleted one
    included) and the navigation are as before. *)
Theorem deleteVersion_removes_entry_only (ctx version other : string)
    (s : SchemaStoreState) (manifest : ContextManifest)
    (Hmanifest : Dict.get ctx (contextManifests s) = Some manifest)
    (Hother : other ≠ version)
    (Hremains : Dict.has other (manifest_versions manifest) = true) :
  let s' := deleteVersion ctx version s in
  (∃ manifest',
     Dict.get ctx (contextManifests s') = Some manifest'
     ∧ Dict.get version (manifest_versions manifest') = None
     ∧ ∀ v, v ≠ version →
         Dict.get v (manifest_versions manifest') = Dict.get v (manifest_versions manifest))
  ∧ (∀ c, c ≠ ctx → Dict.get c (contextManifests s') = Dict.get c (contextManifests s))
  ∧ schemas s' = schemas s
  ∧ contextRegistry s' = contextRegistry s
  ∧ cursors s' = cursors s
  ∧ error s' = error s
  ∧ hasUnsavedChanges s' = true.
Proof.
  cbn zeta. unfold deleteVersion. rewrite Hmanifest. cbn zeta.
  rewrite decide_False.
  2: { intros Hlen. apply dict_has_keys in Hremains.
       assert (other ∈ Dict.keys (Dict.remove version (manifest_versions manifest))) as Hin.
       { rewrite dict_keys_remove. by apply list_elem_of_filter. }
       destruct (Dict.keys (Dict.remove version (manifest_versions manifest)));
         [by apply elem_of_nil in Hin | done]. }
  split_and!; try by destruct s.
  - eexists. split_and!.
    + destruct s; cbn -[Dict.get Dict.set]. apply dict_get_set_eq.
    + apply dict_get_remove_eq.
    + intros v Hv. cbn -[Dict.get Dict.remove]. by apply dict_get_remove_ne.
  - intros c Hc. destruct s; cbn -[Dict.get Dict.set]. by apply dict_get_set_ne.
Qed.

Lemma deleteVersion_removes_entry_only_witness :
  schemas (deleteVersion "default" "1.9.0" two_version_state) = schemas two_version_state
  ∧ cursors (deleteVersion "default" "1.9.0" two_version_state)
    = ("default", "1.9.0", None, None).
Proof.
  pose proof (deleteVersion_removes_entry_only "default" "1.9.0" "1.8.0" two_version_state
                (mkContextManifest "default" "Default" None
                   (manifest_versions
                      (default (mkContextManifest "" "" None [])
                         (Dict.get "default" (contextManifests two_version_state)))))
                eq_refl ltac:(done) eq_refl) as (_ & _ & Hcache & _ & Hcursors & _).
  split; [exact Hcache | exact Hcursors].
Defined.

(** ** Importing a JSON document *)

(** What a fold of insertions does to a cache, as far as the slots go. *)
Lemma fold_left_slots {A : Type} (body : gmap string SchemaDefinition → A → gmap string SchemaDefinition)
    (touches : A → string → Prop) (l : list A) (cache : gmap string SchemaDefinition) :
  (∀ cache x, x ∈ l →
     (∀ key, is_Some (cache !! key) → is_Some (body cache x !! key))
     ∧ (∀ key, ¬ touches x key → body cache x !! key = cache !! key)) →
  (∀ key, is_Some (cache !! key) → is_Some (fold_left body l cache !! key))
  ∧ (∀ key, (∀ x, x ∈ l → ¬ touches x key) → fold_left body l cache !! key = cache !! key).
Proof.
  revert cache. induction l as [|x l IH]; intros cache Hbody; [done|].
  cbn [fold_left].
  destruct (Hbody cache x (list_elem_of_here _ _)) as [Hkeep Hframe].
  destruct (IH (body cache x)) as [Hkeep' Hframe'].
  { intros cache' y Hy. by apply Hbody, list_elem_of_further. }
  split.
  - intros key Hkey. by apply Hkeep', Hkeep.
  - intros key Hkey. rewrite Hframe'.
    + apply Hframe, Hkey, list_elem_of_here.
    + intros y Hy. by apply Hkey, list_elem_of_further.
Qed.

Lemma importFiles_slots c v (files : Dict.t SchemaDefinition)
    (cache : gmap string SchemaDefinition) :
  let cache' := fold_left (λ cache f, <[cacheKey c v f.1 := f.2]> cache) files cache in
  (∀ key, is_Some (cache !! key) → is_Some (cache' !! key))
  ∧ (∀ key, ¬ (∃ f, f ∈ files ∧ key = cacheKey c v f.1) → cache' !! key = cache !! key).
Proof.
  cbn zeta.
  destruct (fold_left_slots (λ cache f, <[cacheKey c v f.1 := f.2]> cache)
              (λ f key, key = cacheKey c v f.1) files cache) as [H1 H2].
  { intros cache' f _. split.
    - intros key Hkey. destruct (decide (cacheKey c v f.1 = key)) as [<-|Hne].
      + rewrite lookup_insert_eq. by eexists.
      + by rewrite lookup_insert_ne.
    - intros key Hkey. by rewrite lookup_insert_ne. }
  split; [done|]. intros key Hkey. apply H2. intros f Hf ->. apply Hkey. by exists f.
Qed.

Lemma importVersions_slots c (versions : Dict.t (Dict.t SchemaDefinition))
    (cache : gmap string SchemaDefinition) :
  let cache' :=
    fold_left (λ cache v, fold_left (λ cache f, <[cacheKey c v.1 f.1 := f.2]> cache) v.2 cache)
      versions cache in
  (∀ key, is_Some (cache !! key) → is_Some (cache' !! key))
  ∧ (∀ key, ¬ (∃ v f, v ∈ versions ∧ f ∈ v.2 ∧ key = cacheKey c v.1 f.1) →
            cache' !! key = cache !! key).
Proof.
  cbn zeta.
  destruct (fold_left_slots
              (λ cache v, fold_left (λ cache f, <[cacheKey c v.1 f.1 := f.2]> cache) v.2 cache)
              (λ v key, ∃ f, f ∈ v.2 ∧ key = cacheKey c v.1 f.1) versions cache) as [H1 H2].
  { intros cache' v _. apply (importFiles_slots c v.1 v.2 cache'). }
  split; [done|]. intros key Hkey. apply H2. intros v Hv (f & Hf & ->).
  apply Hkey. by exists v, f.
Qed.

Lemma importContextData_slots acc c :
  (∀ k, is_Some (Dict.get k acc.1) → is_Some (Dict.get k (importContextData acc c).1))
  ∧ (∀ k, k ≠ c.1 ∨ data_manifest c.2 = None →
       Dict.get k (importContextData acc c).1 = Dict.get k acc.1)
  ∧ (∀ key, is_Some (acc.2 !! key) → is_Some ((importContextData acc c).2 !! key))
  ∧ (∀ key, ¬ imports [c] key → (importContextData acc c).2 !! key = acc.2 !! key).
Proof.
  destruct acc as [ms cache], c as [c [manifest versions]].
  unfold importContextData. cbn [fst snd data_manifest data_versions].
  split_and!.
  - intros k Hk. destruct manifest as [m|]; [|done].
    destruct (decide (c = k)) as [->|Hne].
    + rewrite dict_get_set_eq. by eexists.
    + by rewrite dict_get_set_ne.
  - intros k [Hk|Hm]; [|by rewrite Hm].
    destruct manifest as [m|]; [|done]. by apply dict_get_set_ne.
  - destruct versions as [versions|]; [|done]. apply importVersions_slots.
  - destruct versions as [versions|]; [|done].
    intros key Hkey. apply importVersions_slots.
    intros ([v files] & f & Hv & Hf & ->). apply Hkey.
    exists c, (mkContextData manifest (Some versions)), versions, v, files, f.1, f.2.
    split_and!; [apply list_elem_of_here | done | done | by destruct f | done].
Qed.

Lemma importContexts_slots (contexts : Dict.t ContextData) acc :
  let r := fold_left importContextData contexts acc in
  (∀ k, is_Some (Dict.get k acc.1) → is_Some (Dict.get k r.1))
  ∧ (∀ k, (∀ cd, (k, cd) ∈ contexts → data_manifest cd = None) →
       Dict.get k r.1 = Dict.get k acc.1)
  ∧ (∀ key, is_Some (acc.2 !! key) → is_Some (r.2 !! key))
  ∧ (∀ key, ¬ imports contexts key → r.2 !! key = acc.2 !! key).
Proof.
  cbn zeta. revert acc. induction contexts as [|[c cd0] contexts IH]; intros acc; [done|].
  cbn [fold_left].
  destruct (importContextData_slots acc (c, cd0)) as (H1 & H2 & H3 & H4).
  destruct (IH (importContextData acc (c, cd0))) as (H1' & H2' & H3' & H4').
  cbn [fst snd] in *.
  split_and!.
  - intros k Hk. by apply H1', H1.
  - intros k Hk. rewrite H2'.
    + destruct (decide (k = c)) as [->|Hne]; [|apply H2; by left].
      apply H2. right. apply Hk, list_elem_of_here.
    + intros cd Hcd. by apply Hk, list_elem_of_further.
  - intros key Hkey. by apply H3', H3.
  - intros key Hkey. rewrite H4'.
    + apply H4. intros (c' & cd & vs & v & fs & f & d & Hc & Hrest). apply Hkey.
      apply list_elem_of_singleton in Hc as [= -> ->].
      exists c, cd0, vs, v, fs, f, d. split; [apply list_elem_of_here | done].
    + intros (c' & cd & vs & v & fs & f & d & Hc & Hrest). apply Hkey.
      exists c', cd, vs, v, fs, f, d. split; [|done]. by apply list_elem_of_further.
Qed.



(** ** Localized text *)

(** X28. Editing a text in one language, as the field editor and the
    vocabulary editor do, shows the new text in that language and leaves
    what is shown in the other language as it was, whether the text was a
    plain string (shown in both languages), a localized string, or
    absent. *)
Theorem setLocalizedValue_get (current : option Text) (lang : Lang) (newValue : string) :
  getLocalizedValue (Some (Localized (setLocalizedValue current lang newValue))) lang
  = newValue
  ∧ ∀ other, other ≠ lang →
      getLocalizedValue (Some (Localized (setLocalizedValue current lang newValue))) other
      = getLocalizedValue current other.
Proof.
  split.
  - destruct current as [[l|s]|], lang; cbn; by destruct newValue.
  - intros other Hother.
    destruct current as [[l|s]|], lang, other; cbn; try done;
      repeat match goal with
             | |- context [truthy ?x] => destruct x; cbn
             end; done.
Qed.

Lemma setLocalizedValue_get_witness :
  getLocalizedValue (Some (Localized (setLocalizedValue (Some (Plain "Titel")) en "Title"))) en
  = "Title"
  ∧ getLocalizedValue (Some (Localized (setLocalizedValue (Some (Plain "Titel")) en "Title"))) de
    = "Titel".
Proof.
  destruct (setLocalizedValue_get (Some (Plain "Titel")) en "Title") as [Hnew Hother].
  split; [exact Hnew | by apply (Hother de)].
Defined.

(** ** The JSON export *)

Lemma split_first_app sep s before after :
  split_first sep s = Some (before, after) → s = before +:+ String sep after.
Proof.
  revert before. induction s as [|a s IH]; intros before; [done|].
  cbn. destruct (decide (a = sep)) as [->|Hne]; [by intros [= <- <-]|].
  destruct (split_first sep s) as [[b r]|]; [|done].
  intros [= <- <-]. transitivity (String a (b +:+ String sep r)); [|reflexivity].
  f_equal. by apply IH.
Qed.

Lemma matchCacheKey_key key c v f :
  matchCacheKey key = Some (c, v, f) → key = cacheKey c v f.
Proof.
  unfold matchCacheKey, cacheKey.
  destruct (split_first "@" key) as [[c' rest]|] eqn:Hc; [|done].
  destruct (split_first "/" rest) as [[v' f']|] eqn:Hv; [|done].
  destruct (_ && _); [|done]. intros [= -> -> ->].
  apply split_first_app in Hc, Hv. by subst.
Qed.

Lemma dict_set_elem {V : Type} (k : string) (v : V) (d : Dict.t V) (x : string * V) :
  x ∈ Dict.set k v d → x = (k, v) ∨ x ∈ d.
Proof.
  induction d as [|[k' v'] d IH]; cbn.
  - intros ->%list_elem_of_singleton. by left.
  - destruct (decide (k' = k)) as [->|Hne].
    + intros [->|Hx]%elem_of_cons; [by left | right; by apply list_elem_of_further].
    + intros [->|Hx]%elem_of_cons; [right; apply list_elem_of_here|].
      destruct (IH Hx) as [->|Hd]; [by left | right; by apply list_elem_of_further].
Qed.

Lemma dict_set_fresh {V : Type} (k : string) (v : V) (d : Dict.t V) :
  k ∉ Dict.keys d → Dict.set k v d = d ++ [(k, v)].
Proof.
  unfold Dict.keys. induction d as [|[k' v'] d IH]; csimpl; [done|].
  intros [Hne Hk]%not_elem_of_cons. rewrite decide_False by done. by rewrite IH.
Qed.

Section ExportAll.
Variables (entries : list (string * SchemaDefinition)) (c : string).

(** Every document in the grouping of a context comes from an entry of the
    cache whose key names the context. *)
Local Abbreviation grouped_from G :=
  (∀ v files f d, (v, files) ∈ G → (f, d) ∈ files →
     (cacheKey c v f, d) ∈ entries ∧ matchCacheKey (cacheKey c v f) = Some (c, v, f)).

Local Abbreviation grouped v f G :=
  (∃ files, Dict.get v G = Some files ∧ is_Some (Dict.get f files)).

Lemma groupByVersion_sound G entry :
  entry ∈ entries → grouped_from G → grouped_from (groupByVersion c G entry).
Proof.
  intros Hentry HG. unfold groupByVersion.
  destruct (matchCacheKey entry.1) as [[[c' v'] f']|] eqn:Hmatch; [|done].
  destruct (decide (c' = c)) as [->|Hne]; [|done].
  pose proof (matchCacheKey_key _ _ _ _ Hmatch) as Hkey.
  intros v files f d [[= -> ->]|Hv]%dict_set_elem Hf.
  - apply dict_set_elem in Hf as [[= -> ->]|Hf].
    + rewrite <- Hkey. split; [by destruct entry | by rewrite Hmatch].
    + destruct (Dict.get v' G) as [files|] eqn:Hget; [|by apply elem_of_nil in Hf].
      cbn in Hf. apply dict_get_Some_elem in Hget. by eapply HG.
  - by eapply HG.
Qed.

Lemma groupByVersion_keeps G entry v f :
  grouped v f G → grouped v f (groupByVersion c G entry).
Proof.
  intros (files & Hv & Hf). unfold groupByVersion.
  destruct (matchCacheKey entry.1) as [[[c' v'] f']|]; [|by exists files].
  destruct (decide (c' = c)) as [->|Hne]; [|by exists files].
  destruct (decide (v' = v)) as [->|Hv'].
  - rewrite Hv. cbn [default]. eexists. split; [apply dict_get_set_eq|].
    destruct (decide (f' = f)) as [->|Hf'].
    + rewrite dict_get_set_eq. by eexists.
    + by rewrite dict_get_set_ne.
  - exists files. by rewrite dict_get_set_ne.
Qed.

Lemma groupByVersion_groups G entry v f :
  matchCacheKey entry.1 = Some (c, v, f) → grouped v f (groupByVersion c G entry).
Proof.
  intros Hmatch. unfold groupByVersion. rewrite Hmatch, decide_True by done.
  eexists. split; [apply dict_get_set_eq|]. rewrite dict_get_set_eq. by eexists.
Qed.

Lemma grouping_sound (l : list (string * SchemaDefinition)) G :
  (∀ entry, entry ∈ l → entry ∈ entries) → grouped_from G →
  grouped_from (fold_left (groupByVersion c) l G).
Proof.
  revert G. induction l as [|entry l IH]; intros G Hl HG; [done|].
  cbn [fold_left]. apply IH.
  - intros e He. by apply Hl, list_elem_of_further.
  - apply groupByVersion_sound; [apply Hl, list_elem_of_here | done].
Qed.

Lemma grouping_complete (l : list (string * SchemaDefinition)) G entry v f :
  entry ∈ l → matchCacheKey entry.1 = Some (c, v, f) →
  grouped v f (fold_left (groupByVersion c) l G).
Proof.
  intros Hentry Hmatch.
  refine (fold_left_establishes (groupByVersion c)
            (λ e G, matchCacheKey e.1 = Some (c, v, f) → grouped v f G)
            l G _ _ entry Hentry Hmatch).
  - intros G' e _. apply groupByVersion_groups.
  - intros G' e e' Hg He. by apply groupByVersion_keeps, Hg.
Qed.

End ExportAll.

(** A fold of insertions of documents that a cache [S] holds makes the
    slots it touches agree with [S]. *)
Lemma fold_left_agree {A : Type} (S : gmap string SchemaDefinition)
    (body : gmap string SchemaDefinition → A → gmap string SchemaDefinition)
    (touches : A → string → Prop) (l : list A) (cache : gmap string SchemaDefinition) :
  (∀ cache x, x ∈ l →
     (∀ key, touches x key → body cache x !! key = S !! key)
     ∧ (∀ key, body cache x !! key = S !! key ∨ body cache x !! key = cache !! key)) →
  (∀ key, (∃ x, x ∈ l ∧ touches x key) → fold_left body l cache !! key = S !! key)
  ∧ (∀ key, fold_left body l cache !! key = S !! key
            ∨ fold_left body l cache !! key = cache !! key).
Proof.
  revert cache. induction l as [|x l IH]; intros cache Hbody.
  - split; [|by right]. intros key (x & Hx & _). by apply elem_of_nil in Hx.
  - cbn [fold_left].
    destruct (Hbody cache x (list_elem_of_here _ _)) as [Htouch Hstep].
    destruct (IH (body cache x)) as [Htouch' Hstep'].
    { intros cache' y Hy. by apply Hbody, list_elem_of_further. }
    split.
    + intros key (y & [->|Hy]%elem_of_cons & Hkey).
      * destruct (Hstep' key) as [?|Heq]; [done|]. rewrite Heq. by apply Htouch.
      * apply Htouch'. by exists y.
    + intros key. destruct (Hstep' key) as [?|Heq]; [by left|].
      rewrite Heq. apply Hstep.
Qed.

Lemma importContextData_agree (S : gmap string SchemaDefinition) acc c :
  (∀ versions v files f d,
     data_versions c.2 = Some versions → (v, files) ∈ versions → (f, d) ∈ files →
     S !! cacheKey c.1 v f = Some d) →
  (∀ key, imports [c] key → (importContextData acc c).2 !! key = S !! key)
  ∧ (∀ key, (importContextData acc c).2 !! key = S !! key
            ∨ (importContextData acc c).2 !! key = acc.2 !! key).
Proof.
  destruct acc as [ms cache], c as [c [manifest versions]].
  unfold importContextData. cbn [fst snd data_manifest data_versions]. intros HS.
  destruct versions as [versions|].
  2: { split; [|by right].
       intros key (c' & cd & vs & v & fs & f & d & Hc & Hvs & _).
       apply list_elem_of_singleton in Hc as [= -> ->]. discriminate Hvs. }
  destruct (fold_left_agree S
              (λ cache v, fold_left (λ cache f, <[cacheKey c v.1 f.1 := f.2]> cache) v.2 cache)
              (λ v key, ∃ f, f ∈ v.2 ∧ key = cacheKey c v.1 f.1) versions cache)
    as [Htouch Hstep].
  { intros cache' [v files] Hv. cbn [fst snd].
    destruct (fold_left_agree S
                (λ cache f, <[cacheKey c v f.1 := f.2]> cache)
                (λ f key, key = cacheKey c v f.1) files cache') as [Htouch Hstep].
    { intros cache'' [f d] Hf. cbn [fst snd].
      assert (S !! cacheKey c v f = Some d) as Hd by by eapply HS.
      split.
      - intros key ->. by rewrite lookup_insert_eq.
      - intros key. destruct (decide (cacheKey c v f = key)) as [<-|Hne].
        + left. by rewrite lookup_insert_eq.
        + right. by rewrite lookup_insert_ne. }
    split; [|done]. intros key (f & Hf & ->). apply Htouch. by exists f. }
  split; [|done].
  intros key (c' & cd & vs & v & fs & f & d & Hc & Hvs & Hv & Hf & ->).
  apply list_elem_of_singleton in Hc as [= -> ->]. cbn in Hvs. injection Hvs as <-.
  apply Htouch. exists (v, fs). split; [done|]. by exists (f, d).
Qed.

Lemma importContexts_agree (S : gmap string SchemaDefinition)
    (contexts : Dict.t ContextData) acc :
  (∀ c cd versions v files f d,
     (c, cd) ∈ contexts → data_versions cd = Some versions →
     (v, files) ∈ versions → (f, d) ∈ files → S !! cacheKey c v f = Some d) →
  let r := fold_left importContextData contexts acc in
  (∀ key, imports contexts key → r.2 !! key = S !! key)
  ∧ (∀ key, r.2 !! key = S !! key ∨ r.2 !! key = acc.2 !! key).
Proof.
  cbn zeta. revert acc. induction contexts as [|[c cd0] contexts IH]; intros acc HS.
  - split; [|by right].
    intros key (c' & cd & vs & v & fs & f & d & Hc & _). by apply elem_of_nil in Hc.
  - cbn [fold_left].
    destruct (importContextData_agree S acc (c, cd0)) as [Htouch Hstep].
    { intros vs v fs f d Hvs Hv Hf. eapply (HS c cd0); [apply list_elem_of_here|done..]. }
    destruct (IH (importContextData acc (c, cd0))) as [Htouch' Hstep'].
    { intros c' cd vs v fs f d Hc. apply HS. by apply list_elem_of_further. }
    split.
    + intros key (c' & cd & vs & v & fs & f & d & [[= -> ->]|Hc]%elem_of_cons & Hrest).
      * destruct (Hstep' key) as [?|Heq]; [done|]. rewrite Heq. apply Htouch.
        exists c, cd0, vs, v, fs, f, d. split; [apply list_elem_of_here | done].
      * apply Htouch'. by exists c', cd, vs, v, fs, f, d.
    + intros key. destruct (Hstep' key) as [?|Heq]; [by left|].
      rewrite Heq. apply Hstep.
Qed.

Lemma exported_contexts (E : list (string * SchemaDefinition))
    (manifests : Dict.t ContextManifest) (contexts : Dict.t ContextData) :
  NoDup (Dict.keys contexts ++ Dict.keys manifests) →
  fold_left (exportContextData E) manifests contexts
  = contexts
    ++ ((λ cm, (cm.1, {| data_manifest := Some cm.2;
                         data_versions := Some (fold_left (groupByVersion cm.1) E []) |}))
        <$> manifests).
Proof.
  revert contexts. induction manifests as [|[c m] manifests IH]; intros contexts Hnodup.
  - by rewrite app_nil_r.
  - cbn [fold_left]. unfold exportContextData at 2. cbn [fst snd].
    unfold Dict.keys in *. csimpl in Hnodup.
    apply NoDup_app in Hnodup as (Hcs & Hdisj & Hms).
    apply NoDup_cons in Hms as [Hc Hms].
    rewrite dict_set_fresh.
    2: { intros Hin. apply (Hdisj c Hin). apply list_elem_of_here. }
    rewrite IH.
    + csimpl. by rewrite <- app_assoc.
    + rewrite fmap_app. csimpl. apply NoDup_app. split_and!.
      * apply NoDup_app. split_and!; [done | | apply NoDup_singleton].
        intros k Hk ->%list_elem_of_singleton. apply (Hdisj c Hk). apply list_elem_of_here.
      * intros k [Hk| ->%list_elem_of_singleton]%elem_of_app Hk'.
        -- apply (Hdisj k Hk). by apply list_elem_of_further.
        -- done.
      * done.
Qed.

Lemma imported_manifests (g : string * ContextManifest → option (Dict.t (Dict.t SchemaDefinition)))
    (manifests : Dict.t ContextManifest) acc c :
  NoDup (Dict.keys manifests) →
  Dict.get c
    (fold_left importContextData
       ((λ cm, (cm.1, {| data_manifest := Some cm.2; data_versions := g cm |})) <$> manifests)
       acc).1
  = match Dict.get c manifests with
    | Some m => Some m
    | None => Dict.get c acc.1
    end.
Proof.
  revert acc. induction manifests as [|[c0 m0] manifests IH]; intros acc Hnodup; [done|].
  unfold Dict.keys in Hnodup. csimpl in Hnodup. apply NoDup_cons in Hnodup as [Hc0 Hnodup].
  csimpl. rewrite IH by done.
  unfold importContextData at 1. cbn [fst snd data_manifest].
  destruct (decide (c0 = c)) as [->|Hne].
  - apply dict_get_None in Hc0. by rewrite Hc0, dict_get_set_eq.
  - by rewrite dict_get_set_ne.
Qed.



Lemma split_first_lacks sep s before after :
  split_first sep s = Some (before, after) →
  ∀ a, a ∈ String.list_ascii_of_string before → a ≠ sep.
Proof.
  revert before. induction s as [|a s IH]; intros before; [done|].
  cbn. destruct (decide (a = sep)) as [->|Hne].
  - intros [= <- <-] b Hb. by apply elem_of_nil in Hb.
  - destruct (split_first sep s) as [[b r]|]; [|done].
    intros [= <- <-] x Hx. cbn in Hx. apply elem_of_cons in Hx as [->|Hx]; [done|].
    by eapply IH.
Qed.

Lemma split_first_joined sep before after :
  (∀ a, a ∈ String.list_ascii_of_string before → a ≠ sep) →
  split_first sep (before +:+ String sep after) = Some (before, after).
Proof.
  induction before as [|a before IH]; intros Hlacks.
  - change (EmptyString +:+ String sep after) with (String sep after).
    cbn. by rewrite decide_True.
  - change (String a before +:+ String sep after)
      with (String a (before +:+ String sep after)).
    cbn. rewrite decide_False by (apply Hlacks, list_elem_of_here).
    rewrite IH; [done|]. intros x Hx. by apply Hlacks, list_elem_of_further.
Qed.

Lemma no_at_lacks s : no_at s = true ↔ ∀ a, a ∈ String.list_ascii_of_string s → a ≠ "@"%char.
Proof.
  induction s as [|c s IH]; cbn.
  - split; [|done]. intros _ a Ha. by apply elem_of_nil in Ha.
  - destruct (decide (c = "@"%char)) as [->|Hne].
    + split; [done|]. intros H. by destruct (H "@"%char (list_elem_of_here _ _)).
    + rewrite IH. split.
      * intros H a [->|Ha]%elem_of_cons; [done | by apply H].
      * intros H a Ha. by apply H, list_elem_of_further.
Qed.

Lemma no_slash_lacks s : no_slash s = true ↔ ∀ a, a ∈ String.list_ascii_of_string s → a ≠ "/"%char.
Proof.
  induction s as [|c s IH]; cbn.
  - split; [|done]. intros _ a Ha. by apply elem_of_nil in Ha.
  - destruct (decide (c = "/"%char)) as [->|Hne].
    + split; [done|]. intros H. by destruct (H "/"%char (list_elem_of_here _ _)).
    + rewrite IH. split.
      * intros H a [->|Ha]%elem_of_cons; [done | by apply H].
      * intros H a Ha. by apply H, list_elem_of_further.
Qed.

(** X30. The pattern by which [exportAll] reads a cache key recovers the
    context, version and file of the key [ctx@version/file] exactly when
    the context name is not empty and has no ['@'], the version is not
    empty and has no ['/'], and the file name is a non-empty single line.
    (The documents of a context whose name has an ['@'] are therefore not
    in the JSON export.) *)
Theorem matchCacheKey_cacheKey (contextName version schemaFile : string) :
  matchCacheKey (cacheKey contextName version schemaFile)
  = Some (contextName, version, schemaFile)
  ↔ contextName ≠ "" ∧ no_at contextName = true
    ∧ version ≠ "" ∧ no_slash version = true
    ∧ schemaFile ≠ "" ∧ one_line schemaFile = true.
Proof.
  unfold matchCacheKey.
  change (cacheKey contextName version schemaFile)
    with (contextName +:+ String "@"%char (version +:+ String "/"%char schemaFile)).
  split.
  - destruct (split_first "@" _) as [[c rest]|] eqn:Hc; [|done].
    destruct (split_first "/" rest) as [[v f]|] eqn:Hv; [|done].
    destruct (truthy c && truthy v && truthy f && one_line f) eqn:Hok; [|done].
    intros [= -> -> ->].
    apply andb_true_iff in Hok as [[[Hc'%Is_true_true Hv'%Is_true_true]%andb_true_iff
                                      Hf'%Is_true_true]%andb_true_iff Hline].
    split_and!.
    + by destruct contextName.
    + apply no_at_lacks. by eapply split_first_lacks.
    + by destruct version.
    + apply no_slash_lacks. by eapply split_first_lacks.
    + by destruct schemaFile.
    + done.
  - intros (Hc & Hat & Hv & Hslash & Hf & Hline).
    rewrite split_first_joined by by apply no_at_lacks.
    rewrite split_first_joined by by apply no_slash_lacks.
    rewrite Hline.
    by destruct contextName, version, schemaFile.
Qed.

Lemma matchCacheKey_cacheKey_witness :
  matchCacheKey (cacheKey "default" "1.8.0" "core.json")
  = Some ("default", "1.8.0", "core.json")
  ∧ matchCacheKey (cacheKey "a@b" "1.8.0" "core.json") ≠ Some ("a@b", "1.8.0", "core.json").
Proof.
  split.
  - by apply (matchCacheKey_cacheKey "default" "1.8.0" "core.json").
  - intros H. apply (matchCacheKey_cacheKey "a@b" "1.8.0" "core.json") in H
      as (_ & Hat & _).
    discriminate Hat.
Defined.
